(** * singer-stats: the vocalist attribution parser and its statistics

    A shallow embedding of [src/processors/lyrics.js], with
    [findTopVocalistInSong] of [src/processors/album-stats.js], and the
    properties of its specification.

    Conventions of the embedding.
    - A JavaScript string is a [string]; an [ascii] stands for the code unit
      of the same number, so the strings covered are those of code units
      0..255 (Latin-1).  White space, case folding and the character classes
      of the regular expressions are the ECMAScript ones restricted to that
      range.
    - A regular expression is embedded as the function that decides whether
      it matches at the head of a suffix of the subject and how many code
      units it consumes there; the generic scanning loops ([replaceAll],
      [splitBy], [exec]) are shared by all patterns.
    - A plain JavaScript object used as a dictionary is the list of its own
      properties in enumeration order ([JSObject]), with the property
      lookup going through [Object.prototype] as in the language.
    - Code that may raise or loop runs in the [Outcome] monad. *)

From Stdlib Require Import String Ascii List Bool Arith NArith ZArith Lia.
From Stdlib Require Import SpecFloat DecimalString.
Import ListNotations.

Local Open Scope string_scope.
Local Open Scope list_scope.

(* ------------------------------------------------------------------ *)
(** ** Outcomes of a JavaScript computation *)

Inductive JSError : Type :=
| TypeError (message : string).

Inductive Outcome (A : Type) : Type :=
| Return (a : A)
| Throw (e : JSError)
| Diverge.

Arguments Return {A} a.
Arguments Throw {A} e.
Arguments Diverge {A}.

Definition bind {A B : Type} (c : Outcome A) (k : A -> Outcome B) : Outcome B :=
  match c with
  | Return a => k a
  | Throw e => Throw e
  | Diverge => Diverge
  end.

Declare Scope outcome_scope.
Delimit Scope outcome_scope with outcome.
Notation "x <- c ;; k" := (bind c (fun x => k))
  (at level 61, c at next level, right associativity) : outcome_scope.
Local Open Scope outcome_scope.

(** [for (const x of xs) { state = body(state, x) }] *)
Fixpoint forOf {S X : Type} (body : S -> X -> Outcome S) (xs : list X) (st : S)
  : Outcome S :=
  match xs with
  | [] => Return st
  | x :: rest => st' <- body st x ;; forOf body rest st'
  end.

(* ------------------------------------------------------------------ *)
(** ** Strings *)

Module JSString.

(** [\s], and the characters removed by [trim()]: TAB, LF, VT, FF, CR,
    SPACE and NBSP are the ones below 256. *)
Definition isWhiteSpace (c : ascii) : bool :=
  let n := N_of_ascii c in
  ((9 <=? n) && (n <=? 13) || (n =? 32) || (n =? 160))%N.

(** [toLowerCase] of one code unit: A-Z and the Latin-1 capitals
    U+00C0..U+00DE (without the multiplication sign U+00D7). *)
Definition toLowerChar (c : ascii) : ascii :=
  let n := N_of_ascii c in
  if ((65 <=? n) && (n <=? 90)
      || (192 <=? n) && (n <=? 222) && negb (n =? 215))%N
  then ascii_of_N (n + 32) else c.

Fixpoint toLowerCase (s : string) : string :=
  match s with
  | "" => ""
  | String c r => String (toLowerChar c) (toLowerCase r)
  end.

(** Canonicalisation of a code unit by a pattern with the [i] flag and
    without the [u] flag: [toUpperCase], except that a non-ASCII unit is
    never mapped to an ASCII one.  Only its effect on comparisons with
    ASCII letters is used, so the Latin-1 letters are left alone. *)
Definition canonicalize (c : ascii) : ascii :=
  let n := N_of_ascii c in
  if ((97 <=? n) && (n <=? 122))%N then ascii_of_N (n - 32) else c.

Fixpoint drop (n : nat) (s : string) : string :=
  match n, s with
  | O, _ => s
  | S k, "" => ""
  | S k, String _ r => drop k r
  end.

Fixpoint take (n : nat) (s : string) : string :=
  match n, s with
  | O, _ => ""
  | S k, "" => ""
  | S k, String c r => String c (take k r)
  end.

(** [s.substring(n)] *)
Definition substringFrom (n : nat) (s : string) : string := drop n s.

(** [s.startsWith(p)] *)
Fixpoint startsWith (p s : string) : bool :=
  match p, s with
  | "", _ => true
  | String _ _, "" => false
  | String a p', String b s' => Ascii.eqb a b && startsWith p' s'
  end.

(** [s.includes(p)] *)
Fixpoint includes (p s : string) : bool :=
  startsWith p s ||
  match s with
  | "" => false
  | String _ r => includes p r
  end.

(** [s.indexOf(c)] for a one-character needle; [None] stands for -1. *)
Fixpoint indexOf (c : ascii) (s : string) : option nat :=
  match s with
  | "" => None
  | String d r =>
      if Ascii.eqb d c then Some 0
      else option_map S (indexOf c r)
  end.

(** Length of the longest prefix whose code units all satisfy [p]. *)
Fixpoint run (p : ascii -> bool) (s : string) : nat :=
  match s with
  | "" => 0
  | String c r => if p c then S (run p r) else 0
  end.

Fixpoint all (p : ascii -> bool) (s : string) : bool :=
  match s with
  | "" => true
  | String c r => p c && all p r
  end.

Definition trimStart (s : string) : string := drop (run isWhiteSpace s) s.

Fixpoint trimEnd (s : string) : string :=
  match s with
  | "" => ""
  | String c r =>
      match trimEnd r with
      | "" => if isWhiteSpace c then "" else String c ""
      | r' => String c r'
      end
  end.

(** [s.trim()] *)
Definition trim (s : string) : string := trimEnd (trimStart s).

(** A pattern, seen from a position of the subject: [Some n] when it
    matches the first [n] code units of the suffix starting there. *)
Definition Matcher : Type := string -> option nat.

(** A literal pattern. *)
Definition literal (p : string) : Matcher :=
  fun s => if startsWith p s then Some (String.length p) else None.

(** [s.replace(/re/g, repl)] for a pattern that has no empty match and
    no anchor: the matches are found from left to right, each search
    starting where the previous match ended.  [skip] counts the code
    units of the current match that are still to be passed over. *)
Fixpoint replaceAllFrom (m : Matcher) (repl : string) (skip : nat) (s : string)
  : string :=
  match s with
  | "" => ""
  | String c r =>
      match skip with
      | S k => replaceAllFrom m repl k r
      | O =>
          match m s with
          | Some (S k) => repl ++ replaceAllFrom m repl k r
          | _ => String c (replaceAllFrom m repl 0 r)
          end
      end
  end.

Definition replaceAll (m : Matcher) (repl : string) (s : string) : string :=
  replaceAllFrom m repl 0 s.

(** [s.replace(p, repl)] with a string pattern: only the first
    occurrence is replaced ([repl] holds no [$]). *)
Fixpoint replaceFirst (p repl : string) (s : string) : string :=
  if startsWith p s then repl ++ drop (String.length p) s
  else match s with
       | "" => ""
       | String c r => String c (replaceFirst p repl r)
       end.

(** [s.split(sep)] for a separator pattern without empty match.  The
    pieces between the matches are returned, the empty ones included. *)
Fixpoint splitFrom (m : Matcher) (skip : nat) (s : string) : list string :=
  match s with
  | "" => [""]
  | String c r =>
      match skip with
      | S k => splitFrom m k r
      | O =>
          match m s with
          | Some (S k) => "" :: splitFrom m k r
          | _ =>
              match splitFrom m 0 r with
              | piece :: pieces => String c piece :: pieces
              | [] => [String c ""]
              end
          end
      end
  end.

Definition splitBy (m : Matcher) (s : string) : list string := splitFrom m 0 s.

(** The search of [RegExp.prototype.exec] and [String.prototype.match]:
    the first position at or after [p] where the pattern matches, [s]
    being the suffix of the subject that starts at [p]. *)
Fixpoint searchFrom {A : Type} (m : string -> option A) (p : nat) (s : string)
  : option (nat * A) :=
  match m s with
  | Some r => Some (p, r)
  | None =>
      match s with
      | "" => None
      | String _ r => searchFrom m (S p) r
      end
  end.

End JSString.

(* ------------------------------------------------------------------ *)
(** ** Plain objects used as dictionaries *)

Module JSObject.
Import JSString.

(** The own properties, in the order [Object.keys], [Object.values] and
    [Object.entries] enumerate them: the keys that are array indices in
    ascending numeric order, then the other keys in creation order. *)
Definition t (V : Type) : Type := list (string * V).

Definition isDigit (c : ascii) : bool :=
  let n := N_of_ascii c in ((48 <=? n) && (n <=? 57))%N.

Fixpoint digitsValue (acc : N) (s : string) : N :=
  match s with
  | "" => acc
  | String c r => digitsValue (acc * 10 + (N_of_ascii c - 48))%N r
  end.

(** A key is an array index when it is the canonical decimal form of an
    integer between 0 and 2^32 - 2. *)
Definition arrayIndex (k : string) : option N :=
  match k with
  | "" => None
  | String c _ =>
      if all isDigit k && ((k =? "0") || negb (Ascii.eqb c "0"))
         && (String.length k <=? 10)%nat
      then let v := digitsValue 0 k in
           if (v <? 4294967295)%N then Some v else None
      else None
  end.

Section Properties.
Context {V : Type}.

Definition keys (o : t V) : list string := map fst o.
Definition values (o : t V) : list V := map snd o.
Definition entries (o : t V) : list (string * V) := o.

Fixpoint getOwn (k : string) (o : t V) : option V :=
  match o with
  | [] => None
  | (k', v) :: r => if k' =? k then Some v else getOwn k r
  end.

Definition hasOwn (k : string) (o : t V) : bool :=
  match getOwn k o with Some _ => true | None => false end.

Definition update (k : string) (v : V) (o : t V) : t V :=
  map (fun e => if fst e =? k then (k, v) else e) o.

Definition indexBelow (i : N) (e : string * V) : bool :=
  match arrayIndex (fst e) with
  | Some j => (j <? i)%N
  | None => false
  end.

Fixpoint insertIndex (i : N) (k : string) (v : V) (o : t V) : t V :=
  match o with
  | [] => [(k, v)]
  | e :: r => if indexBelow i e then e :: insertIndex i k v r else (k, v) :: o
  end.

(** Creation of a new own property. *)
Definition define (k : string) (v : V) (o : t V) : t V :=
  match arrayIndex k with
  | Some i => insertIndex i k v o
  | None => o ++ [(k, v)]
  end.

(** [o[k] = v] on an object created by [{}].  The key [__proto__] is the
    accessor of [Object.prototype]: the assignment creates no own
    property (it is ignored for a primitive [v] and changes the prototype
    for an object [v]). *)
Definition set (k : string) (v : V) (o : t V) : t V :=
  if k =? "__proto__" then o
  else if hasOwn k o then update k v o
  else define k v o.

(** The properties every plain object inherits from [Object.prototype]:
    functions, and the object behind [__proto__]; all of them truthy. *)
Definition prototypeNames : list string :=
  [ "constructor"; "__defineGetter__"; "__defineSetter__"; "hasOwnProperty";
    "__lookupGetter__"; "__lookupSetter__"; "isPrototypeOf";
    "propertyIsEnumerable"; "toString"; "valueOf"; "__proto__";
    "toLocaleString" ].

Definition inherited (k : string) : bool := existsb (String.eqb k) prototypeNames.

(** The value of the expression [o[k]]. *)
Inductive Lookup : Type :=
| Own (v : V)
| Inherited
| Undefined.

Definition get (k : string) (o : t V) : Lookup :=
  match getOwn k o with
  | Some v => Own v
  | None => if inherited k then Inherited else Undefined
  end.

End Properties.

Arguments Lookup V : clear implicits.

End JSObject.

(* ------------------------------------------------------------------ *)
(** ** The regular expressions of [lyrics.js] *)

Module Patterns.
Import JSString.

Definition isChar (c : ascii) : ascii -> bool := fun d => Ascii.eqb d c.
Definition isNot (c : ascii) : ascii -> bool := fun d => negb (Ascii.eqb d c).

(** [/^\[([^\]]+)\]$/] against a whole string: group 1.  The class cannot
    pass a closing bracket, so the first one has to be the last code unit. *)
Definition sectionHeader (s : string) : option string :=
  match s with
  | String "[" r =>
      let n := run (isNot "]") r in
      if (0 <? n)%nat && (drop n r =? "]") then Some (take n r) else None
  | _ => None
  end.

(** [/<open>([^<]+)<close>/] at the head of [s]: the length of the match
    and group 1.  The group stops at the first [<], where the closing tags
    have to start. *)
Definition tagged (open close : string) (s : string) : option (nat * string) :=
  if startsWith open s then
    let r := drop (String.length open) s in
    let n := run (isNot "<") r in
    if (0 <? n)%nat && startsWith close (drop n r)
    then Some (String.length open + n + String.length close, take n r)%nat
    else None
  else None.

(** [/\s*x\s*/] for a literal [x] that starts with no white space. *)
Definition spaced (x : string) : Matcher := fun s =>
  let n := run isWhiteSpace s in
  let r := drop n s in
  if startsWith x r
  then Some (n + String.length x + run isWhiteSpace (drop (String.length x) r))%nat
  else None.

Fixpoint canonical (s : string) : string :=
  match s with
  | "" => ""
  | String c r => String (canonicalize c) (canonical r)
  end.

(** [/\s+with\s+/i] *)
Definition withWord : Matcher := fun s =>
  let n := run isWhiteSpace s in
  let r := drop n s in
  let k := run isWhiteSpace (drop 4 r) in
  if (0 <? n)%nat && (canonical (take 4 r) =? "WITH") && (0 <? k)%nat
  then Some (n + 4 + k)%nat else None.

(** [/\|\|\|+/]: two bars followed by one bar or more. *)
Definition bars : Matcher := fun s =>
  let n := run (isChar "|") s in
  if (3 <=? n)%nat then Some n else None.

(** [/\s+/] *)
Definition whiteSpaces : Matcher := fun s =>
  let n := run isWhiteSpace s in
  if (0 <? n)%nat then Some n else None.

(** [/<[^>]*>/] *)
Definition anyTag : Matcher := fun s =>
  match s with
  | String "<" r =>
      let n := run (isNot ">") r in
      if startsWith ">" (drop n r) then Some (n + 2)%nat else None
  | _ => None
  end.

(** [/<(i|b)>/] at the head of [s]: group 1. *)
Definition openTag (s : string) : option string :=
  if startsWith "<i>" s then Some "i"
  else if startsWith "<b>" s then Some "b"
  else None.

(** [/<\/(i|b)>/] at the head of [s]: group 1. *)
Definition closeTag (s : string) : option string :=
  if startsWith "</i>" s then Some "i"
  else if startsWith "</b>" s then Some "b"
  else None.

(** [s.match(re)] for a pattern without the [g] flag: the group of the
    leftmost match. *)
Definition firstMatch (re : string -> option string) (s : string) : option string :=
  option_map snd (searchFrom re 0 s).

(** [.replace(/^\s*&amp;\s*/g, '')]: the anchor allows a match at index 0
    only. *)
Definition stripLeadingEntity (s : string) : string :=
  match spaced "&amp;" s with
  | Some n => drop n s
  | None => s
  end.

Definition isDelimiter (c : ascii) : bool :=
  Ascii.eqb c "," || Ascii.eqb c "&" || isWhiteSpace c.

(** [p+$] at the head of [s]: the rest of the subject, when it is not
    empty and all in the class. *)
Definition toTheEnd (p : ascii -> bool) : Matcher := fun s =>
  match s with
  | "" => None
  | _ => if all p s then Some (String.length s) else None
  end.

(** [.replace(/^[,&\s]+|[,&\s]+$/g, '')]: the first alternative takes the
    delimiters at index 0, the second one is tried from where it ended. *)
Definition stripDelimiters (s : string) : string :=
  replaceAll (toTheEnd isDelimiter) "" (drop (run isDelimiter s) s).

(** [.replace(/^\(|\)$/g, '')] *)
Definition stripParentheses (s : string) : string :=
  let rest := match s with String "(" r => r | _ => s end in
  replaceAll (fun t => if t =? ")" then Some 1%nat else None) "" rest.

(** [.replace(/^\|\|\||||\|\|\|$/g, '')].  The pattern has four
    alternatives: three bars at index 0, the empty pattern twice, and
    three bars at the end.  The alternatives are tried in that order and
    the empty one matches everywhere, so the last one is never reached:
    apart from empty matches, replaced by nothing, only three bars at
    index 0 are removed. *)
Definition stripLeadingMarker (s : string) : string :=
  if startsWith "|||" s then drop 3 s else s.

End Patterns.

(* ------------------------------------------------------------------ *)
(** ** [src/processors/lyrics.js] *)

Import JSString Patterns.

(** The formats ['plain'], ['bold'], ['italic'] and ['bold-italic']. *)
Inductive Format : Type := Plain | Bold | Italic | BoldItalic.

Definition Format_eqb (a b : Format) : bool :=
  match a, b with
  | Plain, Plain | Bold, Bold | Italic, Italic | BoldItalic, BoldItalic => true
  | _, _ => false
  end.

(** [{ name, format }] *)
Record VocalistSpec : Type := { name : string; format : Format }.

(** An element of [allMatches]; [stop] is the field [end]. *)
Record TagMatch : Type := {
  fullMatch : string;
  content : string;
  tagFormat : Format;
  start : nat;
  stop : nat
}.

(** [{ lines, words }] *)
Record Stats : Type := { lines : N; words : N }.

(** [{ vocalist, line }] *)
Record ParsedLine : Type := { vocalist : string; line : string }.

Definition nonEmpty (s : string) : bool :=
  match s with "" => false | _ => true end.

(** *** processVocalistName *)

Definition processVocalistName (name : string) : string :=
  let decoded := replaceAll (literal "&amp;") "&" name in
  decoded.

(** *** extractTaggedVocalists *)

Definition patterns : list ((string -> option (nat * string)) * Format) :=
  [ (tagged "<b><i>" "</i></b>", BoldItalic);
    (tagged "<i><b>" "</b></i>", BoldItalic);
    (tagged "<b>" "</b>", Bold);
    (tagged "<i>" "</i>", Italic) ].

(** [regex.exec(text)] for a pattern with the [g] flag whose [lastIndex]
    is [lastIndex]: the index of the match, its length and group 1. *)
Definition exec (regex : string -> option (nat * string)) (text : string)
  (lastIndex : nat) : option (nat * (nat * string)) :=
  if (String.length text <? lastIndex)%nat then None
  else searchFrom regex lastIndex (drop lastIndex text).

(** [while ((match = regex.exec(text)) !== null) allMatches.push(...)].
    Every successful [exec] moves [lastIndex] to the end of its match. *)
Fixpoint execLoop (fuel : nat) (regex : string -> option (nat * string))
  (fmt : Format) (text : string) (lastIndex : nat) (allMatches : list TagMatch)
  : Outcome (list TagMatch) :=
  match fuel with
  | O => Diverge
  | S fuel' =>
      match exec regex text lastIndex with
      | None => Return allMatches
      | Some (index, (len, group1)) =>
          execLoop fuel' regex fmt text (index + len)
            (allMatches ++ [ {| fullMatch := take len (drop index text);
                                content := trim group1;
                                tagFormat := fmt;
                                start := index;
                                stop := index + len |} ])
      end
  end.

(** The loop over [patterns]; the bound on the iterations of the inner
    loop is the number of positions of [text]. *)
Definition collectMatches (text : string) : Outcome (list TagMatch) :=
  forOf (fun allMatches p =>
           execLoop (S (String.length text)) (fst p) (snd p) text 0 allMatches)
        patterns [].

(** [allMatches.sort((a, b) => a.start - b.start)]; the sort is stable. *)
Fixpoint insertByStart (m : TagMatch) (sorted : list TagMatch) : list TagMatch :=
  match sorted with
  | [] => [m]
  | x :: r => if (start m <=? start x)%nat then m :: sorted
              else x :: insertByStart m r
  end.

Definition sortByStart (allMatches : list TagMatch) : list TagMatch :=
  fold_right insertByStart [] allMatches.

Definition overlaps (m existing : TagMatch) : bool :=
  ((start existing <=? start m) && (start m <? stop existing)
   || (start existing <? stop m) && (stop m <=? stop existing))%nat.

(** The body of the loop that fills [filteredMatches]. *)
Definition keepUnlessOverlap (filteredMatches : list TagMatch) (m : TagMatch)
  : list TagMatch :=
  if existsb (overlaps m) filteredMatches then filteredMatches
  else filteredMatches ++ [m].

Definition removeOverlaps (allMatches : list TagMatch) : list TagMatch :=
  fold_left keepUnlessOverlap allMatches [].

Definition filteredMatches (text : string) : Outcome (list TagMatch) :=
  allMatches <- collectMatches text ;;
  Return (removeOverlaps (sortByStart allMatches)).

(** The name a kept match stands for, after the "with" pattern. *)
Definition taggedName (m : TagMatch) : string :=
  if startsWith "with " (toLowerCase (content m))
  then trim (substringFrom 5 (content m))
  else content m.

Definition placeholder : string := "|||REMOVED|||".

(** The body of the loop over [filteredMatches]. *)
Definition processMatch (acc : list VocalistSpec * string) (m : TagMatch)
  : list VocalistSpec * string :=
  let (vocalists, workingText) := acc in
  let content := taggedName m in
  if nonEmpty content then
    (vocalists ++ [ {| name := processVocalistName content; format := tagFormat m |} ],
     replaceFirst (fullMatch m) placeholder workingText)
  else acc.

(** The chain of replacements that ends the function. *)
Definition cleanUp (workingText : string) : string :=
  trim (stripDelimiters (stripLeadingEntity
    (replaceAll whiteSpaces " " (replaceAll (literal placeholder) "" workingText)))).

Definition extractTaggedVocalists (text : string)
  : Outcome (list VocalistSpec * string) :=
  kept <- filteredMatches text ;;
  let (vocalists, workingText) := fold_left processMatch kept ([], text) in
  Return (vocalists, cleanUp workingText).

(** *** parseUntaggedText and its helpers *)

Definition normalizeDelimiters (text : string) : string :=
  stripLeadingMarker
    (replaceAll bars "|||"
      (replaceAll (spaced ",") "|||"
        (replaceAll withWord "|||"
          (replaceAll (spaced "&") "|||"
            (replaceAll (spaced "&amp;") "|||" text))))).

Definition splitIntoSegments (text : string) : list string :=
  filter (fun s => (0 <? String.length s)%nat)
    (map trim (splitBy (literal "|||") text)).

Definition cleanSegment (segment : string) : string :=
  trim (replaceAll whiteSpaces " " (stripParentheses segment)).

Definition parseUntaggedText (text : string) : list VocalistSpec :=
  if nonEmpty text then
    let normalized := normalizeDelimiters text in
    let segments := splitIntoSegments normalized in
    flat_map (fun segment =>
                let cleaned := cleanSegment segment in
                if nonEmpty cleaned
                then [ {| name := processVocalistName cleaned; format := Plain |} ]
                else [])
             segments
  else [].

(** *** parseVocalists *)

Definition assign (vocalists : JSObject.t Format) (v : VocalistSpec)
  : JSObject.t Format :=
  JSObject.set (name v) (format v) vocalists.

Definition parseVocalists (vocalistsPart : string) : Outcome (JSObject.t Format) :=
  taggedResult <- extractTaggedVocalists vocalistsPart ;;
  let vocalists := fold_left assign (fst taggedResult) [] in
  let remainingText := snd taggedResult in
  let untaggedVocalists := parseUntaggedText remainingText in
  Return (fold_left assign untaggedVocalists vocalists).

(** *** determineVocalist *)

Definition findFormat (f : Format) (vocalistEntries : list (string * Format))
  : option (string * Format) :=
  find (fun e => Format_eqb (snd e) f) vocalistEntries.

(** [plainVocalist ? plainVocalist[0]
       : (vocalistEntries[0] ? vocalistEntries[0][0] : 'Unknown')] *)
Definition defaultVocalist (vocalistEntries : list (string * Format)) : string :=
  match findFormat Plain vocalistEntries with
  | Some plainVocalist => fst plainVocalist
  | None =>
      match vocalistEntries with
      | first :: _ => fst first
      | [] => "Unknown"
      end
  end.

(** [/^[^<]+/.test(line)] *)
Definition startsWithText (line : string) : bool :=
  match line with
  | "" => false
  | String c _ => isNot "<" c
  end.

Definition determineVocalist (line : string) (vocalists : JSObject.t Format)
  : string :=
  let vocalistEntries := JSObject.entries vocalists in
  if startsWithText line then defaultVocalist vocalistEntries
  else
    match (if startsWith "<b><i>" line || startsWith "<i><b>" line
           then findFormat BoldItalic vocalistEntries else None) with
    | Some boldItalicVocalist => fst boldItalicVocalist
    | None =>
        match (if startsWith "<b>" line
               then findFormat Bold vocalistEntries else None) with
        | Some boldVocalist => fst boldVocalist
        | None =>
            match (if startsWith "<i>" line
                   then findFormat Italic vocalistEntries else None) with
            | Some italicVocalist => fst italicVocalist
            | None => defaultVocalist vocalistEntries
            end
        end
    end.

(** *** parseLyricsWithVocalists *)

(** The variables of the function that the loop over the lines changes. *)
Module Vars.
Record t : Type := {
  result : list ParsedLine;
  vocalistStats : JSObject.t Stats;
  currentVocalists : JSObject.t Format;
  openFormattingTag : option string;
  openTagVocalist : option string
}.
End Vars.

(** [null] and the empty string are falsy. *)
Definition truthy (v : option string) : bool :=
  match v with
  | Some s => nonEmpty s
  | None => false
  end.

(** [trimmedLine.replace(/<[^>]*>/g, '').trim()] and
    [cleanText.split(/\s+/).filter(word => word.length > 0).length] *)
Definition cleanText (trimmedLine : string) : string :=
  trim (replaceAll anyTag "" trimmedLine).

Definition wordCount (trimmedLine : string) : N :=
  N.of_nat (List.length
    (filter (fun word => (0 <? String.length word)%nat)
            (splitBy whiteSpaces (cleanText trimmedLine)))).

(** [if (!vocalistStats[vocalist]) vocalistStats[vocalist] = { lines: 0, words: 0 }].
    An inherited property is truthy as well as an own one. *)
Definition ensureStats (vocalist : string) (stats : JSObject.t Stats)
  : JSObject.t Stats :=
  match JSObject.get vocalist stats with
  | JSObject.Undefined => JSObject.set vocalist {| lines := 0; words := 0 |} stats
  | _ => stats
  end.

(** [vocalistStats[vocalist].field += n].  On an own property the record
    held by the object is changed.  On an inherited property the new
    field lands on the function inherited from [Object.prototype], and the
    own properties stay as they are.  (The key ["__proto__"], which would
    reach [Object.prototype] itself, is the name of no vocalist: see
    [JSObject.set] and [ProtoFacts.proto_is_no_vocalist].)  Reading a
    field of [undefined] raises. *)
Definition addTo (change : Stats -> Stats) (vocalist : string)
  (stats : JSObject.t Stats) : Outcome (JSObject.t Stats) :=
  match JSObject.get vocalist stats with
  | JSObject.Own st => Return (JSObject.update vocalist (change st) stats)
  | JSObject.Inherited => Return stats
  | JSObject.Undefined =>
      Throw (TypeError "Cannot read properties of undefined")
  end.

(** Lines 68 to 85: the statistics and the new element of [result]. *)
Definition record (st : Vars.t) (trimmedLine vocalist : string)
  (openFormattingTag openTagVocalist : option string) : Outcome Vars.t :=
  let count := wordCount trimmedLine in
  let stats := ensureStats vocalist (Vars.vocalistStats st) in
  stats <- addTo (fun s => {| lines := lines s + 1; words := words s |})
                 vocalist stats ;;
  stats <- addTo (fun s => {| lines := lines s; words := words s + count |})
                 vocalist stats ;;
  Return {| Vars.result :=
              Vars.result st ++ [ {| vocalist := vocalist; line := trimmedLine |} ];
            Vars.vocalistStats := stats;
            Vars.currentVocalists := Vars.currentVocalists st;
            Vars.openFormattingTag := openFormattingTag;
            Vars.openTagVocalist := openTagVocalist |}.

(** [openFormattingTag && openTagVocalist]: the tag and the vocalist of
    the open span, when both variables are truthy. *)
Definition openSpan (st : Vars.t) : option (string * string) :=
  match Vars.openFormattingTag st, Vars.openTagVocalist st with
  | Some tag, Some openVocalist =>
      if truthy (Some tag) && truthy (Some openVocalist)
      then Some (tag, openVocalist) else None
  | _, _ => None
  end.

(** Lines 43 to 86: a line that is neither blank nor a header. *)
Definition lyricLine (st : Vars.t) (trimmedLine : string) : Outcome Vars.t :=
  if (0 <? List.length (JSObject.keys (Vars.currentVocalists st)))%nat then
    match openSpan st with
    | Some (tag, openVocalist) =>
        let vocalist := openVocalist in
        if includes ("</" ++ tag ++ ">") trimmedLine
        then record st trimmedLine vocalist None None
        else record st trimmedLine vocalist
               (Vars.openFormattingTag st) (Vars.openTagVocalist st)
    | None =>
        let vocalist := determineVocalist trimmedLine (Vars.currentVocalists st) in
        match firstMatch openTag trimmedLine, firstMatch closeTag trimmedLine with
        | Some group1, None =>
            record st trimmedLine vocalist (Some group1) (Some vocalist)
        | _, _ =>
            record st trimmedLine vocalist
              (Vars.openFormattingTag st) (Vars.openTagVocalist st)
        end
    end
  else Return st.

(** Lines 23 to 40: a section header whose bracketed text is
    [sectionContent]. *)
Definition headerLine (st : Vars.t) (sectionContent : string) : Outcome Vars.t :=
  match indexOf ":" sectionContent with
  | Some colonIndex =>
      let vocalistsPart := trim (substringFrom (colonIndex + 1) sectionContent) in
      vocalists <- parseVocalists vocalistsPart ;;
      Return {| Vars.result := Vars.result st;
                Vars.vocalistStats := Vars.vocalistStats st;
                Vars.currentVocalists := vocalists;
                Vars.openFormattingTag := None;
                Vars.openTagVocalist := None |}
  | None =>
      Return {| Vars.result := Vars.result st;
                Vars.vocalistStats := Vars.vocalistStats st;
                Vars.currentVocalists := Vars.currentVocalists st;
                Vars.openFormattingTag := None;
                Vars.openTagVocalist := None |}
  end.

(** The body of [for (const line of lines)]. *)
Definition processLine (st : Vars.t) (line : string) : Outcome Vars.t :=
  let trimmedLine := trim line in
  if negb (nonEmpty trimmedLine) then Return st
  else
    match sectionHeader trimmedLine with
    | Some sectionContent => headerLine st sectionContent
    | None => lyricLine st trimmedLine
    end.

Definition initial : Vars.t :=
  {| Vars.result := [];
     Vars.vocalistStats := [];
     Vars.currentVocalists := [];
     Vars.openFormattingTag := None;
     Vars.openTagVocalist := None |}.

(** [{ parsedLyrics, vocalistStats }] *)
Record ParseResult : Type := {
  parsedLyrics : list ParsedLine;
  vocalistStats : JSObject.t Stats
}.

Definition newline : string := String "010" "".

Definition parseLyricsWithVocalists (lyricsText : string) : Outcome ParseResult :=
  let lines := splitBy (literal newline) lyricsText in
  st <- forOf processLine lines initial ;;
  Return {| parsedLyrics := Vars.result st;
            vocalistStats := Vars.vocalistStats st |}.

(* ------------------------------------------------------------------ *)
(** ** Numbers: binary64 arithmetic and [toFixed] *)

Module Number.

Definition prec : Z := 53.
Definition emax : Z := 1024.

(** A Number value. *)
Definition t : Type := spec_float.

(** The Number of a count; exact below 2^53. *)
Definition ofN (n : N) : t := binary_normalize prec emax (Z.of_N n) 0 false.

Definition div (x y : t) : t := SFdiv prec emax x y.
Definition mul (x y : t) : t := SFmul prec emax x y.

(** The strings made by [toFixed]: the decimal notation, written out, and
    [Number::toString] of a value, which [toFixed] falls back on for the
    values that are not finite or not below 10^21 and which is not
    interpreted here. *)
Inductive Text : Type :=
| Decimal (digits : string)
| ToString (x : t).

Definition digitsOf (n : Z) : string :=
  DecimalString.NilZero.string_of_uint (N.to_uint (Z.to_N n)).

(** The integer [n] for which [n / 10 - m * 2^e] is closest to zero, the
    larger one when there are two. *)
Definition tenths (m : positive) (e : Z) : Z :=
  if (0 <=? e)%Z then 10 * Z.pos m * 2 ^ e
  else (20 * Z.pos m + 2 ^ (- e)) / 2 ^ (1 - e).

(** [10^21 <= m * 2^e] *)
Definition large (m : positive) (e : Z) : bool :=
  if (0 <=? e)%Z then (10 ^ 21 <=? Z.pos m * 2 ^ e)%Z
  else (10 ^ 21 * 2 ^ (- e) <=? Z.pos m)%Z.

(** [x.toFixed(1)] *)
Definition toFixed1 (x : t) : Text :=
  match x with
  | S754_zero _ => Decimal "0.0"
  | S754_finite negative m e =>
      if large m e then ToString x
      else
        let n := tenths m e in
        Decimal ((if negative then "-" else "")
                 ++ digitsOf (n / 10) ++ "." ++ digitsOf (n mod 10))
  | _ => ToString x
  end.

End Number.

(** *** generateStatsSummary *)

(** A percentage of the summary: the number [0] or a string of [toFixed]. *)
Inductive Percentage : Type :=
| PercentNumber (n : N)
| PercentString (s : Number.Text).

(** [{ linesPercentage, wordsPercentage, ...stats }] *)
Record VocalistSummary : Type := {
  linesPercentage : Percentage;
  wordsPercentage : Percentage;
  counts : Stats
}.

(** [{ totalLines, totalWords, vocalistCount, vocalistStats: vocalistPercentages }] *)
Record Summary : Type := {
  totalLines : N;
  totalWords : N;
  vocalistCount : nat;
  vocalistPercentages : JSObject.t VocalistSummary
}.

(** [total > 0 ? (count / total * 100).toFixed(1) : 0] *)
Definition percentage (count total : N) : Percentage :=
  if (0 <? total)%N
  then PercentString
         (Number.toFixed1
            (Number.mul (Number.div (Number.ofN count) (Number.ofN total))
                        (Number.ofN 100)))
  else PercentNumber 0.

Definition generateStatsSummary (vocalistStats : JSObject.t Stats) : Summary :=
  let totalLines :=
    fold_left (fun sum stats => (sum + lines stats)%N)
              (JSObject.values vocalistStats) 0%N in
  let totalWords :=
    fold_left (fun sum stats => (sum + words stats)%N)
              (JSObject.values vocalistStats) 0%N in
  let vocalistCount := List.length (JSObject.keys vocalistStats) in
  let vocalistPercentages :=
    fold_left (fun percentages e =>
                 let vocalist := fst e in
                 let stats := snd e in
                 JSObject.set vocalist
                   {| linesPercentage := percentage (lines stats) totalLines;
                      wordsPercentage := percentage (words stats) totalWords;
                      counts := stats |}
                   percentages)
              (JSObject.entries vocalistStats) [] in
  {| totalLines := totalLines;
     totalWords := totalWords;
     vocalistCount := vocalistCount;
     vocalistPercentages := vocalistPercentages |}.


(** *** parseLyricsFromFile *)

(** [fs.readFileSync(filePath, 'utf8')] is a parameter of the embedding:
    a file system gives, for a path, the text of the file or the message
    of the error that the read throws.  The result comes with the lines
    written by [console.error]. *)
Definition FileSystem : Type := string -> string + string.

Definition message (e : JSError) : string :=
  match e with TypeError m => m end.

Definition parseLyricsFromFile (fs : FileSystem) (filePath : string)
  : Outcome (ParseResult * list string) :=
  let failed (message : string) :=
    Return ({| parsedLyrics := []; vocalistStats := [] |},
            [ ("Error reading file: " ++ message)%string ]) in
  match fs filePath with
  | inl lyricsText =>
      match parseLyricsWithVocalists lyricsText with
      | Return r => Return (r, [])
      | Throw error => failed (message error)
      | Diverge => Diverge
      end
  | inr message => failed message
  end.

(* ------------------------------------------------------------------ *)
(** ** [src/processors/album-stats.js]: the top vocalist of a song *)

(** The objects that [findTopVocalistInSong] reads the field [lines] of:
    the counts [{ lines, words }] and the entries of a summary, which
    hold them beside the percentages. *)
Class WithLines (V : Type) : Type := linesIn : V -> N.

#[export] Instance Stats_lines : WithLines Stats := lines.
#[export] Instance VocalistSummary_lines : WithLines VocalistSummary :=
  fun stats => lines (counts stats).

(** The body of the [forEach] of [findTopVocalistInSong]: the variables
    [topVocalist] and [maxLines] after the entry [e]. *)
Definition topStep {V : Type} `{WithLines V} (acc : option string * N)
  (e : string * V) : option string * N :=
  let (topVocalist, maxLines) := acc in
  let vocalist := fst e in
  let stats := snd e in
  if (maxLines <? linesIn stats)%N
  then (Some vocalist, linesIn stats)
  else (topVocalist, maxLines).

(** [findTopVocalistInSong(vocalistStats)]; [None] stands for [null]. *)
Definition findTopVocalistInSong {V : Type} `{WithLines V}
  (vocalistStats : JSObject.t V) : option string :=
  fst (fold_left topStep (JSObject.entries vocalistStats) (None, 0%N)).

(* ------------------------------------------------------------------ *)
(** ** Vocabulary of the statements *)

(** The keys are distinct and none is ["__proto__"]: the own properties
    of an object that assignments to [{}] have built. *)
Fixpoint dictionary {V : Type} (o : JSObject.t V) : bool :=
  match o with
  | [] => true
  | (k, _) :: r =>
      negb (k =? "__proto__") && negb (JSObject.hasOwn k r) && dictionary r
  end.

(** The entry of [vocalistPercentages] made from the counts [stats]. *)
Definition summaryEntry (totalLines totalWords : N) (stats : Stats)
  : VocalistSummary :=
  {| linesPercentage := percentage (lines stats) totalLines;
     wordsPercentage := percentage (words stats) totalWords;
     counts := stats |}.

(** The body of the [forEach] of [generateStatsSummary]. *)
Definition summaryStep (totalLines totalWords : N)
  (percentages : JSObject.t VocalistSummary) (e : string * Stats)
  : JSObject.t VocalistSummary :=
  JSObject.set (fst e) (summaryEntry totalLines totalWords (snd e)) percentages.

(** The sum of a field over the values of a mapping. *)
Definition sumOf (field : Stats -> N) (o : JSObject.t Stats) : N :=
  fold_right N.add 0%N (map field (JSObject.values o)).

(** A match recorded where it stands in [text]: [fullMatch] is the part of
    [text] from [start] to [stop], and it is not empty. *)
Definition wellPlaced (text : string) (m : TagMatch) : Prop :=
  stop m = start m + String.length (fullMatch m)
  /\ stop m <= String.length text
  /\ 0 < String.length (fullMatch m)
  /\ drop (start m) text = (fullMatch m ++ drop (stop m) text)%string.

(** A pattern that consumes at least one code unit, and no more than the
    subject has. *)
Definition consuming (regex : string -> option (nat * string)) : Prop :=
  forall s n g, regex s = Some (n, g) -> 0 < n <= String.length s.

(** A lyric line: not blank once trimmed, and not a section header. *)
Definition isLyric (line : string) : bool :=
  nonEmpty (trim line)
  && match sectionHeader (trim line) with
     | None => true
     | Some _ => false
     end.

(** The element of [result] for a line sung by [vocalist]. *)
Definition attributed (vocalist line : string) : ParsedLine :=
  {| vocalist := vocalist; line := trim line |}.

(** Every [<] of the text has a [>] somewhere after it: no tag is left
    unterminated. *)
Fixpoint tagsClosed (s : string) : bool :=
  match s with
  | "" => true
  | String c r =>
      (isNot "<" c || negb (all (isNot ">") r)) && tagsClosed r
  end.

(** A line text wrapped in the formatting tag [tag]. *)
Definition wrapped (tag text : string) : string :=
  ("<" ++ tag ++ ">" ++ text ++ "</" ++ tag ++ ">")%string.

(** The removal of the tags, with the number of code units of the current
    tag that remain to be passed. *)
Definition strip (skip : nat) (s : string) : string :=
  replaceAllFrom anyTag "" skip s.

(** Matches in the order of their starts, none before [lo]. *)
Fixpoint sortedFrom (lo : nat) (ms : list TagMatch) : Prop :=
  match ms with
  | [] => True
  | m :: r => lo <= start m /\ sortedFrom (start m) r
  end.

(** Matches that follow one another without overlap, none starting
    before [e]. *)
Fixpoint chain (e : nat) (ms : list TagMatch) : Prop :=
  match ms with
  | [] => True
  | m :: r => e <= start m /\ chain (stop m) r
  end.

(** The working text still ends with the part of [text] from [e] on. *)
Definition tailKept (text : string) (e : nat) (workingText : string) : Prop :=
  exists w, workingText = (w ++ drop e text)%string.

(** The state of the loop over the kept matches after the matches [ms]. *)
Definition processed (text : string) (ms : list TagMatch)
  : list VocalistSpec * string :=
  fold_left processMatch ms ([], text).

(** The number of elements of [result] attributed to [k], and the sum of
    the word counts of their lines. *)
Definition linesOf (k : string) (result : list ParsedLine) : N :=
  fold_right (fun l n => if vocalist l =? k then (n + 1)%N else n) 0%N result.

Definition wordsOf (k : string) (result : list ParsedLine) : N :=
  fold_right (fun l n => if vocalist l =? k then (n + wordCount (line l))%N else n)
             0%N result.

(** The statistics that belong to [result], for the names that are not
    inherited properties. *)
Definition statisticsOf (k : string) (result : list ParsedLine) : option Stats :=
  if (0 <? linesOf k result)%N && negb (JSObject.inherited k)
  then Some {| lines := linesOf k result; words := wordsOf k result |}
  else None.

(** The invariant of the line loop: the statistics are those of the lines
    attributed so far. *)
Definition consistent (st : Vars.t) : Prop :=
  forall k,
    JSObject.getOwn k (Vars.vocalistStats st) = statisticsOf k (Vars.result st).

(** The text whose lines are [lines]. *)
Definition textOf (lines : list string) : string := String.concat newline lines.

(** The map of the tests of [determineVocalist]. *)
Definition mockVocalists : JSObject.t Format :=
  [ ("Nick Carter", Plain); ("Brian Littrell", Bold); ("AJ McLean", Italic);
    ("Howie Dorough", BoldItalic) ].

(** The exponent binary64 gives to a number of magnitude [2^e]. *)
Definition fexp64 (e : Z) : Z := fexp Number.prec Number.emax e.

(** [n] is the integer nearest to ten times the non-negative Number [x],
    the larger one of two: with [x = m * 2^e], [n - 1/2 <= 10 * x < n + 1/2]
    in integer form. *)
Definition nearestTenth (x : Number.t) (n : Z) : Prop :=
  match x with
  | S754_zero _ => n = 0%Z
  | S754_finite false m e =>
      ((0 <= e)%Z -> n = (10 * Z.pos m * 2 ^ e)%Z)
      /\ ((e < 0)%Z ->
          (- 2 ^ (- e) <= 20 * Z.pos m - 2 ^ (1 - e) * n < 2 ^ (- e))%Z)
  | _ => False
  end.

(** The decimal notation of [n] tenths. *)
Definition oneDecimal (n : Z) : string :=
  (Number.digitsOf (n / 10) ++ "." ++ Number.digitsOf (n mod 10))%string.

(** The percentage of [count] in [total], as the summary holds it: the
    number 0 for a zero total, and else the string, with one decimal, of
    the tenth nearest to the binary64 value of [count / total * 100]. *)
Definition roundedPercentage (count total : N) (p : Percentage) : Prop :=
  (total = 0%N -> p = PercentNumber 0)
  /\ ((0 < total)%N ->
      exists n,
        p = PercentString (Number.Decimal (oneDecimal n))
        /\ nearestTenth
             (Number.mul (Number.div (Number.ofN count) (Number.ofN total))
                         (Number.ofN 100))
             n).

(** No vocalist in sight is named ["__proto__"]: neither in the active
    map, nor in the open span, nor among the attributed lines. *)
Definition protoFree (st : Vars.t) : Prop :=
  ~ In "__proto__" (JSObject.keys (Vars.currentVocalists st))
  /\ Vars.openTagVocalist st <> Some "__proto__"
  /\ forall l, In l (Vars.result st) -> vocalist l <> "__proto__".
(* ------------------------------------------------------------------ *)
(** ** Vocabulary of the further properties *)

(** The format a lyric line is written in, read off its first characters:
    text, one of the two nestings of bold and italic, bold, italic; any
    other markup counts as text. *)
Definition lineFormat (line : string) : Format :=
  if startsWithText line then Plain
  else if startsWith "<b><i>" line || startsWith "<i><b>" line then BoldItalic
  else if startsWith "<b>" line then Bold
  else if startsWith "<i>" line then Italic
  else Plain.

(** White space stands in [s] as single spaces, each followed by another
    character or by the end. *)
Fixpoint singleSpaced (s : string) : bool :=
  match s with
  | "" => true
  | String c r =>
      (negb (isWhiteSpace c)
       || Ascii.eqb c " " && match r with
                             | "" => true
                             | String d _ => negb (isWhiteSpace d)
                             end)
      && singleSpaced r
  end.

(** The tags that the patterns of [extractTaggedVocalists] put around the
    name of a vocalist of format [f]. *)
Definition tagsOf (f : Format) : list (string * string) :=
  match f with
  | BoldItalic => [ ("<b><i>", "</i></b>"); ("<i><b>", "</b></i>") ]
  | Bold => [ ("<b>", "</b>") ]
  | Italic => [ ("<i>", "</i>") ]
  | Plain => []
  end.

(** A match of one of the four patterns: the tags of its format around an
    inner text that is not empty and holds no [<], [content] being the
    inner text trimmed. *)
Definition spanMatch (m : TagMatch) : Prop :=
  exists open close inner,
    In (open, close) (tagsOf (tagFormat m))
    /\ fullMatch m = (open ++ inner ++ close)%string
    /\ nonEmpty inner = true
    /\ all (isNot "<") inner = true
    /\ content m = trim inner.

(** [l1] is made of elements of [l2], in their order. *)
Inductive subsequence {A : Type} : list A -> list A -> Prop :=
| subsequence_nil : subsequence [] []
| subsequence_keep (x : A) (l1 l2 : list A) :
    subsequence l1 l2 -> subsequence (x :: l1) (x :: l2)
| subsequence_skip (x : A) (l1 l2 : list A) :
    subsequence l1 l2 -> subsequence l1 (x :: l2).

(** The attributed lines that reach the statistics: those of the
    vocalists whose name is no inherited property. *)
Definition counted (l : ParsedLine) : bool :=
  negb (JSObject.inherited (vocalist l)).

Definition countedLines (result : list ParsedLine) : N :=
  N.of_nat (List.length (filter counted result)).

Definition countedWords (result : list ParsedLine) : N :=
  fold_right (fun l n => (wordCount (line l) + n)%N) 0%N (filter counted result).

(** The vocalists that a line of the text lists: the keys of the map of a
    section header with a colon, none for any other line. *)
Definition headerVocalists (line : string) : list string :=
  match sectionHeader (trim line) with
  | Some sectionContent =>
      match indexOf ":" sectionContent with
      | Some colonIndex =>
          match parseVocalists
                  (trim (substringFrom (colonIndex + 1) sectionContent)) with
          | Return vocalists => JSObject.keys vocalists
          | _ => []
          end
      | None => []
      end
  | None => []
  end.

(** An invariant of the line loop: the statistics hold distinct names,
    none of them inherited, and their sums are the numbers of the counted
    lines and words. *)
Definition tallied (st : Vars.t) : Prop :=
  dictionary (Vars.vocalistStats st) = true
  /\ (forall k, In k (JSObject.keys (Vars.vocalistStats st)) ->
                JSObject.inherited k = false)
  /\ sumOf lines (Vars.vocalistStats st) = countedLines (Vars.result st)
  /\ sumOf words (Vars.vocalistStats st) = countedWords (Vars.result st).

(** [v] is listed by a section header among the lines [seen]. *)
Definition listedIn (seen : list string) (v : string) : Prop :=
  exists header, In header seen /\ In v (headerVocalists header).

(** An invariant of the line loop: the active map, the vocalist of the
    open span and the vocalists of the attributed lines all come from the
    headers seen so far. *)
Definition sourced (seen : list string) (st : Vars.t) : Prop :=
  (forall k, In k (JSObject.keys (Vars.currentVocalists st)) -> listedIn seen k)
  /\ (forall v, Vars.openTagVocalist st = Some v -> listedIn seen v)
  /\ (forall l, In l (Vars.result st) -> listedIn seen (vocalist l)).

(** A percentage within its range: the number 0, or the string, with one
    decimal, of a number of tenths between 0 and 1000. *)
Definition withinHundred (p : Percentage) : Prop :=
  p = PercentNumber 0
  \/ exists n, (0 <= n <= 1000)%Z
               /\ p = PercentString (Number.Decimal (oneDecimal n)).

(** The order in which the language enumerates the keys of an object: the
    array indices first, ascending, then the other keys. *)
Fixpoint enumerated (ks : list string) : bool :=
  match ks with
  | [] => true
  | k :: r =>
      match JSObject.arrayIndex k with
      | Some i =>
          forallb (fun k' => match JSObject.arrayIndex k' with
                             | Some j => (i <? j)%N
                             | None => true
                             end) r
      | None =>
          forallb (fun k' => match JSObject.arrayIndex k' with
                             | Some _ => false
                             | None => true
                             end) r
      end
      && enumerated r
  end.

(** The number of words of [s]: of the maximal runs of code units that
    are not white space.  [inWord] tells whether the code unit before [s]
    belongs to a word. *)
Fixpoint countWords (inWord : bool) (s : string) : N :=
  match s with
  | "" => 0%N
  | String c r =>
      if isWhiteSpace c then countWords false r
      else ((if inWord then 0 else 1) + countWords true r)%N
  end.

(** A line that is not blank. *)
Definition notBlank (line : string) : bool := nonEmpty (trim line).

(** The number of the pieces of a split that are not empty. *)
Definition wordsIn (pieces : list string) : N :=
  N.of_nat (List.length (filter (fun word => (0 <? String.length word)%nat) pieces)).

(** The number of code units of a list of strings. *)
Definition sizes (pieces : list string) : nat :=
  fold_right (fun piece n => String.length piece + n) 0 pieces.

(** The number of code units of the attributed lines. *)
Definition lengthOf (result : list ParsedLine) : nat :=
  fold_right (fun l n => String.length (line l) + n) 0 result.

(** The length of a string, as a number. *)
Definition len (s : string) : N := N.of_nat (String.length s).

(** The key [k'] may come after the key [k] in an enumeration. *)
Definition after (k : string) (k' : string) : bool :=
  match JSObject.arrayIndex k with
  | Some i => match JSObject.arrayIndex k' with
              | Some j => (i <? j)%N
              | None => true
              end
  | None => match JSObject.arrayIndex k' with
            | Some _ => false
            | None => true
            end
  end.

(* ------------------------------------------------------------------ *)
(** ** The unit tests of [test/unit/lyrics.test.js], run on the embedding *)

Module UnitTests.

Example parse_single_plain :
  parseVocalists "Nick Carter" = Return [("Nick Carter", Plain)].
Proof. reflexivity. Qed.

Example parse_single_bold :
  parseVocalists "<b>Brian Littrell</b>" = Return [("Brian Littrell", Bold)].
Proof. reflexivity. Qed.

Example parse_single_italic :
  parseVocalists "<i>AJ McLean</i>" = Return [("AJ McLean", Italic)].
Proof. reflexivity. Qed.

Example parse_bold_italic :
  parseVocalists "<b><i>Howie Dorough</i></b>" = Return [("Howie Dorough", BoldItalic)]
  /\ parseVocalists "<i><b>Howie Dorough</b></i>" = Return [("Howie Dorough", BoldItalic)].
Proof. split; reflexivity. Qed.

Example parse_commas :
  parseVocalists "AJ, <i>All</i>, <b>Brian</b>"
  = Return [("All", Italic); ("Brian", Bold); ("AJ", Plain)].
Proof. reflexivity. Qed.

Example parse_entity :
  parseVocalists "<b>Nick Carter</b> &amp; Brian Littrell"
  = Return [("Nick Carter", Bold); ("Brian Littrell", Plain)].
Proof. reflexivity. Qed.

Example parse_comma_and_entity :
  parseVocalists "All, <i>Brian</i> &amp; <b>Nick</b>"
  = Return [("Brian", Italic); ("Nick", Bold); ("All", Plain)].
Proof. reflexivity. Qed.

Example parse_with_and_commas :
  parseVocalists "Brian <i>with Kevin</i>, <b>Nick</b>"
  = Return [("Kevin", Italic); ("Nick", Bold); ("Brian", Plain)].
Proof. reflexivity. Qed.

Example name_entity :
  processVocalistName "Nick &amp; Brian" = "Nick & Brian"
  /\ processVocalistName "Nick & Brian" = "Nick & Brian".
Proof. split; reflexivity. Qed.

Example determine_by_format :
  determineVocalist "You are my fire" mockVocalists = "Nick Carter"
  /\ determineVocalist "<b>Now I can see</b>" mockVocalists = "Brian Littrell"
  /\ determineVocalist "<i>Don't wanna hear you</i>" mockVocalists = "AJ McLean"
  /\ determineVocalist "<b><i>You are my fire</i></b>" mockVocalists = "Howie Dorough"
  /\ determineVocalist "<b>Now I can see</b> that we've fallen apart" mockVocalists
     = "Brian Littrell".
Proof. repeat split; reflexivity. Qed.

Example parse_basic_song :
  parseLyricsWithVocalists
    (textOf [ "[Verse 1: Nick Carter]"; "You are my fire"; "The one desire"; "";
            "[Chorus: All]"; "Tell me why"; "Ain't nothing but a heartache" ])
  = Return
      {| parsedLyrics :=
           [ {| vocalist := "Nick Carter"; line := "You are my fire" |};
             {| vocalist := "Nick Carter"; line := "The one desire" |};
             {| vocalist := "All"; line := "Tell me why" |};
             {| vocalist := "All"; line := "Ain't nothing but a heartache" |} ];
         vocalistStats :=
           [ ("Nick Carter", {| lines := 2; words := 7 |});
             ("All", {| lines := 2; words := 8 |}) ] |}.
Proof. vm_compute. reflexivity. Qed.

Example parse_mixed_section :
  parseLyricsWithVocalists
    (textOf [ "[Bridge: <i>AJ McLean</i>, Howie Dorough]";
            "<i>Don't wanna hear you say</i>"; "Ain't nothing but a heartache" ])
  = Return
      {| parsedLyrics :=
           [ {| vocalist := "AJ McLean"; line := "<i>Don't wanna hear you say</i>" |};
             {| vocalist := "Howie Dorough"; line := "Ain't nothing but a heartache" |} ];
         vocalistStats :=
           [ ("AJ McLean", {| lines := 1; words := 5 |});
             ("Howie Dorough", {| lines := 1; words := 5 |}) ] |}.
Proof. vm_compute. reflexivity. Qed.

Example count_words :
  parseLyricsWithVocalists
    (textOf [ "[Verse 1: Test Singer]"; "This is a five word line"; "Short line" ])
  = Return
      {| parsedLyrics :=
           [ {| vocalist := "Test Singer"; line := "This is a five word line" |};
             {| vocalist := "Test Singer"; line := "Short line" |} ];
         vocalistStats := [ ("Test Singer", {| lines := 2; words := 8 |}) ] |}.
Proof. vm_compute. reflexivity. Qed.

Example summary_of_three :
  generateStatsSummary
    [ ("Nick Carter", {| lines := 4; words := 16 |});
      ("Brian Littrell", {| lines := 2; words := 12 |});
      ("AJ McLean", {| lines := 2; words := 8 |}) ]
  = {| totalLines := 8; totalWords := 36; vocalistCount := 3;
       vocalistPercentages :=
         [ ("Nick Carter",
            {| linesPercentage := PercentString (Number.Decimal "50.0");
               wordsPercentage := PercentString (Number.Decimal "44.4");
               counts := {| lines := 4; words := 16 |} |});
           ("Brian Littrell",
            {| linesPercentage := PercentString (Number.Decimal "25.0");
               wordsPercentage := PercentString (Number.Decimal "33.3");
               counts := {| lines := 2; words := 12 |} |});
           ("AJ McLean",
            {| linesPercentage := PercentString (Number.Decimal "25.0");
               wordsPercentage := PercentString (Number.Decimal "22.2");
               counts := {| lines := 2; words := 8 |} |}) ] |}.
Proof. vm_compute. reflexivity. Qed.

Example summary_of_one :
  generateStatsSummary [ ("Solo Artist", {| lines := 5; words := 20 |}) ]
  = {| totalLines := 5; totalWords := 20; vocalistCount := 1;
       vocalistPercentages :=
         [ ("Solo Artist",
            {| linesPercentage := PercentString (Number.Decimal "100.0");
               wordsPercentage := PercentString (Number.Decimal "100.0");
               counts := {| lines := 5; words := 20 |} |}) ] |}.
Proof. vm_compute. reflexivity. Qed.

Example top_of_three :
  findTopVocalistInSong
    [ ("Nick Carter", {| lines := 8; words := 32 |});
      ("Brian Littrell", {| lines := 12; words := 48 |});
      ("AJ McLean", {| lines := 6; words := 24 |}) ]
  = Some "Brian Littrell".
Proof. reflexivity. Qed.

Example top_of_none :
  findTopVocalistInSong (@nil (string * Stats)) = None.
Proof. reflexivity. Qed.

Example top_of_one :
  findTopVocalistInSong [ ("Solo Artist", {| lines := 10; words := 40 |}) ]
  = Some "Solo Artist".
Proof. reflexivity. Qed.

End UnitTests.

(* ------------------------------------------------------------------ *)
(** ** Facts about objects *)

Module JSObjectFacts.
Import JSObject.

Section Facts.
Context {V : Type}.
Implicit Types (o : t V) (k : string) (v : V).

Lemma in_insertIndex i k v o x :
  In x (insertIndex i k v o) <-> x = (k, v) \/ In x o.
Proof.
  induction o as [|e r IH]; simpl.
  - intuition congruence.
  - destruct (indexBelow i e); simpl; rewrite ?IH; intuition congruence.
Qed.

Lemma in_define k v o x : In x (define k v o) <-> x = (k, v) \/ In x o.
Proof.
  unfold define. destruct (arrayIndex k).
  - apply in_insertIndex.
  - rewrite in_app_iff. simpl. intuition congruence.
Qed.

Lemma getOwn_in k v o : getOwn k o = Some v -> In (k, v) o.
Proof.
  induction o as [|[k' v'] r IH]; simpl; [discriminate|].
  destruct (String.eqb_spec k' k); intros H.
  - left. congruence.
  - right. auto.
Qed.

Lemma getOwn_none k o : getOwn k o = None <-> ~ In k (keys o).
Proof.
  induction o as [|[k' v'] r IH]; simpl; [intuition|].
  destruct (String.eqb_spec k' k); [intuition congruence|].
  rewrite IH. intuition.
Qed.

Lemma in_getOwn k v o : NoDup (keys o) -> In (k, v) o -> getOwn k o = Some v.
Proof.
  induction o as [|[k' v'] r IH]; simpl; [tauto|].
  intros Hnd [Heq|Hin]; inversion Hnd as [|? ? Hnotin Hnd']; subst.
  - inversion Heq; subst. rewrite String.eqb_refl. reflexivity.
  - destruct (String.eqb_spec k' k); [|auto].
    subst. exfalso. apply Hnotin. apply (in_map fst) in Hin. exact Hin.
Qed.

Lemma getOwn_insertIndex i k v o k' :
  getOwn k o = None ->
  getOwn k' (insertIndex i k v o) = if String.eqb k k' then Some v else getOwn k' o.
Proof.
  induction o as [|[k0 v0] r IH]; simpl; intros Hfresh.
  - reflexivity.
  - destruct (String.eqb_spec k0 k); [discriminate|].
    destruct (indexBelow i (k0, v0)); simpl.
    + rewrite IH by assumption.
      destruct (String.eqb_spec k0 k'), (String.eqb_spec k k'); congruence.
    + reflexivity.
Qed.

Lemma getOwn_app k o o' :
  getOwn k (o ++ o') = match getOwn k o with Some v => Some v | None => getOwn k o' end.
Proof.
  induction o as [|[k0 v0] r IH]; simpl; [reflexivity|].
  destruct (String.eqb k0 k); [reflexivity|apply IH].
Qed.

Lemma getOwn_define k v o k' :
  getOwn k o = None ->
  getOwn k' (define k v o) = if String.eqb k k' then Some v else getOwn k' o.
Proof.
  intros Hfresh. unfold define. destruct (arrayIndex k).
  - apply getOwn_insertIndex. exact Hfresh.
  - rewrite getOwn_app. simpl.
    destruct (String.eqb_spec k k').
    + subst. rewrite Hfresh. reflexivity.
    + destruct (getOwn k' o); reflexivity.
Qed.

Lemma getOwn_update k v o k' :
  getOwn k' (update k v o)
  = if String.eqb k k' then option_map (fun _ => v) (getOwn k o) else getOwn k' o.
Proof.
  induction o as [|[k0 v0] r IH]; simpl.
  - destruct (String.eqb k k'); reflexivity.
  - destruct (String.eqb_spec k0 k); simpl.
    + subst. rewrite IH. destruct (String.eqb_spec k k'); reflexivity.
    + rewrite IH. destruct (String.eqb_spec k0 k'), (String.eqb_spec k k');
        congruence.
Qed.

Lemma keys_update k v o : keys (update k v o) = keys o.
Proof.
  unfold keys, update. rewrite map_map. apply map_ext_in.
  intros [k0 v0] _. simpl. destruct (String.eqb_spec k0 k); simpl; congruence.
Qed.

Lemma in_update k v o x :
  In x (update k v o) -> x = (k, v) \/ In x o.
Proof.
  unfold update. rewrite in_map_iff. intros [e [He Hin]].
  destruct (fst e =? k)%string; subst; auto.
Qed.

(** What an assignment does to the own properties. *)
Lemma getOwn_set k v o k' :
  getOwn k' (set k v o)
  = if String.eqb k "__proto__" then getOwn k' o
    else if String.eqb k k' then Some v else getOwn k' o.
Proof.
  unfold set, hasOwn. destruct (String.eqb k "__proto__"); [reflexivity|].
  destruct (getOwn k o) eqn:Hk.
  - rewrite getOwn_update, Hk. reflexivity.
  - apply getOwn_define. exact Hk.
Qed.

Lemma in_set k v o x : In x (set k v o) -> x = (k, v) \/ In x o.
Proof.
  unfold set. destruct (String.eqb k "__proto__"); [auto|].
  destruct (hasOwn k o).
  - apply in_update.
  - apply in_define.
Qed.

Lemma in_keys_getOwn k o : In k (keys o) <-> exists v, getOwn k o = Some v.
Proof.
  destruct (getOwn k o) eqn:H.
  - split; [eauto|]. intros _. apply getOwn_in in H.
    apply (in_map fst) in H. exact H.
  - split; [|intros [v Hv]; discriminate].
    intros Hin. apply getOwn_none in H. contradiction.
Qed.

Lemma in_keys_set k v o k' :
  In k' (keys (set k v o)) <-> In k' (keys o) \/ (k' = k /\ k <> "__proto__").
Proof.
  rewrite !in_keys_getOwn, getOwn_set.
  destruct (String.eqb_spec k "__proto__") as [Hp|Hp].
  - intuition.
  - destruct (String.eqb_spec k k').
    + subst. split; [intros _; right; auto|intros _; eauto].
    + split; [auto|]. intros [H|[H _]]; [exact H|congruence].
Qed.

End Facts.

End JSObjectFacts.


(* ------------------------------------------------------------------ *)
(** ** Facts about strings *)

Module StringFacts.
Import JSString.

Lemma append_nil_r (s : string) : (s ++ "")%string = s.
Proof. induction s as [|c r IH]; simpl; [reflexivity|rewrite IH; reflexivity]. Qed.

Lemma append_assoc (a b c : string) : ((a ++ b) ++ c = a ++ (b ++ c))%string.
Proof. induction a as [|x r IH]; simpl; [reflexivity|rewrite IH; reflexivity]. Qed.

Lemma length_append (a b : string) :
  String.length (a ++ b) = String.length a + String.length b.
Proof. induction a as [|x r IH]; simpl; [reflexivity|rewrite IH; reflexivity]. Qed.

Lemma drop_nil (n : nat) : drop n "" = "".
Proof. destruct n; reflexivity. Qed.

Lemma length_drop (n : nat) (s : string) :
  String.length (drop n s) = String.length s - n.
Proof.
  revert s. induction n as [|n IH]; intros s; simpl.
  - lia.
  - destruct s as [|c r]; simpl; [reflexivity|apply IH].
Qed.

Lemma length_take (n : nat) (s : string) :
  String.length (take n s) = Nat.min n (String.length s).
Proof.
  revert s. induction n as [|n IH]; intros s; simpl; [reflexivity|].
  destruct s as [|c r]; simpl; [reflexivity|rewrite IH; reflexivity].
Qed.

Lemma take_drop (n : nat) (s : string) : (take n s ++ drop n s)%string = s.
Proof.
  revert s. induction n as [|n IH]; intros s; simpl; [reflexivity|].
  destruct s as [|c r]; simpl; [reflexivity|rewrite IH; reflexivity].
Qed.

Lemma drop_drop (n k : nat) (s : string) : drop n (drop k s) = drop (k + n) s.
Proof.
  revert s. induction k as [|k IH]; intros s; simpl; [reflexivity|].
  destruct s as [|c r]; [apply drop_nil|apply IH].
Qed.

Lemma drop_append (a b : string) : drop (String.length a) (a ++ b) = b.
Proof. induction a as [|x r IH]; simpl; [reflexivity|exact IH]. Qed.

Lemma take_append (a b : string) : take (String.length a) (a ++ b) = a.
Proof. induction a as [|x r IH]; simpl; [reflexivity|rewrite IH; reflexivity]. Qed.

Lemma drop_all (n : nat) (s : string) : String.length s <= n -> drop n s = "".
Proof.
  revert s. induction n as [|n IH]; intros s H; simpl.
  - destruct s; [reflexivity|simpl in H; lia].
  - destruct s as [|c r]; [reflexivity|]. apply IH. simpl in H. lia.
Qed.

Lemma startsWith_append (p s : string) : startsWith p (p ++ s) = true.
Proof.
  induction p as [|c r IH]; simpl; [reflexivity|].
  rewrite Ascii.eqb_refl. exact IH.
Qed.

(** A prefix, taken apart. *)
Lemma startsWith_split (p s : string) :
  startsWith p s = true -> s = (p ++ drop (String.length p) s)%string.
Proof.
  revert s. induction p as [|c r IH]; intros s H; simpl; [reflexivity|].
  destruct s as [|d s']; simpl in H; [discriminate|].
  apply andb_prop in H as [Hc Hr]. apply Ascii.eqb_eq in Hc. subst d.
  simpl. f_equal. apply IH. exact Hr.
Qed.

Lemma startsWith_length (p s : string) :
  startsWith p s = true -> String.length p <= String.length s.
Proof.
  intros H. apply startsWith_split in H.
  apply (f_equal String.length) in H. rewrite length_append in H. lia.
Qed.

Lemma startsWith_iff (p s : string) :
  startsWith p s = true <-> exists r, s = (p ++ r)%string.
Proof.
  split.
  - intros H. eexists. apply startsWith_split. exact H.
  - intros [r ->]. apply startsWith_append.
Qed.

Lemma run_le (p : ascii -> bool) (s : string) : run p s <= String.length s.
Proof. induction s as [|c r IH]; simpl; [lia|destruct (p c); lia]. Qed.

Lemma all_take_run (p : ascii -> bool) (s : string) : all p (take (run p s) s) = true.
Proof.
  induction s as [|c r IH]; simpl; [reflexivity|].
  destruct (p c) eqn:Hc; simpl; [rewrite Hc; exact IH|reflexivity].
Qed.

(** The run stops at the end or at a code unit outside the class. *)
Lemma run_stops (p : ascii -> bool) (s : string) :
  match drop (run p s) s with
  | "" => True
  | String c _ => p c = false
  end.
Proof.
  induction s as [|c r IH]; simpl; [exact I|].
  destruct (p c) eqn:Hc; simpl; [exact IH|exact Hc].
Qed.

Lemma run_append (p : ascii -> bool) (a : string) (c : ascii) (r : string) :
  all p a = true -> p c = false -> run p (a ++ String c r) = String.length a.
Proof.
  intros Ha Hc. induction a as [|x a' IH]; simpl.
  - rewrite Hc. reflexivity.
  - simpl in Ha. apply andb_prop in Ha as [Hx Ha']. rewrite Hx, IH by assumption.
    reflexivity.
Qed.

Lemma run_all (p : ascii -> bool) (s : string) :
  all p s = true -> run p s = String.length s.
Proof.
  induction s as [|c r IH]; simpl; [reflexivity|].
  intros H. apply andb_prop in H as [Hc Hr]. rewrite Hc, IH by assumption.
  reflexivity.
Qed.

Lemma nonEmpty_length (s : string) : nonEmpty s = true <-> 0 < String.length s.
Proof. destruct s; simpl; split; intros H; try reflexivity; try discriminate; lia. Qed.

(** The search finds a position at or after its start where the pattern
    matches. *)
Lemma searchFrom_some {A : Type} (m : string -> option A) (s : string) :
  forall p i r,
    searchFrom m p s = Some (i, r) ->
    p <= i /\ i - p <= String.length s /\ m (drop (i - p) s) = Some r.
Proof.
  induction s as [|c s' IH]; intros p i r H; simpl in H.
  - destruct (m "") eqn:Hm; [|discriminate].
    injection H as <- <-. rewrite Nat.sub_diag. simpl. auto.
  - destruct (m (String c s')) eqn:Hm.
    + injection H as <- <-. rewrite Nat.sub_diag. simpl. split; [lia|]. split; [lia|auto].
    + apply IH in H as (Hle & Hlen & Hr).
      replace (i - p) with (S (i - S p)) by lia. simpl.
      split; [lia|]. split; [lia|exact Hr].
Qed.

Lemma searchFrom_none {A : Type} (m : string -> option A) (s : string) :
  forall p, searchFrom m p s = None -> forall k, m (drop k s) = None.
Proof.
  induction s as [|c s' IH]; intros p H k; simpl in H.
  - destruct (m "") eqn:Hm; [discriminate|]. rewrite drop_nil. exact Hm.
  - destruct (m (String c s')) eqn:Hm; [discriminate|].
    destruct k as [|k]; simpl; [exact Hm|]. apply (IH (S p)). exact H.
Qed.

End StringFacts.

(* ------------------------------------------------------------------ *)
(** ** Facts about binary64 arithmetic *)

Module FloatFacts.
Local Open Scope Z_scope.

Lemma digits2_bounds (p : positive) :
  2 ^ (Z.pos (digits2_pos p) - 1) <= Z.pos p < 2 ^ Z.pos (digits2_pos p).
Proof.
  induction p as [p IH|p IH|]; simpl digits2_pos.
  - rewrite Pos2Z.inj_succ. replace (Z.succ (Z.pos (digits2_pos p)) - 1)
      with (Z.succ (Z.pos (digits2_pos p) - 1)) by lia.
    rewrite !Z.pow_succ_r by lia. lia.
  - rewrite Pos2Z.inj_succ. replace (Z.succ (Z.pos (digits2_pos p)) - 1)
      with (Z.succ (Z.pos (digits2_pos p) - 1)) by lia.
    rewrite !Z.pow_succ_r by lia. lia.
  - simpl. lia.
Qed.

(** The number of digits of a mantissa below a power of two. *)
Lemma Zdigits2_le (m j : Z) : 0 <= m < 2 ^ j -> 0 <= j -> Zdigits2 m <= j.
Proof.
  intros [Hm Hlt] Hj. destruct m as [|p|p]; simpl; [lia| |lia].
  pose proof (digits2_bounds p) as [Hlo _].
  destruct (Z.le_gt_cases (Z.pos (digits2_pos p)) j) as [|Hgt]; [assumption|].
  assert (2 ^ j <= 2 ^ (Z.pos (digits2_pos p) - 1))
    by (apply Z.pow_le_mono_r; lia).
  lia.
Qed.

Lemma shr_1_m (mrs : shr_record) :
  0 <= shr_m mrs -> shr_m (shr_1 mrs) = shr_m mrs / 2.
Proof.
  destruct mrs as [m r s]. simpl. intros Hm.
  destruct m as [|[p|p|]|p]; cbn [shr_m]; try lia.
  all: first [apply Z.div_unique with 0; lia | apply Z.div_unique with 1; lia].
Qed.

Lemma shr_iter_m (p : positive) :
  forall mrs, 0 <= shr_m mrs ->
              shr_m (iter_pos shr_1 p mrs) = shr_m mrs / 2 ^ Z.pos p.
Proof.
  assert (Hpos : forall q, 0 < 2 ^ Z.pos q) by (intros q; apply Z.pow_pos_nonneg; lia).
  induction p as [p IH|p IH|]; intros mrs Hm; simpl iter_pos.
  - rewrite IH, IH, shr_1_m by
      (rewrite ?IH, ?shr_1_m by (rewrite ?shr_1_m by assumption;
                                 try apply Z.div_pos; lia);
       try apply Z.div_pos; try apply Z.div_pos; try lia; apply Hpos).
    rewrite !Z.div_div by (try lia; apply Hpos).
    f_equal. rewrite Pos2Z.inj_xI, <- Z.pow_add_r, <- (Z.pow_1_r 2) at 1 by lia.
    rewrite <- Z.pow_add_r by lia. f_equal. lia.
  - rewrite IH, IH by
      (rewrite ?IH by assumption; try apply Z.div_pos; try lia; apply Hpos).
    rewrite !Z.div_div by (try lia; apply Hpos).
    f_equal. rewrite Pos2Z.inj_xO, <- Z.pow_add_r by lia. f_equal. lia.
  - rewrite shr_1_m by assumption. reflexivity.
Qed.

Lemma fexp64_eq (e : Z) : fexp64 e = Z.max (e - 53) (-1074).
Proof. reflexivity. Qed.

(** What the shift to the exponent of the format does. *)
Lemma shr_fexp_spec (m e : Z) (l : location) :
  0 <= m ->
  let n := fexp64 (Zdigits2 m + e) - e in
  let res := shr_fexp Number.prec Number.emax m e l in
  0 <= shr_m (fst res)
  /\ (n <= 0 -> shr_m (fst res) = m /\ snd res = e)
  /\ (0 < n -> shr_m (fst res) = m / 2 ^ n /\ snd res = e + n).
Proof.
  intros Hm n res. unfold res, shr_fexp. fold (fexp64 (Zdigits2 m + e)). fold n.
  assert (Hrec : shr_m (shr_record_of_loc m l) = m)
    by (destruct l as [|[]]; reflexivity).
  unfold shr. destruct n as [|p|p] eqn:Hn; cbn [fst snd].
  - rewrite Hrec. repeat split; lia.
  - rewrite shr_iter_m by (rewrite Hrec; exact Hm). rewrite Hrec.
    assert (0 < 2 ^ Z.pos p) by (apply Z.pow_pos_nonneg; lia).
    repeat split; try lia. apply Z.div_pos; lia.
  - rewrite Hrec. repeat split; lia.
Qed.

Lemma round_nearest_even_bounds (m : Z) (l : location) :
  m <= round_nearest_even m l <= m + 1.
Proof.
  unfold round_nearest_even. destruct l as [|[]]; try lia.
  destruct (Z.even m); lia.
Qed.

(** A value below [2^k] rounds to zero or to a finite number that is at
    most [2^k]. *)
Lemma binary_round_aux_bound (mx ex : Z) (lx : location) (k : Z) :
  0 <= mx < 2 ^ (k - ex) -> ex <= k -> -1074 <= k <= 971 ->
  binary_round_aux Number.prec Number.emax false mx ex lx = S754_zero false
  \/ exists m e,
       binary_round_aux Number.prec Number.emax false mx ex lx
       = S754_finite false m e
       /\ Z.pos m <= 2 ^ (k - e) /\ e <= k.
Proof.
  intros [Hmx Hlt] Hex Hk. unfold binary_round_aux.
  pose proof (shr_fexp_spec mx ex lx Hmx) as H1. cbv zeta in H1.
  destruct (shr_fexp Number.prec Number.emax mx ex lx) as [mrs1 e1].
  cbn [fst snd] in H1. destruct H1 as (Hm1 & Hsame1 & Hshift1).
  assert (Hd : Zdigits2 mx <= k - ex) by (apply Zdigits2_le; lia).
  assert (Hb1 : shr_m mrs1 < 2 ^ (k - e1) /\ e1 <= k).
  { rewrite fexp64_eq in Hsame1, Hshift1.
    destruct (Z.le_gt_cases (Z.max (Zdigits2 mx + ex - 53) (-1074) - ex) 0) as [Hn|Hn].
    - destruct (Hsame1 Hn) as [-> ->]. auto.
    - destruct (Hshift1 Hn) as [-> ->].
      set (n := Z.max (Zdigits2 mx + ex - 53) (-1074) - ex) in *.
      split; [|lia].
      apply Z.div_lt_upper_bound; [apply Z.pow_pos_nonneg; lia|].
      rewrite <- Z.pow_add_r by lia.
      replace (n + (k - (ex + n))) with (k - ex) by lia. exact Hlt. }
  destruct Hb1 as [Hb1 He1].
  set (m2 := round_nearest_even (shr_m mrs1) (loc_of_shr_record mrs1)).
  pose proof (round_nearest_even_bounds (shr_m mrs1) (loc_of_shr_record mrs1)) as Hr.
  fold m2 in Hr.
  assert (Hm2 : 0 <= m2 <= 2 ^ (k - e1)) by lia.
  pose proof (shr_fexp_spec m2 e1 loc_Exact (proj1 Hm2)) as H2. cbv zeta in H2.
  destruct (shr_fexp Number.prec Number.emax m2 e1 loc_Exact) as [mrs2 e2].
  cbn [fst snd] in H2. destruct H2 as (Hm3 & Hsame2 & Hshift2).
  assert (Hd2 : Zdigits2 m2 <= k - e1 + 1).
  { apply Zdigits2_le; [|lia]. rewrite Z.pow_add_r by lia. lia. }
  assert (Hb2 : shr_m mrs2 <= 2 ^ (k - e2) /\ e2 <= k).
  { rewrite fexp64_eq in Hsame2, Hshift2.
    destruct (Z.le_gt_cases (Z.max (Zdigits2 m2 + e1 - 53) (-1074) - e1) 0) as [Hn|Hn].
    - destruct (Hsame2 Hn) as [-> ->]. split; lia.
    - destruct (Hshift2 Hn) as [-> ->].
      set (n := Z.max (Zdigits2 m2 + e1 - 53) (-1074) - e1) in *.
      split; [|lia].
      apply Z.div_le_upper_bound; [apply Z.pow_pos_nonneg; lia|].
      rewrite <- Z.pow_add_r by lia.
      replace (n + (k - (e1 + n))) with (k - e1) by lia. lia. }
  destruct Hb2 as [Hb2 He2].
  destruct (shr_m mrs2) as [|m|m] eqn:Hm.
  - left. reflexivity.
  - right. exists m, e2.
    replace (e2 <=? Number.emax - Number.prec) with true
      by (symmetry; apply Z.leb_le; unfold Number.emax, Number.prec; lia).
    auto.
  - lia.
Qed.

Lemma binary_round_aux_exact (mz : positive) (ez : Z) :
  Z.pos (digits2_pos mz) = 53 -> -1074 <= ez <= 971 ->
  binary_round_aux Number.prec Number.emax false (Z.pos mz) ez loc_Exact
  = S754_finite false mz ez.
Proof.
  intros Hd He. unfold binary_round_aux, shr_fexp.
  cbn [Zdigits2 shr_record_of_loc]. rewrite Hd.
  replace (fexp Number.prec Number.emax (53 + ez) - ez) with 0
    by (unfold fexp, emin, Number.prec, Number.emax; lia).
  cbn [shr shr_m loc_of_shr_record round_nearest_even Zdigits2 shr_record_of_loc].
  rewrite Hd.
  replace (fexp Number.prec Number.emax (53 + ez) - ez) with 0
    by (unfold fexp, emin, Number.prec, Number.emax; lia).
  cbn [shr shr_m].
  replace (ez <=? Number.emax - Number.prec) with true
    by (symmetry; apply Z.leb_le; unfold Number.emax, Number.prec; lia).
  reflexivity.
Qed.

Lemma iter_xO (p j : positive) :
  Z.pos (Pos.iter xO p j) = Z.pos p * 2 ^ Z.pos j
  /\ Z.pos (digits2_pos (Pos.iter xO p j)) = Z.pos (digits2_pos p) + Z.pos j.
Proof.
  induction j as [|j IH] using Pos.peano_ind.
  - simpl. lia.
  - rewrite Pos.iter_succ. destruct IH as [IH1 IH2].
    cbn [digits2_pos]. rewrite Pos2Z.inj_succ, Pos2Z.inj_xO, IH1.
    rewrite (Pos2Z.inj_succ (digits2_pos _)), IH2.
    rewrite Z.pow_succ_r by lia. lia.
Qed.

(** The Number of a positive count in the safe range: exact, with a
    mantissa of 53 digits. *)
Lemma ofN_spec (n : N) :
  (0 < n < 2 ^ 53)%N ->
  exists m e,
    Number.ofN n = S754_finite false m e
    /\ Z.pos m = Z.of_N n * 2 ^ (- e)
    /\ -52 <= e <= 0
    /\ 2 ^ 52 <= Z.pos m < 2 ^ 53.
Proof.
  intros [Hpos Hlt]. destruct n as [|p]; [lia|].
  assert (Hp : Z.pos p < 2 ^ 53).
  { change (2 ^ 53) with (Z.of_N (2 ^ 53)). lia. }
  pose proof (digits2_bounds p) as [Hlo Hhi].
  set (d := Z.pos (digits2_pos p)) in *.
  assert (Hd : 1 <= d <= 53).
  { split; [unfold d; lia|].
    destruct (Z.le_gt_cases d 53) as [|Hgt]; [assumption|].
    assert (2 ^ 53 <= 2 ^ (d - 1)) by (apply Z.pow_le_mono_r; lia). lia. }
  unfold Number.ofN. cbn [Z.of_N binary_normalize]. unfold binary_round.
  fold d.
  replace (fexp Number.prec Number.emax (d + 0)) with (d - 53)
    by (unfold fexp, emin, Number.prec, Number.emax; lia).
  unfold shl_align.
  destruct (d - 53 - 0) as [|j|j] eqn:Hj; try lia.
  - exists p, 0. rewrite binary_round_aux_exact by (fold d; lia).
    split; [reflexivity|]. cbn [Z.of_N]. change (2 ^ (- 0)) with 1.
    assert (d = 53) by lia.
    assert (2 ^ 52 <= 2 ^ (d - 1)) by (apply Z.pow_le_mono_r; lia).
    lia.
  - destruct (iter_xO p j) as [Hval Hdig].
    exists (Pos.iter xO p j), (d - 53).
    rewrite binary_round_aux_exact by (rewrite ?Hdig; fold d; lia).
    split; [reflexivity|]. cbn [Z.of_N].
    replace (- (d - 53)) with (Z.pos j) by lia.
    split; [exact Hval|]. split; [lia|].
    rewrite Hval.
    replace (Z.pos j) with (53 - d) by lia.
    split.
    + replace 52 with ((d - 1) + (53 - d)) by lia.
      rewrite Z.pow_add_r by lia.
      apply Z.mul_le_mono_nonneg_r; [apply Z.pow_nonneg; lia|exact Hlo].
    + replace 53 with (d + (53 - d)) at 2 by lia.
      rewrite Z.pow_add_r by lia.
      apply Z.mul_lt_mono_pos_r; [apply Z.pow_pos_nonneg; lia|exact Hhi].
Qed.

Lemma digits2_of_range (m : positive) (j : Z) :
  2 ^ (j - 1) <= Z.pos m < 2 ^ j -> 1 <= j -> Z.pos (digits2_pos m) = j.
Proof.
  intros [Hlo Hhi] Hj. pose proof (digits2_bounds m) as [Hlo' Hhi'].
  set (d := Z.pos (digits2_pos m)) in *.
  assert (1 <= d) by (unfold d; lia).
  destruct (Z.lt_trichotomy d j) as [Hlt|[Heq|Hgt]]; [|exact Heq|].
  - assert (2 ^ d <= 2 ^ (j - 1)) by (apply Z.pow_le_mono_r; lia). lia.
  - assert (2 ^ j <= 2 ^ (d - 1)) by (apply Z.pow_le_mono_r; lia). lia.
Qed.

(** The quotient of a count by a count that is not smaller is at most 2
    (it is at most 1, in fact). *)
Lemma div_bound (c t : N) :
  (c <= t)%N -> (0 < t < 2 ^ 53)%N ->
  Number.div (Number.ofN c) (Number.ofN t) = S754_zero false
  \/ exists m e,
       Number.div (Number.ofN c) (Number.ofN t) = S754_finite false m e
       /\ Z.pos m <= 2 ^ (1 - e) /\ e <= 1.
Proof.
  intros Hle Ht.
  destruct (ofN_spec t Ht) as (m2 & e2 & -> & Hv2 & He2 & Hm2).
  destruct (N.eq_dec c 0) as [->|Hc].
  { left. reflexivity. }
  destruct (ofN_spec c) as (m1 & e1 & -> & Hv1 & He1 & Hm1); [lia|].
  unfold Number.div, SFdiv, SFdiv_core_binary. cbn [Zdigits2 xorb].
  rewrite (digits2_of_range m1 53), (digits2_of_range m2 53) by (assumption || lia).
  replace (Z.min (fexp Number.prec Number.emax (53 + e1 - (53 + e2))) (e1 - e2))
    with (e1 - e2 - 53)
    by (unfold fexp, emin, Number.prec, Number.emax; lia).
  replace (e1 - e2 - (e1 - e2 - 53)) with 53 by lia.
  cbv iota. rewrite Z.shiftl_mul_pow2 by lia.
  pose proof (Z.div_eucl_eq (Z.pos m1 * 2 ^ 53) (Z.pos m2)) as Heucl.
  pose proof (Z.mod_pos_bound (Z.pos m1 * 2 ^ 53) (Z.pos m2)) as Hmod.
  unfold Z.modulo in Hmod.
  destruct (Z.div_eucl (Z.pos m1 * 2 ^ 53) (Z.pos m2)) as [q r].
  specialize (Heucl ltac:(lia)). specialize (Hmod ltac:(lia)).
  apply (binary_round_aux_bound q (e1 - e2 - 53) _ 1); [|lia|lia].
  assert (Hq : 0 <= q) by nia.
  split; [exact Hq|].
  replace (1 - (e1 - e2 - 53)) with (54 + e2 - e1) by lia.
  assert (Hpow : Z.pos m2 * 2 ^ (54 + e2 - e1) = Z.of_N t * 2 ^ (54 - e1)).
  { rewrite Hv2, <- Z.mul_assoc, <- Z.pow_add_r by lia. f_equal. f_equal. lia. }
  assert (Hnum : Z.pos m1 * 2 ^ 53 = Z.of_N c * 2 ^ (53 - e1)).
  { rewrite Hv1, <- Z.mul_assoc, <- Z.pow_add_r by lia. f_equal. f_equal. lia. }
  assert (Hstep : 2 ^ (54 - e1) = 2 * 2 ^ (53 - e1)).
  { replace (54 - e1) with (Z.succ (53 - e1)) by lia. apply Z.pow_succ_r. lia. }
  assert (Hp : 0 < 2 ^ (53 - e1)) by (apply Z.pow_pos_nonneg; lia).
  assert (Hp2 : 0 < 2 ^ (54 + e2 - e1)) by (apply Z.pow_pos_nonneg; lia).
  assert (Hct : Z.of_N c <= Z.of_N t) by lia.
  assert (Hlt : q * Z.pos m2 < Z.pos m2 * 2 ^ (54 + e2 - e1)).
  { rewrite Hpow, Hstep.
    assert (q * Z.pos m2 <= Z.of_N c * 2 ^ (53 - e1)) by nia.
    assert (Z.of_N c * 2 ^ (53 - e1) <= Z.of_N t * 2 ^ (53 - e1))
      by (apply Z.mul_le_mono_nonneg_r; lia).
    nia. }
  nia.
Qed.

Lemma hundred : Number.ofN 100 = S754_finite false 7036874417766400 (-46).
Proof. vm_compute. reflexivity. Qed.

(** A percentage is zero or a finite Number that [toFixed] prints in
    decimal notation. *)
Lemma percentage_value (c t : N) :
  (c <= t)%N -> (0 < t < 2 ^ 53)%N ->
  let x := Number.mul (Number.div (Number.ofN c) (Number.ofN t)) (Number.ofN 100) in
  x = S754_zero false
  \/ exists m e, x = S754_finite false m e /\ Number.large m e = false.
Proof.
  intros Hle Ht x. unfold x. rewrite hundred.
  destruct (div_bound c t Hle Ht) as [->|(m & e & -> & Hm & He)].
  { left. reflexivity. }
  unfold Number.mul, SFmul. cbn [xorb].
  destruct (binary_round_aux_bound
              (Z.pos (m * 7036874417766400)) (e + -46) loc_Exact 8)
    as [Hz|(m' & e' & Hf & Hm' & He')]; [|lia|lia|left; exact Hz|].
  { split; [lia|]. rewrite Pos2Z.inj_mul.
    replace (8 - (e + -46)) with ((1 - e) + 53) by lia.
    rewrite Z.pow_add_r by lia.
    assert (0 < 2 ^ (1 - e)) by (apply Z.pow_pos_nonneg; lia).
    assert (7036874417766400 < 2 ^ 53) by reflexivity.
    nia. }
  right. exists m', e'. split; [exact Hf|].
  unfold Number.large. destruct (Z.leb_spec 0 e').
  - apply Z.leb_gt.
    assert (Z.pos m' * 2 ^ e' <= 2 ^ 8).
    { replace 8 with ((8 - e') + e') by lia. rewrite Z.pow_add_r by lia.
      apply Z.mul_le_mono_nonneg_r; [apply Z.pow_nonneg; lia|exact Hm']. }
    assert (2 ^ 8 < 10 ^ 21) by reflexivity. lia.
  - apply Z.leb_gt.
    replace (8 - e') with (8 + - e') in Hm' by lia.
    rewrite Z.pow_add_r in Hm' by lia.
    assert (0 < 2 ^ (- e')) by (apply Z.pow_pos_nonneg; lia).
    assert (2 ^ 8 < 10 ^ 21) by reflexivity. nia.
Qed.

End FloatFacts.
(* ------------------------------------------------------------------ *)
(** ** Rounding below a bound of the format *)

Module RangeFacts.
Import FloatFacts.
Local Open Scope Z_scope.

Lemma Zdigits2_upper (m : Z) : 0 <= m -> m < 2 ^ Zdigits2 m.
Proof.
  intros Hm. destruct m as [|p|p]; cbn [Zdigits2]; [reflexivity| |lia].
  apply digits2_bounds.
Qed.

(** A value below [B * 2^E], where [B] is a mantissa of the format,
    rounds to zero or to a finite number that is at most [B * 2^E]. *)
Lemma binary_round_aux_le (mx ex : Z) (lx : location) (B E : Z) :
  0 <= mx < B * 2 ^ (E - ex) -> ex <= E -> 0 < B < 2 ^ 53 ->
  -1074 <= E <= 971 ->
  binary_round_aux Number.prec Number.emax false mx ex lx = S754_zero false
  \/ exists m e,
       binary_round_aux Number.prec Number.emax false mx ex lx
       = S754_finite false m e
       /\ Z.pos m <= B * 2 ^ (E - e) /\ e <= E /\ Z.pos m < 2 ^ 53.
Proof.
  intros [Hmx Hlt] Hex HB HE. unfold binary_round_aux.
  pose proof (shr_fexp_spec mx ex lx Hmx) as H1. cbv zeta in H1.
  destruct (shr_fexp Number.prec Number.emax mx ex lx) as [mrs1 e1].
  cbn [fst snd] in H1. destruct H1 as (Hm1 & Hsame1 & Hshift1).
  assert (Hpow : forall a b, 0 <= a -> 0 <= b -> 2 ^ (a + b) = 2 ^ a * 2 ^ b)
    by (intros; apply Z.pow_add_r; assumption).
  assert (Hpos : forall a, 0 <= a -> 0 < 2 ^ a)
    by (intros; apply Z.pow_pos_nonneg; lia).
  assert (Hd : Zdigits2 mx <= 53 + (E - ex)).
  { apply Zdigits2_le; [|lia]. split; [exact Hmx|].
    rewrite Hpow by lia. pose proof (Hpos (E - ex) ltac:(lia)). nia. }
  assert (Hb1 : shr_m mrs1 < B * 2 ^ (E - e1) /\ e1 <= E).
  { rewrite fexp64_eq in Hsame1, Hshift1.
    destruct (Z.le_gt_cases (Z.max (Zdigits2 mx + ex - 53) (-1074) - ex) 0) as [Hn|Hn].
    - destruct (Hsame1 Hn) as [-> ->]. auto.
    - destruct (Hshift1 Hn) as [-> ->].
      set (n := Z.max (Zdigits2 mx + ex - 53) (-1074) - ex) in *.
      split; [|lia].
      apply Z.div_lt_upper_bound; [apply Hpos; lia|].
      replace (E - ex) with (n + (E - (ex + n))) in Hlt by lia.
      rewrite Hpow in Hlt by lia. lia. }
  destruct Hb1 as [Hb1 He1].
  set (m2 := round_nearest_even (shr_m mrs1) (loc_of_shr_record mrs1)).
  pose proof (round_nearest_even_bounds (shr_m mrs1) (loc_of_shr_record mrs1)) as Hr.
  fold m2 in Hr.
  assert (Hm2 : 0 <= m2 <= B * 2 ^ (E - e1)) by lia.
  pose proof (shr_fexp_spec m2 e1 loc_Exact (proj1 Hm2)) as H2. cbv zeta in H2.
  destruct (shr_fexp Number.prec Number.emax m2 e1 loc_Exact) as [mrs2 e2].
  cbn [fst snd] in H2. destruct H2 as (Hm3 & Hsame2 & Hshift2).
  assert (Hd2 : Zdigits2 m2 <= 53 + (E - e1)).
  { apply Zdigits2_le; [|lia]. split; [lia|].
    rewrite Hpow by lia. pose proof (Hpos (E - e1) ltac:(lia)). nia. }
  pose proof (Zdigits2_upper m2 (proj1 Hm2)) as Hup.
  assert (Hd2' : 0 <= Zdigits2 m2).
  { destruct m2 as [|p|p]; cbn [Zdigits2]; lia. }
  assert (Hb2 : shr_m mrs2 <= B * 2 ^ (E - e2) /\ e2 <= E /\ shr_m mrs2 < 2 ^ 53).
  { rewrite fexp64_eq in Hsame2, Hshift2.
    destruct (Z.le_gt_cases (Z.max (Zdigits2 m2 + e1 - 53) (-1074) - e1) 0) as [Hn|Hn].
    - destruct (Hsame2 Hn) as [-> ->]. split; [lia|]. split; [lia|].
      assert (2 ^ Zdigits2 m2 <= 2 ^ 53) by (apply Z.pow_le_mono_r; lia). lia.
    - destruct (Hshift2 Hn) as [-> ->].
      set (n := Z.max (Zdigits2 m2 + e1 - 53) (-1074) - e1) in *.
      split; [|split; [lia|]].
      + apply Z.div_le_upper_bound; [apply Hpos; lia|].
        destruct Hm2 as [_ Hm2].
        replace (E - e1) with (n + (E - (e1 + n))) in Hm2 by lia.
        rewrite Hpow in Hm2 by lia. lia.
      + apply Z.div_lt_upper_bound; [apply Hpos; lia|].
        rewrite <- Hpow by lia.
        assert (2 ^ Zdigits2 m2 <= 2 ^ (n + 53)) by (apply Z.pow_le_mono_r; lia).
        lia. }
  destruct Hb2 as (Hb2 & He2 & Hc2).
  destruct (shr_m mrs2) as [|m|m] eqn:Hm.
  - left. reflexivity.
  - right. exists m, e2.
    replace (e2 <=? Number.emax - Number.prec) with true
      by (symmetry; apply Z.leb_le; unfold Number.emax, Number.prec; lia).
    auto.
  - lia.
Qed.

(** The quotient of a positive count by itself is the Number 1. *)
Lemma div_same (t : N) :
  (0 < t < 2 ^ 53)%N ->
  Number.div (Number.ofN t) (Number.ofN t)
  = S754_finite false 4503599627370496 (-52).
Proof.
  intros Ht. destruct (ofN_spec t Ht) as (m & e & -> & Hv & He & Hm).
  unfold Number.div, SFdiv, SFdiv_core_binary. cbn [Zdigits2 xorb].
  replace (Z.pos (digits2_pos m) + e - (Z.pos (digits2_pos m) + e)) with 0 by lia.
  replace (Z.min (fexp Number.prec Number.emax 0) (e - e)) with (-53)
    by (unfold fexp, emin, Number.prec, Number.emax; lia).
  replace (e - e - -53) with 53 by lia.
  cbv iota. rewrite Z.shiftl_mul_pow2 by lia.
  pose proof (Z.div_eucl_eq (Z.pos m * 2 ^ 53) (Z.pos m)) as Heucl.
  pose proof (Z.mod_pos_bound (Z.pos m * 2 ^ 53) (Z.pos m)) as Hmod.
  unfold Z.modulo in Hmod.
  destruct (Z.div_eucl (Z.pos m * 2 ^ 53) (Z.pos m)) as [q r].
  specialize (Heucl ltac:(lia)). specialize (Hmod ltac:(lia)).
  assert (Hq : q = 2 ^ 53) by nia.
  assert (Hr : r = 0) by nia.
  subst q r. unfold new_location.
  destruct (Z.even (Z.pos m)); reflexivity.
Qed.

(** The quotient of a count by a count that is not smaller is at most 1. *)
Lemma div_le_one (c t : N) :
  (c <= t)%N -> (0 < t < 2 ^ 53)%N ->
  Number.div (Number.ofN c) (Number.ofN t) = S754_zero false
  \/ exists m e,
       Number.div (Number.ofN c) (Number.ofN t) = S754_finite false m e
       /\ Z.pos m <= 2 ^ 52 * 2 ^ (-52 - e) /\ e <= -52 /\ Z.pos m < 2 ^ 53.
Proof.
  intros Hle Ht.
  destruct (N.eq_dec c t) as [->|Hneq].
  { right. rewrite (div_same t Ht). eexists _, _. split; [reflexivity|].
    cbn. lia. }
  destruct (ofN_spec t Ht) as (m2 & e2 & -> & Hv2 & He2 & Hm2).
  destruct (N.eq_dec c 0) as [->|Hc].
  { left. reflexivity. }
  destruct (ofN_spec c) as (m1 & e1 & -> & Hv1 & He1 & Hm1); [lia|].
  assert (Hct : Z.of_N c < Z.of_N t) by lia.
  assert (Hp1 : 0 < 2 ^ (- e1)) by (apply Z.pow_pos_nonneg; lia).
  assert (Hp2 : 0 < 2 ^ (- e2)) by (apply Z.pow_pos_nonneg; lia).
  (* the two counts, scaled to the common exponent -52 *)
  assert (Hs1 : Z.pos m1 * 2 ^ (52 + e1) = Z.of_N c * 2 ^ 52).
  { rewrite Hv1, <- Z.mul_assoc, <- Z.pow_add_r by lia. f_equal. f_equal. lia. }
  assert (Hs2 : Z.pos m2 * 2 ^ (52 + e2) = Z.of_N t * 2 ^ 52).
  { rewrite Hv2, <- Z.mul_assoc, <- Z.pow_add_r by lia. f_equal. f_equal. lia. }
  assert (Hq1 : 0 < 2 ^ (52 + e1)) by (apply Z.pow_pos_nonneg; lia).
  assert (Hq2 : 0 < 2 ^ (52 + e2)) by (apply Z.pow_pos_nonneg; lia).
  assert (Hlt : Z.pos m1 * 2 ^ (52 + e1) < Z.pos m2 * 2 ^ (52 + e2)) by lia.
  assert (He : e1 <= e2).
  { destruct (Z.le_gt_cases e1 e2) as [|Hgt]; [assumption|exfalso].
    assert (2 ^ (52 + e2) * 2 <= 2 ^ (52 + e1)).
    { rewrite <- (Z.pow_1_r 2) at 2. rewrite <- Z.pow_add_r by lia.
      apply Z.pow_le_mono_r; lia. }
    nia. }
  unfold Number.div, SFdiv, SFdiv_core_binary. cbn [Zdigits2 xorb].
  rewrite (digits2_of_range m1 53), (digits2_of_range m2 53) by (assumption || lia).
  replace (Z.min (fexp Number.prec Number.emax (53 + e1 - (53 + e2))) (e1 - e2))
    with (e1 - e2 - 53)
    by (unfold fexp, emin, Number.prec, Number.emax; lia).
  replace (e1 - e2 - (e1 - e2 - 53)) with 53 by lia.
  cbv iota. rewrite Z.shiftl_mul_pow2 by lia.
  pose proof (Z.div_eucl_eq (Z.pos m1 * 2 ^ 53) (Z.pos m2)) as Heucl.
  pose proof (Z.mod_pos_bound (Z.pos m1 * 2 ^ 53) (Z.pos m2)) as Hmod.
  unfold Z.modulo in Hmod.
  destruct (Z.div_eucl (Z.pos m1 * 2 ^ 53) (Z.pos m2)) as [q r].
  specialize (Heucl ltac:(lia)). specialize (Hmod ltac:(lia)).
  apply (binary_round_aux_le q (e1 - e2 - 53) _ (2 ^ 52) (-52)); try lia.
  assert (Hq : 0 <= q) by nia.
  split; [exact Hq|].
  replace (-52 - (e1 - e2 - 53)) with (1 + (e2 - e1)) by lia.
  rewrite Z.pow_add_r by lia. change (2 ^ 1) with 2.
  assert (Hd : 0 < 2 ^ (e2 - e1)) by (apply Z.pow_pos_nonneg; lia).
  assert (Hrel : 2 ^ (52 + e2) = 2 ^ (52 + e1) * 2 ^ (e2 - e1)).
  { rewrite <- Z.pow_add_r by lia. f_equal. lia. }
  rewrite Hrel in Hlt.
  assert (Hm12 : Z.pos m1 < Z.pos m2 * 2 ^ (e2 - e1)) by nia.
  change (2 ^ 53) with (2 ^ 52 * 2) in Heucl.
  nia.
Qed.

(** A percentage is at most 100. *)
Lemma percentage_le_hundred (c t : N) :
  (c <= t)%N -> (0 < t < 2 ^ 53)%N ->
  let x := Number.mul (Number.div (Number.ofN c) (Number.ofN t)) (Number.ofN 100) in
  x = S754_zero false
  \/ exists m e, x = S754_finite false m e
                 /\ Z.pos m <= 7036874417766400 * 2 ^ (-46 - e) /\ e <= -46.
Proof.
  intros Hle Ht x. unfold x. rewrite hundred.
  destruct (div_le_one c t Hle Ht) as [->|(m & e & -> & Hm & He & Hc)].
  { left. reflexivity. }
  assert (Hp : 0 < 2 ^ (-52 - e)) by (apply Z.pow_pos_nonneg; lia).
  destruct (Z.eq_dec (Z.pos m) (2 ^ 52 * 2 ^ (-52 - e))) as [Heq|Hneq].
  - (* the quotient is 1 *)
    assert (He' : e = -52).
    { destruct (Z.eq_dec e (-52)) as [|Hne]; [assumption|exfalso].
      assert (2 ^ 1 <= 2 ^ (-52 - e)) by (apply Z.pow_le_mono_r; lia).
      change (2 ^ 1) with 2 in *. change (2 ^ 53) with (2 ^ 52 * 2) in Hc. nia. }
    subst e. change (2 ^ 52 * 2 ^ (-52 - -52)) with 4503599627370496 in Heq.
    injection Heq as ->. right. eexists _, _. split; [vm_compute; reflexivity|].
    cbn. lia.
  - unfold Number.mul, SFmul. cbn [xorb].
    destruct (binary_round_aux_le
                (Z.pos (m * 7036874417766400)) (e + -46) loc_Exact
                7036874417766400 (-46))
      as [Hz|(m' & e' & Hf & Hm' & He' & _)]; try lia.
    + split; [lia|]. rewrite Pos2Z.inj_mul.
      replace (-46 - (e + -46)) with (52 + (-52 - e)) by lia.
      rewrite Z.pow_add_r by lia.
      assert (Hstrict : Z.pos m < 2 ^ 52 * 2 ^ (-52 - e)) by lia.
      rewrite (Z.mul_comm (Z.pos m)).
      apply Z.mul_lt_mono_pos_l; [reflexivity|exact Hstrict].
    + left. exact Hz.
    + right. exists m', e'. auto.
Qed.

(** The tenths of a Number that is at most 100. *)
Lemma tenths_le_thousand (m : positive) (e : Z) :
  Z.pos m <= 7036874417766400 * 2 ^ (-46 - e) -> e <= -46 ->
  0 <= Number.tenths m e <= 1000.
Proof.
  intros Hm He. unfold Number.tenths.
  destruct (Z.leb_spec 0 e); [lia|].
  assert (Hp : 0 < 2 ^ (- e)) by (apply Z.pow_pos_nonneg; lia).
  assert (Hq : 0 < 2 ^ (-46 - e)) by (apply Z.pow_pos_nonneg; lia).
  assert (H1 : 2 ^ (1 - e) = 2 * 2 ^ (- e)).
  { replace (1 - e) with (Z.succ (- e)) by lia. apply Z.pow_succ_r. lia. }
  assert (H2 : 2 ^ (- e) = 2 ^ 46 * 2 ^ (-46 - e)).
  { rewrite <- Z.pow_add_r by lia. f_equal. lia. }
  rewrite H1. split.
  - apply Z.div_pos; lia.
  - apply Z.lt_succ_r, Z.div_lt_upper_bound; [lia|].
    rewrite H2 in *. change (2 ^ 46) with 70368744177664 in *. nia.
Qed.

End RangeFacts.

(* ------------------------------------------------------------------ *)
(** ** The statistics summary *)

Module NumberFacts.
Import Number.
Local Open Scope Z_scope.

(** [tenths] is the rounding to the nearest integer of ten times the
    value, half way cases going up. *)
Lemma tenths_nearest (m : positive) (e : Z) :
  (0 <= e -> tenths m e = 10 * Z.pos m * 2 ^ e)
  /\ (e < 0 ->
      - 2 ^ (- e) <= 20 * Z.pos m - 2 ^ (1 - e) * tenths m e < 2 ^ (- e)).
Proof.
  unfold tenths. split; intros He.
  - destruct (Z.leb_spec 0 e); [reflexivity|lia].
  - destruct (Z.leb_spec 0 e); [lia|].
    replace (1 - e) with (Z.succ (- e)) by lia.
    rewrite Z.pow_succ_r by lia.
    assert (Hd : 0 < 2 ^ (- e)) by (apply Z.pow_pos_nonneg; lia).
    pose proof (Z.div_mod (20 * Z.pos m + 2 ^ (- e)) (2 * 2 ^ (- e))) as Hdiv.
    pose proof (Z.mod_pos_bound (20 * Z.pos m + 2 ^ (- e)) (2 * 2 ^ (- e))) as Hmod.
    lia.
Qed.

Lemma toFixed1_finite (negative : bool) (m : positive) (e : Z) :
  large m e = false ->
  toFixed1 (S754_finite negative m e)
  = Decimal ((if negative then "-" else "")
             ++ digitsOf (tenths m e / 10) ++ "." ++ digitsOf (tenths m e mod 10))%string.
Proof. intros H. simpl. rewrite H. reflexivity. Qed.

End NumberFacts.

Module SummaryFacts.
Import JSObject JSObjectFacts.

Lemma dictionary_cons {V : Type} (k : string) (v : V) (r : JSObject.t V) :
  dictionary ((k, v) :: r) = true ->
  k <> "__proto__" /\ getOwn k r = None /\ dictionary r = true.
Proof.
  simpl. unfold hasOwn. intros H.
  apply andb_prop in H as [H Hr]. apply andb_prop in H as [Hp Hk].
  destruct (String.eqb_spec k "__proto__"); [discriminate|].
  destruct (getOwn k r); [discriminate|]. auto.
Qed.

Lemma generateStatsSummary_unfold (vs : JSObject.t Stats) :
  vocalistPercentages (generateStatsSummary vs)
  = fold_left (summaryStep (totalLines (generateStatsSummary vs))
                    (totalWords (generateStatsSummary vs))) vs [].
Proof. reflexivity. Qed.

Lemma fold_in (tl tw : N) (vs : JSObject.t Stats) :
  forall acc k r,
    In (k, r) (fold_left (summaryStep tl tw) vs acc) ->
    In (k, r) acc \/ exists st, In (k, st) vs /\ r = summaryEntry tl tw st.
Proof.
  induction vs as [|[k0 st0] rest IH]; simpl; intros acc k r Hin; [auto|].
  apply IH in Hin as [Hin|[st [Hst Hr]]].
  - apply in_set in Hin as [Heq|Hin]; [|auto].
    inversion Heq; subst. right. exists st0. auto.
  - right. exists st. auto.
Qed.

Lemma fold_getOwn (tl tw : N) (vs : JSObject.t Stats) :
  dictionary vs = true ->
  forall acc k,
    getOwn k (fold_left (summaryStep tl tw) vs acc)
    = match getOwn k vs with
      | Some st => Some (summaryEntry tl tw st)
      | None => getOwn k acc
      end.
Proof.
  induction vs as [|[k0 st0] rest IH]; intros Hd acc k; [reflexivity|].
  apply dictionary_cons in Hd as (Hp & Hfresh & Hd).
  simpl fold_left. rewrite (IH Hd). unfold summaryStep. simpl fst. simpl snd.
  rewrite getOwn_set. simpl getOwn.
  apply String.eqb_neq in Hp. rewrite Hp.
  destruct (String.eqb_spec k0 k).
  - subst. rewrite Hfresh. reflexivity.
  - reflexivity.
Qed.

Lemma sum_fold (f : Stats -> N) (l : list Stats) (acc : N) :
  fold_left (fun sum stats => (sum + f stats)%N) l acc
  = (acc + fold_right N.add 0%N (map f l))%N.
Proof.
  revert acc. induction l as [|x r IH]; intros acc; simpl.
  - lia.
  - rewrite IH. lia.
Qed.

Lemma percentage_cases (count total : N) :
  ((0 < total)%N ->
   percentage count total
   = PercentString
       (Number.toFixed1
          (Number.mul (Number.div (Number.ofN count) (Number.ofN total))
                      (Number.ofN 100))))
  /\ (total = 0%N -> percentage count total = PercentNumber 0).
Proof.
  unfold percentage. split; intros H.
  - apply N.ltb_lt in H. rewrite H. reflexivity.
  - subst. reflexivity.
Qed.

Lemma count_le_sum (field : Stats -> N) (k : string) (st : Stats)
  (vs : JSObject.t Stats) :
  In (k, st) vs -> (field st <= sumOf field vs)%N.
Proof.
  unfold sumOf, values. induction vs as [|[k0 st0] r IH]; simpl; [tauto|].
  intros [Heq|Hin].
  - inversion Heq; subst. lia.
  - specialize (IH Hin). lia.
Qed.

(** Within the safe range a percentage is the number 0 or a string with
    one decimal. *)
Lemma percentage_rounded (count total : N) :
  (count <= total)%N -> (total < 2 ^ 53)%N ->
  roundedPercentage count total (percentage count total).
Proof.
  intros Hle Hsafe. split.
  - apply percentage_cases.
  - intros Hpos. rewrite (proj1 (percentage_cases count total) Hpos).
    destruct (FloatFacts.percentage_value count total Hle (conj Hpos Hsafe))
      as [Hx|(m & e & Hx & Hlarge)]; cbv zeta in Hx; rewrite Hx.
    + exists 0%Z. split; reflexivity.
    + exists (Number.tenths m e). split.
      * rewrite (NumberFacts.toFixed1_finite false m e Hlarge). reflexivity.
      * apply (NumberFacts.tenths_nearest m e).
Qed.

End SummaryFacts.
(* ------------------------------------------------------------------ *)
(** ** The range of a percentage *)

Module PercentFacts.
Import FloatFacts RangeFacts NumberFacts SummaryFacts.

Lemma percentage_within (count total : N) :
  (count <= total)%N -> (total < 2 ^ 53)%N ->
  withinHundred (percentage count total).
Proof.
  intros Hle Hlt. unfold withinHundred, percentage.
  destruct (N.ltb_spec 0 total) as [Hpos|Hzero]; [right|left; reflexivity].
  pose proof (percentage_le_hundred count total Hle (conj Hpos Hlt)) as Hx.
  pose proof (percentage_value count total Hle (conj Hpos Hlt)) as Hy.
  cbv zeta in Hx, Hy.
  destruct Hx as [->|(m & e & Hx & Hm & He)].
  - exists 0%Z. split; [lia|reflexivity].
  - destruct Hy as [Hy|(m' & e' & Hy & Hlarge)]; [rewrite Hx in Hy; discriminate|].
    rewrite Hx in Hy. injection Hy as <- <-. rewrite Hx.
    exists (Number.tenths m e). split; [apply tenths_le_thousand; assumption|].
    rewrite (toFixed1_finite _ _ _ Hlarge). reflexivity.
Qed.

Lemma percentage_of_all (total : N) :
  (0 < total < 2 ^ 53)%N ->
  percentage total total = PercentString (Number.Decimal "100.0").
Proof.
  intros Ht. unfold percentage.
  replace (0 <? total)%N with true by (symmetry; apply N.ltb_lt; lia).
  rewrite (div_same total Ht). vm_compute. reflexivity.
Qed.

Lemma percentage_of_none (total : N) :
  (0 < total < 2 ^ 53)%N ->
  percentage 0 total = PercentString (Number.Decimal "0.0").
Proof.
  intros Ht. unfold percentage.
  replace (0 <? total)%N with true by (symmetry; apply N.ltb_lt; lia).
  destruct (ofN_spec total Ht) as (m & e & -> & _). reflexivity.
Qed.

End PercentFacts.


(* ------------------------------------------------------------------ *)
(** ** Every call returns *)

Module TotalityFacts.
Import JSString Patterns StringFacts JSObject JSObjectFacts.

Lemma forOf_returns {S X : Type} (body : S -> X -> Outcome S) (xs : list X) :
  (forall st x, exists st', body st x = Return st') ->
  forall st, exists st', forOf body xs st = Return st'.
Proof.
  intros Hbody. induction xs as [|x rest IH]; intros st; simpl.
  - eauto.
  - destruct (Hbody st x) as [st1 ->]. simpl. apply IH.
Qed.

(** What a match of a tag pattern is made of. *)
Lemma tagged_some (open close s : string) (n : nat) (g : string) :
  tagged open close s = Some (n, g) ->
  0 < String.length g
  /\ all (isNot "<") g = true
  /\ n = String.length open + String.length g + String.length close
  /\ s = (open ++ g ++ close ++ drop n s)%string.
Proof.
  unfold tagged. destruct (startsWith open s) eqn:Hopen; [|discriminate].
  set (r := drop (String.length open) s).
  destruct (0 <? run (isNot "<") r)%nat eqn:Hn; [|discriminate].
  destruct (startsWith close (drop (run (isNot "<") r) r)) eqn:Hclose;
    [|discriminate].
  simpl. intros H. injection H as <- <-.
  apply Nat.ltb_lt in Hn.
  assert (Hlen : String.length (take (run (isNot "<") r) r) = run (isNot "<") r).
  { rewrite length_take. pose proof (run_le (isNot "<") r). lia. }
  rewrite Hlen. split; [exact Hn|]. split; [apply all_take_run|]. split; [reflexivity|].
  apply startsWith_split in Hopen. apply startsWith_split in Hclose.
  rewrite Hopen at 1. fold r. f_equal.
  rewrite <- (take_drop (run (isNot "<") r) r) at 1. f_equal.
  rewrite Hclose at 1. f_equal.
  unfold r. rewrite !drop_drop. f_equal. lia.
Qed.

Lemma tagged_consuming (open close : string) : consuming (tagged open close).
Proof.
  intros s n g H. apply tagged_some in H as (Hg & _ & Hn & Hs).
  apply (f_equal String.length) in Hs. rewrite !length_append in Hs. lia.
Qed.

Lemma patterns_consuming : Forall (fun p => consuming (fst p)) patterns.
Proof.
  unfold patterns.
  repeat (apply Forall_cons; [apply tagged_consuming|]). apply Forall_nil.
Qed.

Lemma exec_some (regex : string -> option (nat * string)) (text : string)
  (lastIndex i n : nat) (g : string) :
  exec regex text lastIndex = Some (i, (n, g)) ->
  lastIndex <= i <= String.length text /\ regex (drop i text) = Some (n, g).
Proof.
  unfold exec. destruct (Nat.ltb_spec (String.length text) lastIndex); [discriminate|].
  intros Hs. apply searchFrom_some in Hs as (Hle & Hlen & Hm).
  rewrite length_drop in Hlen. rewrite drop_drop in Hm.
  replace (lastIndex + (i - lastIndex)) with i in Hm by lia.
  split; [lia|exact Hm].
Qed.

(** The loop of [exec] ends before its bound runs out, and records every
    match where it stands. *)
Lemma execLoop_returns (regex : string -> option (nat * string)) (fmt : Format)
  (text : string) :
  consuming regex ->
  forall fuel lastIndex allMatches,
    String.length text - lastIndex < fuel ->
    Forall (wellPlaced text) allMatches ->
    exists r, execLoop fuel regex fmt text lastIndex allMatches = Return r
              /\ Forall (wellPlaced text) r.
Proof.
  intros Hregex. induction fuel as [|fuel IH]; intros lastIndex allMatches Hfuel Hacc.
  - lia.
  - simpl. destruct (exec regex text lastIndex) as [[i [n g]]|] eqn:Hexec.
    + apply exec_some in Hexec as (Hi & Hm).
      pose proof (Hregex _ _ _ Hm) as Hn. rewrite length_drop in Hn.
      apply IH; [lia|].
      apply Forall_app. split; [exact Hacc|]. constructor; [|constructor].
      assert (Hlen : String.length (take n (drop i text)) = n).
      { rewrite length_take, length_drop. lia. }
      unfold wellPlaced. simpl. rewrite Hlen.
      split; [reflexivity|]. split; [lia|]. split; [lia|].
      rewrite <- (take_drop n (drop i text)) at 1. rewrite drop_drop.
      reflexivity.
    + eauto.
Qed.

Lemma collectMatches_returns (text : string) :
  exists r, collectMatches text = Return r /\ Forall (wellPlaced text) r.
Proof.
  unfold collectMatches.
  assert (H : forall ps acc,
             Forall (fun p => consuming (fst p)) ps ->
             Forall (wellPlaced text) acc ->
             exists r,
               forOf (fun allMatches p =>
                        execLoop (S (String.length text)) (fst p) (snd p) text 0
                                 allMatches) ps acc = Return r
               /\ Forall (wellPlaced text) r).
  { induction ps as [|p ps IH]; intros acc Hps Hacc; cbn [forOf].
    - eauto.
    - inversion Hps as [|? ? Hp Hps']; subst.
      destruct (execLoop_returns (fst p) (snd p) text Hp
                  (S (String.length text)) 0 acc) as (r & Hr & HF);
        [lia|exact Hacc|].
      rewrite Hr. cbn [bind]. apply IH; assumption. }
  apply H; [apply patterns_consuming|constructor].
Qed.

Lemma filteredMatches_returns (text : string) :
  exists kept, filteredMatches text = Return kept.
Proof.
  unfold filteredMatches.
  destruct (collectMatches_returns text) as (r & -> & _). simpl. eauto.
Qed.

Lemma extractTaggedVocalists_returns (text : string) :
  exists vocalists remainingText,
    extractTaggedVocalists text = Return (vocalists, remainingText).
Proof.
  unfold extractTaggedVocalists.
  destruct (filteredMatches_returns text) as (kept & ->). simpl.
  destruct (fold_left processMatch kept ([], text)). eauto.
Qed.

Lemma parseVocalists_returns (vocalistsPart : string) :
  exists vocalists, parseVocalists vocalistsPart = Return vocalists.
Proof.
  unfold parseVocalists.
  destruct (extractTaggedVocalists_returns vocalistsPart) as (v & r & ->).
  simpl. eauto.
Qed.

Lemma inherited_proto (k : string) : inherited k = false -> k <> "__proto__".
Proof. intros H ->. discriminate. Qed.

(** The statistics after one more line of [vocalist]. *)
Lemma record_returns (st : Vars.t) (trimmedLine vocalist : string)
  (tag openVocalist : option string) :
  exists stats,
    record st trimmedLine vocalist tag openVocalist
    = Return {| Vars.result :=
                  Vars.result st
                  ++ [ {| vocalist := vocalist; line := trimmedLine |} ];
                Vars.vocalistStats := stats;
                Vars.currentVocalists := Vars.currentVocalists st;
                Vars.openFormattingTag := tag;
                Vars.openTagVocalist := openVocalist |}
    /\ (forall k, k <> vocalist ->
                  getOwn k stats = getOwn k (Vars.vocalistStats st))
    /\ match get vocalist (Vars.vocalistStats st) with
       | Own s =>
           getOwn vocalist stats
           = Some {| lines := lines s + 1;
                     words := words s + wordCount trimmedLine |}
       | Inherited => stats = Vars.vocalistStats st
       | Undefined =>
           getOwn vocalist stats
           = Some {| lines := 0 + 1; words := 0 + wordCount trimmedLine |}
       end.
Proof.
  set (stats0 := Vars.vocalistStats st).
  assert (Hupdate : forall (s s1 : Stats) (o : t Stats),
             getOwn vocalist o = Some s ->
             get vocalist (update vocalist s1 o) = Own s1).
  { intros s s1 o Ho. unfold get.
    rewrite getOwn_update, String.eqb_refl, Ho. reflexivity. }
  assert (Hrun : forall (o : t Stats) (s : Stats),
             getOwn vocalist o = Some s ->
             exists stats,
               bind (addTo (fun s => {| lines := lines s + 1; words := words s |})
                           vocalist o)
                    (fun stats =>
                       bind (addTo (fun s => {| lines := lines s;
                                                words := words s + wordCount trimmedLine |})
                                   vocalist stats)
                            (fun stats =>
                               Return {| Vars.result :=
                                           Vars.result st
                                           ++ [ {| vocalist := vocalist;
                                                   line := trimmedLine |} ];
                                         Vars.vocalistStats := stats;
                                         Vars.currentVocalists := Vars.currentVocalists st;
                                         Vars.openFormattingTag := tag;
                                         Vars.openTagVocalist := openVocalist |}))
               = Return {| Vars.result :=
                             Vars.result st
                             ++ [ {| vocalist := vocalist;
                                     line := trimmedLine |} ];
                           Vars.vocalistStats := stats;
                           Vars.currentVocalists := Vars.currentVocalists st;
                           Vars.openFormattingTag := tag;
                           Vars.openTagVocalist := openVocalist |}
               /\ (forall k, k <> vocalist -> getOwn k stats = getOwn k o)
               /\ getOwn vocalist stats
                  = Some {| lines := lines s + 1;
                            words := words s + wordCount trimmedLine |}).
  { intros o s Ho. unfold addTo at 1. unfold get at 1. rewrite Ho. cbn [bind].
    unfold addTo. rewrite (Hupdate s _ o Ho). cbn [bind].
    eexists. split; [reflexivity|]. split.
    - intros k Hk. rewrite !getOwn_update.
      apply not_eq_sym in Hk. apply String.eqb_neq in Hk. rewrite Hk. reflexivity.
    - rewrite !getOwn_update, String.eqb_refl, Ho. reflexivity. }
  unfold record, ensureStats. fold stats0.
  destruct (getOwn vocalist stats0) as [s|] eqn:Hown.
  - assert (Hget : get vocalist stats0 = Own s)
      by (unfold get; rewrite Hown; reflexivity).
    rewrite Hget. apply Hrun. exact Hown.
  - destruct (inherited vocalist) eqn:Hinh.
    + assert (Hget : get vocalist stats0 = Inherited)
        by (unfold get; rewrite Hown, Hinh; reflexivity).
      rewrite Hget. unfold addTo. rewrite Hget. cbn [bind]. rewrite Hget.
      cbn [bind]. eexists. split; [reflexivity|]. split; reflexivity.
    + assert (Hget : get vocalist stats0 = Undefined)
        by (unfold get; rewrite Hown, Hinh; reflexivity).
      rewrite Hget.
      pose proof (inherited_proto _ Hinh) as Hproto.
      apply String.eqb_neq in Hproto.
      assert (Hset : forall (v : Stats) k,
                 getOwn k (set vocalist v stats0)
                 = if String.eqb vocalist k then Some v else getOwn k stats0).
      { intros v k. rewrite getOwn_set, Hproto. reflexivity. }
      destruct (Hrun (set vocalist {| lines := 0; words := 0 |} stats0)
                     {| lines := 0; words := 0 |}) as (stats & Heq & Hother & Hv).
      { rewrite Hset, String.eqb_refl. reflexivity. }
      exists stats. split; [exact Heq|]. split; [|exact Hv].
      intros k Hk. rewrite (Hother k Hk), Hset.
      apply not_eq_sym in Hk. apply String.eqb_neq in Hk. rewrite Hk. reflexivity.
Qed.

Lemma lyricLine_returns (st : Vars.t) (trimmedLine : string) :
  exists st', lyricLine st trimmedLine = Return st'.
Proof.
  unfold lyricLine.
  destruct (0 <? List.length (keys (Vars.currentVocalists st)))%nat; [|eauto].
  destruct (openSpan st) as [[tag openVocalist]|].
  - destruct (includes _ trimmedLine);
      edestruct record_returns as (stats & -> & _); eauto.
  - destruct (firstMatch openTag trimmedLine), (firstMatch closeTag trimmedLine);
      edestruct record_returns as (stats & -> & _); eauto.
Qed.

Lemma headerLine_returns (st : Vars.t) (sectionContent : string) :
  exists st', headerLine st sectionContent = Return st'.
Proof.
  unfold headerLine. destruct (indexOf ":" sectionContent); [|eauto].
  destruct (parseVocalists_returns
              (trim (substringFrom (n + 1) sectionContent))) as (v & ->).
  simpl. eauto.
Qed.

Lemma processLine_returns (st : Vars.t) (line : string) :
  exists st', processLine st line = Return st'.
Proof.
  unfold processLine. destruct (negb (nonEmpty (trim line))); [eauto|].
  destruct (sectionHeader (trim line)).
  - apply headerLine_returns.
  - apply lyricLine_returns.
Qed.

End TotalityFacts.

(* ------------------------------------------------------------------ *)
(** ** The steps of the line loop *)

Module LineFacts.
Import JSString Patterns StringFacts JSObject JSObjectFacts TotalityFacts.

(** The lines the header pattern accepts. *)
Lemma sectionHeader_spec (t c : string) :
  sectionHeader t = Some c
  <-> t = ("[" ++ c ++ "]")%string /\ nonEmpty c = true /\ all (isNot "]") c = true.
Proof.
  split.
  - destruct t as [|x r]; [discriminate|]. simpl.
    destruct (Ascii.eqb_spec x "["%char) as [->|Hx].
    2:{ intros H. exfalso. revert H.
        destruct x as [[] [] [] [] [] [] [] []]; try discriminate.
        congruence. }
    destruct (0 <? run (isNot "]") r)%nat eqn:Hn; [|discriminate].
    destruct (String.eqb_spec (drop (run (isNot "]") r) r) "]") as [Hd|];
      [|discriminate].
    simpl. intros H. injection H as <-.
    apply Nat.ltb_lt in Hn. split; [|split].
    + rewrite <- Hd, take_drop. reflexivity.
    + apply nonEmpty_length. rewrite length_take.
      pose proof (run_le (isNot "]") r). lia.
    + apply all_take_run.
  - intros (-> & Hne & Hall). simpl.
    rewrite (run_append (isNot "]") c "]" "" Hall eq_refl).
    apply nonEmpty_length in Hne. apply Nat.ltb_lt in Hne. rewrite Hne.
    rewrite drop_append, take_append. reflexivity.
Qed.

Lemma includes_cons (p : string) (c : ascii) (r : string) :
  includes p (String c r) = startsWith p (String c r) || includes p r.
Proof. reflexivity. Qed.

Lemma searchFrom_openTag_bold (t : string) :
  includes "<b>" t = true -> includes "<i>" t = false ->
  forall p, option_map snd (searchFrom openTag p t) = Some "b".
Proof.
  induction t as [|c r IH]; intros Hb Hi p; [discriminate|].
  rewrite includes_cons in Hb, Hi.
  apply orb_false_elim in Hi as [Hi Hir].
  cbn [searchFrom]. unfold openTag at 1. rewrite Hi.
  destruct (startsWith "<b>" (String c r)); [reflexivity|].
  apply IH; assumption.
Qed.

Lemma searchFrom_closeTag_none (t : string) :
  includes "</i>" t = false -> includes "</b>" t = false ->
  forall p, searchFrom closeTag p t = None.
Proof.
  induction t as [|c r IH]; intros Hi Hb p; [reflexivity|].
  rewrite includes_cons in Hb, Hi.
  apply orb_false_elim in Hi as [Hi Hir].
  apply orb_false_elim in Hb as [Hb Hbr].
  cbn [searchFrom]. unfold closeTag at 1. rewrite Hi, Hb.
  apply IH; assumption.
Qed.

(** With one vocalist in the map every line is that vocalist's. *)
Lemma determineVocalist_single (line name : string) (f : Format) :
  determineVocalist line [(name, f)] = name.
Proof.
  unfold determineVocalist, entries.
  set (b0 := startsWithText line).
  set (b1 := startsWith "<b><i>" line || startsWith "<i><b>" line).
  set (b2 := startsWith "<b>" line).
  set (b3 := startsWith "<i>" line).
  clearbody b0 b1 b2 b3.
  destruct f, b0, b1, b2, b3; reflexivity.
Qed.

Lemma processLine_lyric (st : Vars.t) (line : string) :
  isLyric line = true -> processLine st line = lyricLine st (trim line).
Proof.
  unfold isLyric, processLine. intros H. apply andb_prop in H as [Hne Hh].
  rewrite Hne. simpl. destruct (sectionHeader (trim line)); [discriminate|reflexivity].
Qed.

(** A lyric line while a span is open. *)
Lemma lyricLine_open (st : Vars.t) (tag openVocalist trimmedLine : string) :
  openSpan st = Some (tag, openVocalist) ->
  (0 < List.length (keys (Vars.currentVocalists st)))%nat ->
  exists stats,
    lyricLine st trimmedLine
    = Return {| Vars.result :=
                  Vars.result st
                  ++ [ {| vocalist := openVocalist; line := trimmedLine |} ];
                Vars.vocalistStats := stats;
                Vars.currentVocalists := Vars.currentVocalists st;
                Vars.openFormattingTag :=
                  if includes ("</" ++ tag ++ ">") trimmedLine then None
                  else Vars.openFormattingTag st;
                Vars.openTagVocalist :=
                  if includes ("</" ++ tag ++ ">") trimmedLine then None
                  else Vars.openTagVocalist st |}
    /\ (forall k, k <> openVocalist ->
                  getOwn k stats = getOwn k (Vars.vocalistStats st))
    /\ match get openVocalist (Vars.vocalistStats st) with
       | Own s =>
           getOwn openVocalist stats
           = Some {| lines := lines s + 1;
                     words := words s + wordCount trimmedLine |}
       | Inherited => stats = Vars.vocalistStats st
       | Undefined =>
           getOwn openVocalist stats
           = Some {| lines := 0 + 1; words := 0 + wordCount trimmedLine |}
       end.
Proof.
  intros Hopen Hmap. unfold lyricLine.
  apply Nat.ltb_lt in Hmap. rewrite Hmap, Hopen.
  destruct (includes ("</" ++ tag ++ ">") trimmedLine); apply record_returns.
Qed.

(** A lyric line while no span is open. *)
Lemma lyricLine_closed (st : Vars.t) (trimmedLine : string) :
  openSpan st = None ->
  (0 < List.length (keys (Vars.currentVocalists st)))%nat ->
  let vocalist := determineVocalist trimmedLine (Vars.currentVocalists st) in
  let opens :=
    match firstMatch openTag trimmedLine, firstMatch closeTag trimmedLine with
    | Some group1, None => Some group1
    | _, _ => None
    end in
  exists stats,
    lyricLine st trimmedLine
    = Return {| Vars.result :=
                  Vars.result st
                  ++ [ {| vocalist := vocalist; line := trimmedLine |} ];
                Vars.vocalistStats := stats;
                Vars.currentVocalists := Vars.currentVocalists st;
                Vars.openFormattingTag :=
                  match opens with
                  | Some group1 => Some group1
                  | None => Vars.openFormattingTag st
                  end;
                Vars.openTagVocalist :=
                  match opens with
                  | Some _ => Some vocalist
                  | None => Vars.openTagVocalist st
                  end |}
    /\ (forall k, k <> vocalist ->
                  getOwn k stats = getOwn k (Vars.vocalistStats st))
    /\ match get vocalist (Vars.vocalistStats st) with
       | Own s =>
           getOwn vocalist stats
           = Some {| lines := lines s + 1;
                     words := words s + wordCount trimmedLine |}
       | Inherited => stats = Vars.vocalistStats st
       | Undefined =>
           getOwn vocalist stats
           = Some {| lines := 0 + 1; words := 0 + wordCount trimmedLine |}
       end.
Proof.
  intros Hopen Hmap vocalist opens. unfold lyricLine.
  apply Nat.ltb_lt in Hmap. rewrite Hmap, Hopen. fold vocalist. unfold opens.
  destruct (firstMatch openTag trimmedLine), (firstMatch closeTag trimmedLine);
    apply record_returns.
Qed.

End LineFacts.

(* ------------------------------------------------------------------ *)
(** ** Trimming and the removal of tags *)

Module WordFacts.
Import JSString Patterns StringFacts.

Lemma all_append (p : ascii -> bool) (a b : string) :
  all p (a ++ b) = all p a && all p b.
Proof.
  induction a as [|c r IH]; simpl; [reflexivity|].
  rewrite IH, andb_assoc. reflexivity.
Qed.

Lemma trimStart_cons (c : ascii) (r : string) :
  trimStart (String c r) = if isWhiteSpace c then trimStart r else String c r.
Proof. unfold trimStart. simpl. destruct (isWhiteSpace c); reflexivity. Qed.

Lemma trimStart_spaces (a s : string) :
  all isWhiteSpace a = true -> trimStart (a ++ s) = trimStart s.
Proof.
  induction a as [|c r IH]; simpl; intros H; [reflexivity|].
  apply andb_prop in H as [Hc Hr].
  rewrite trimStart_cons, Hc. apply IH. exact Hr.
Qed.

Lemma trimEnd_spaces_only (b : string) :
  all isWhiteSpace b = true -> trimEnd b = "".
Proof.
  induction b as [|c r IH]; simpl; intros H; [reflexivity|].
  apply andb_prop in H as [Hc Hr]. rewrite (IH Hr), Hc. reflexivity.
Qed.

Lemma trimEnd_spaces (s b : string) :
  all isWhiteSpace b = true -> trimEnd (s ++ b) = trimEnd s.
Proof.
  intros Hb. induction s as [|c r IH]; simpl.
  - apply trimEnd_spaces_only. exact Hb.
  - rewrite IH. reflexivity.
Qed.

Lemma trim_spaces_after (s b : string) :
  all isWhiteSpace b = true -> trim (s ++ b) = trim s.
Proof.
  intros Hb. unfold trim. induction s as [|c r IH].
  - simpl append. unfold trimStart.
    rewrite (run_all _ _ Hb), drop_all by lia. reflexivity.
  - simpl append. rewrite !trimStart_cons.
    destruct (isWhiteSpace c); [exact IH|].
    apply (trimEnd_spaces (String c r) b Hb).
Qed.

(** White space around a text does not change its trimmed form. *)
Lemma trim_spaces_around (a s b : string) :
  all isWhiteSpace a = true -> all isWhiteSpace b = true ->
  trim (a ++ s ++ b) = trim s.
Proof.
  intros Ha Hb. unfold trim. rewrite (trimStart_spaces a _ Ha).
  apply (trim_spaces_after s b Hb).
Qed.

Lemma trimEnd_split (s : string) :
  exists b, all isWhiteSpace b = true /\ s = (trimEnd s ++ b)%string.
Proof.
  induction s as [|c r (b & Hb & Hr)]; simpl.
  - exists "". auto.
  - destruct (trimEnd r) as [|d r'] eqn:Ht.
    + destruct (isWhiteSpace c) eqn:Hc.
      * exists (String c r). simpl in Hr. subst b. simpl. rewrite Hc, Hb.
        split; reflexivity.
      * exists b. simpl in Hr. subst r. split; [exact Hb|reflexivity].
    + exists b. split; [exact Hb|]. simpl. simpl in Hr. rewrite <- Hr. reflexivity.
Qed.

(** A text is its trimmed form between two runs of white space. *)
Lemma trim_split (s : string) :
  exists a b,
    all isWhiteSpace a = true /\ all isWhiteSpace b = true
    /\ s = (a ++ trim s ++ b)%string.
Proof.
  destruct (trimEnd_split (trimStart s)) as (b & Hb & Hs).
  exists (take (run isWhiteSpace s) s), b.
  split; [apply all_take_run|]. split; [exact Hb|].
  unfold trim. rewrite <- Hs. unfold trimStart. rewrite take_drop. reflexivity.
Qed.

Lemma trimEnd_kept (s u : string) :
  trimEnd u = u -> nonEmpty u = true -> trimEnd (s ++ u) = (s ++ u)%string.
Proof.
  intros Hu Hne. induction s as [|c r IH]; simpl; [exact Hu|].
  rewrite IH. destruct (r ++ u)%string eqn:Hru; [|reflexivity].
  destruct r; simpl in Hru; [subst u|]; discriminate.
Qed.

Lemma strip_spaces (a s : string) :
  all isWhiteSpace a = true -> strip 0 (a ++ s) = (a ++ strip 0 s)%string.
Proof.
  induction a as [|c r IH]; intros H; [reflexivity|].
  simpl in H. apply andb_prop in H as [Hc Hr].
  unfold strip in *. simpl append. cbn [replaceAllFrom].
  assert (Hany : forall t, anyTag (String c t) = None).
  { intros t. unfold anyTag.
    destruct c as [[] [] [] [] [] [] [] []]; try reflexivity; discriminate. }
  rewrite Hany. rewrite (IH Hr). reflexivity.
Qed.

Lemma strip_spaces_only (b : string) :
  all isWhiteSpace b = true -> strip 0 b = b.
Proof.
  intros Hb. pose proof (strip_spaces b "" Hb) as H.
  rewrite append_nil_r in H. rewrite H. apply append_nil_r.
Qed.

Lemma all_spaces_no_gt (b : string) :
  all isWhiteSpace b = true -> all (isNot ">") b = true.
Proof.
  induction b as [|c r IH]; simpl; intros H; [reflexivity|].
  apply andb_prop in H as [Hc Hr]. rewrite (IH Hr), andb_true_r.
  destruct c as [[] [] [] [] [] [] [] []]; try reflexivity; discriminate.
Qed.

(** Where a [>] occurs in [r], the class [[^>]*] stops in [r]. *)
Lemma run_before_gt (r u : string) :
  all (isNot ">") r = false ->
  run (isNot ">") (r ++ u) = run (isNot ">") r
  /\ run (isNot ">") r < String.length r
  /\ startsWith ">" (drop (run (isNot ">") r) (r ++ u)) = true
  /\ startsWith ">" (drop (run (isNot ">") r) r) = true.
Proof.
  induction r as [|c r IH]; simpl; intros H; [discriminate|].
  destruct (isNot ">" c) eqn:Hc; simpl in H.
  - destruct (IH H) as (H1 & H2 & H3 & H4). simpl. rewrite H1. auto with arith.
  - unfold isNot in Hc. apply negb_false_iff in Hc.
    apply Ascii.eqb_eq in Hc. subst c. simpl.
    repeat split; auto with arith.
Qed.

Lemma anyTag_closed (c : ascii) (r u : string) :
  (isNot "<" c || negb (all (isNot ">") r)) = true ->
  anyTag (String c (r ++ u)) = anyTag (String c r)
  /\ match anyTag (String c r) with
     | Some n => n <= S (String.length r)
     | None => True
     end.
Proof.
  intros H. unfold anyTag.
  destruct (Ascii.eqb_spec c "<"%char) as [->|Hc].
  - simpl in H. apply negb_true_iff in H.
    destruct (run_before_gt r u H) as (H1 & H2 & H3 & H4).
    rewrite H1, H3, H4. split; [reflexivity|lia].
  - assert (Hnone : forall t,
               match c with
               | "<"%char =>
                   if startsWith ">" (drop (run (isNot ">") t) t)
                   then Some (run (isNot ">") t + 2) else None
               | _ => None
               end = None).
    { intros t. destruct c as [[] [] [] [] [] [] [] []]; try reflexivity.
      congruence. }
    rewrite !Hnone. auto.
Qed.

(** Behind a text whose tags are all closed, the removal goes on as if it
    started there. *)
Lemma strip_closed (t u : string) :
  tagsClosed t = true ->
  forall skip, skip <= String.length t ->
    strip skip (t ++ u) = (strip skip t ++ strip 0 u)%string.
Proof.
  unfold strip. induction t as [|c r IH]; intros Hclosed skip Hskip.
  - simpl in Hskip. replace skip with 0 by lia. reflexivity.
  - simpl in Hclosed. apply andb_prop in Hclosed as [Hc Hr].
    change (String c r ++ u)%string with (String c (r ++ u)).
    cbn [replaceAllFrom].
    destruct skip as [|k].
    + destruct (anyTag_closed c r u Hc) as [-> Hn].
      destruct (anyTag (String c r)) as [[|n]|]; cbn [append].
      * rewrite (IH Hr) by lia. reflexivity.
      * apply (IH Hr). lia.
      * rewrite (IH Hr) by lia. reflexivity.
    + apply (IH Hr). simpl in Hskip. lia.
Qed.

Lemma tagsClosed_tail (a s : string) : tagsClosed (a ++ s) = true -> tagsClosed s = true.
Proof.
  induction a as [|c r IH]; simpl; intros H; [exact H|].
  apply andb_prop in H as [_ H]. auto.
Qed.

Lemma tagsClosed_before_spaces (s b : string) :
  all isWhiteSpace b = true -> tagsClosed (s ++ b) = true -> tagsClosed s = true.
Proof.
  intros Hb. induction s as [|c r IH]; simpl; intros H; [reflexivity|].
  apply andb_prop in H as [Hc Hr]. rewrite (IH Hr), andb_true_r.
  rewrite all_append, (all_spaces_no_gt b Hb), andb_true_r in Hc. exact Hc.
Qed.

(** The text that is counted, for a wrapped line and for the bare one. *)
Lemma cleanText_wrapped (tag text : string) :
  tag = "b" \/ tag = "i" ->
  tagsClosed text = true ->
  cleanText (trim (wrapped tag text)) = cleanText (trim text).
Proof.
  intros Htag Hclosed.
  destruct (trim_split text) as (a & b & Ha & Hb & Htext).
  assert (Hinner : tagsClosed (trim text) = true).
  { rewrite Htext in Hclosed. apply tagsClosed_tail in Hclosed.
    apply (tagsClosed_before_spaces _ b Hb Hclosed). }
  assert (Htrim : trim (wrapped tag text) = wrapped tag text).
  { unfold trim.
    destruct Htag as [-> | ->].
    - change (wrapped "b" text) with (String "<" (("b>" ++ text) ++ "</b>")).
      rewrite trimStart_cons. change (isWhiteSpace "<") with false. cbv iota.
      exact (trimEnd_kept ("<b>" ++ text) "</b>" eq_refl eq_refl).
    - change (wrapped "i" text) with (String "<" (("i>" ++ text) ++ "</i>")).
      rewrite trimStart_cons. change (isWhiteSpace "<") with false. cbv iota.
      exact (trimEnd_kept ("<i>" ++ text) "</i>" eq_refl eq_refl). }
  rewrite Htrim.
  change (trim (strip 0 (wrapped tag text)) = trim (strip 0 (trim text))).
  assert (Hwrapped : strip 0 (wrapped tag text) = strip 0 text).
  { destruct Htag as [-> | ->].
    - transitivity (strip 0 (text ++ "</b>")); [reflexivity|].
      rewrite (strip_closed text _ Hclosed 0) by lia. apply append_nil_r.
    - transitivity (strip 0 (text ++ "</i>")); [reflexivity|].
      rewrite (strip_closed text _ Hclosed 0) by lia. apply append_nil_r. }
  rewrite Hwrapped. rewrite Htext at 1.
  rewrite (strip_spaces a _ Ha).
  rewrite (strip_closed (trim text) b Hinner 0) by lia.
  rewrite (strip_spaces_only b Hb).
  apply trim_spaces_around; assumption.
Qed.

End WordFacts.

(* ------------------------------------------------------------------ *)
(** ** The kept matches and their removal from the working text *)

Module ExtractFacts.
Import JSString Patterns StringFacts TotalityFacts.
Local Open Scope nat_scope.

Lemma insertByStart_sorted (m : TagMatch) (l : list TagMatch) :
  forall lo, lo <= start m -> sortedFrom lo l -> sortedFrom lo (insertByStart m l).
Proof.
  induction l as [|x r IH]; intros lo Hlo Hl; simpl.
  - auto.
  - destruct Hl as [Hx Hr]. destruct (Nat.leb_spec (start m) (start x)); simpl.
    + auto.
    + split; [exact Hx|]. apply IH; [lia|exact Hr].
Qed.

Lemma sortByStart_sorted (l : list TagMatch) : sortedFrom 0 (sortByStart l).
Proof.
  induction l as [|m r IH]; simpl; [exact I|].
  apply insertByStart_sorted; [lia|exact IH].
Qed.

Lemma insertByStart_forall (P : TagMatch -> Prop) (m : TagMatch) (l : list TagMatch) :
  P m -> Forall P l -> Forall P (insertByStart m l).
Proof.
  intros Hm. induction l as [|x r IH]; intros Hl; simpl.
  - auto.
  - inversion Hl; subst. destruct (start m <=? start x); auto.
Qed.

Lemma sortByStart_forall (P : TagMatch -> Prop) (l : list TagMatch) :
  Forall P l -> Forall P (sortByStart l).
Proof.
  induction 1; simpl; [constructor|]. apply insertByStart_forall; assumption.
Qed.

Lemma removeOverlaps_unfold (l : list TagMatch) :
  removeOverlaps l = fold_left keepUnlessOverlap l [].
Proof. reflexivity. Qed.

Lemma keep_forall (P : TagMatch -> Prop) (l : list TagMatch) :
  forall acc, Forall P l -> Forall P acc -> Forall P (fold_left keepUnlessOverlap l acc).
Proof.
  induction l as [|m r IH]; intros acc Hl Hacc; simpl; [exact Hacc|].
  inversion Hl; subst. apply IH; [assumption|].
  unfold keepUnlessOverlap. destruct (existsb (overlaps m) acc); [exact Hacc|].
  apply Forall_app. auto.
Qed.

Lemma chain_snoc (m : TagMatch) (acc : list TagMatch) :
  forall e, e <= start m -> chain e acc ->
            (forall x, In x acc -> stop x <= start m) ->
            chain e (acc ++ [m]).
Proof.
  induction acc as [|x r IH]; intros e He Hc Hall; simpl.
  - auto.
  - destruct Hc as [Hx Hr]. split; [exact Hx|].
    apply IH; [apply Hall; left; reflexivity|exact Hr|].
    intros y Hy. apply Hall. right. exact Hy.
Qed.

(** Of matches sorted by their starts, the loop keeps a chain. *)
Lemma keep_chain (l : list TagMatch) :
  forall lo acc,
    sortedFrom lo l -> chain 0 acc ->
    (forall x, In x acc -> start x <= lo) ->
    chain 0 (fold_left keepUnlessOverlap l acc).
Proof.
  induction l as [|m r IH]; intros lo acc Hl Hc Hacc; simpl; [exact Hc|].
  destruct Hl as [Hm Hr]. apply (IH (start m)); [exact Hr| |].
  - unfold keepUnlessOverlap.
    destruct (existsb (overlaps m) acc) eqn:Hov; [exact Hc|].
    apply chain_snoc; [lia|exact Hc|].
    intros x Hx.
    assert (Hno : overlaps m x = false).
    { destruct (overlaps m x) eqn:Hmx; [|reflexivity].
      assert (existsb (overlaps m) acc = true)
        by (apply existsb_exists; eauto).
      congruence. }
    unfold overlaps in Hno. apply orb_false_elim in Hno as [Hno _].
    pose proof (Hacc x Hx).
    destruct (Nat.leb_spec (start x) (start m)); [|lia].
    destruct (Nat.ltb_spec (start m) (stop x)); [discriminate|lia].
  - unfold keepUnlessOverlap. intros x Hx.
    destruct (existsb (overlaps m) acc).
    + pose proof (Hacc x Hx). lia.
    + apply in_app_or in Hx as [Hx|[<-|[]]]; [|lia].
      pose proof (Hacc x Hx). lia.
Qed.

(** The matches kept for [text]: a chain of matches, each where it stands. *)
Lemma filteredMatches_chain (text : string) :
  exists kept,
    filteredMatches text = Return kept
    /\ chain 0 kept /\ Forall (wellPlaced text) kept.
Proof.
  unfold filteredMatches.
  destruct (collectMatches_returns text) as (allMatches & -> & Hall).
  cbn [bind]. eexists. split; [reflexivity|].
  rewrite removeOverlaps_unfold. split.
  - apply (keep_chain _ 0); [apply sortByStart_sorted|exact I|].
    intros x [].
  - apply keep_forall; [|constructor]. apply sortByStart_forall. exact Hall.
Qed.

Lemma drop_append_le (n : nat) (a b : string) :
  n <= String.length a -> drop n (a ++ b) = (drop n a ++ b)%string.
Proof.
  revert a. induction n as [|n IH]; intros a Hn; [reflexivity|].
  destruct a as [|c r]; simpl in *; [lia|]. apply IH. lia.
Qed.

Lemma replaceFirst_here (p repl s : string) :
  startsWith p s = true ->
  replaceFirst p repl s = (repl ++ drop (String.length p) s)%string.
Proof. intros H. destruct s; simpl; rewrite H; reflexivity. Qed.

Lemma replaceFirst_later (p repl : string) (c : ascii) (r : string) :
  startsWith p (String c r) = false ->
  replaceFirst p repl (String c r) = String c (replaceFirst p repl r).
Proof. intros H. simpl replaceFirst. rewrite H. reflexivity. Qed.

(** The first occurrence of [p] is the one replaced; what follows any
    occurrence survives behind it. *)
Lemma replaceFirst_occurrence (p repl : string) (a0 b0 : string) :
  exists a b c,
    (a0 ++ p ++ b0 = a ++ p ++ b)%string
    /\ replaceFirst p repl (a0 ++ p ++ b0) = (a ++ repl ++ b)%string
    /\ b = (c ++ b0)%string.
Proof.
  induction a0 as [|x a0 IH].
  - exists "", b0, "". split; [reflexivity|]. split; [|reflexivity].
    cbn [append]. rewrite replaceFirst_here by apply startsWith_append.
    rewrite drop_append. reflexivity.
  - destruct IH as (a & b & c & Heq & Hrep & Hb).
    change (String x a0 ++ p ++ b0)%string with (String x (a0 ++ p ++ b0)).
    set (w := String x (a0 ++ p ++ b0)).
    destruct (startsWith p w) eqn:Hs.
    + exists "", (drop (String.length p) w),
        (take (S (String.length a0)) (drop (String.length p) w)).
      split; [apply startsWith_split; exact Hs|].
      split; [apply replaceFirst_here; exact Hs|].
      rewrite <- (take_drop (S (String.length a0)) (drop (String.length p) w)) at 1.
      f_equal. rewrite drop_drop.
      replace (String.length p + S (String.length a0))
        with (String.length (String x a0) + String.length p) by (simpl; lia).
      rewrite <- drop_drop. unfold w.
      change (String x (a0 ++ p ++ b0))%string with (String x a0 ++ (p ++ b0))%string.
      rewrite drop_append, drop_append. reflexivity.
    + exists (String x a), b, c. unfold w in *.
      rewrite (replaceFirst_later _ _ _ _ Hs), Hrep, Heq.
      split; [reflexivity|]. split; [reflexivity|exact Hb].
Qed.

Lemma tailKept_later (text : string) (e e' : nat) (w : string) :
  e <= e' -> tailKept text e w -> tailKept text e' w.
Proof.
  intros He [x ->]. exists (x ++ take (e' - e) (drop e text))%string.
  rewrite append_assoc. f_equal.
  rewrite <- (take_drop (e' - e) (drop e text)) at 1. f_equal.
  rewrite drop_drop. f_equal. lia.
Qed.

(** The replacement made for a match that the working text still holds. *)
Lemma replace_placed (text : string) (m : TagMatch) (e : nat) (w : string) :
  wellPlaced text m -> e <= start m -> tailKept text e w ->
  exists a b,
    w = (a ++ fullMatch m ++ b)%string
    /\ replaceFirst (fullMatch m) placeholder w = (a ++ placeholder ++ b)%string
    /\ tailKept text (stop m) (a ++ placeholder ++ b).
Proof.
  intros (Hstop & Hlen & Hpos & Hdrop) He Hw.
  apply (tailKept_later text e (start m) w He) in Hw as [x ->].
  rewrite Hdrop.
  destruct (replaceFirst_occurrence (fullMatch m) placeholder x
              (drop (stop m) text)) as (a & b & c & Heq & Hrep & Hb).
  exists a, b. split; [exact Heq|]. split; [exact Hrep|].
  exists (a ++ placeholder ++ c)%string. rewrite Hb, !append_assoc. reflexivity.
Qed.

Lemma processMatch_named (acc : list VocalistSpec * string) (m : TagMatch) :
  nonEmpty (taggedName m) = true ->
  processMatch acc m
  = (fst acc ++ [ {| name := processVocalistName (taggedName m);
                    format := tagFormat m |} ],
     replaceFirst (fullMatch m) placeholder (snd acc)).
Proof. intros H. unfold processMatch. destruct acc. rewrite H. reflexivity. Qed.

Lemma processMatch_unnamed (acc : list VocalistSpec * string) (m : TagMatch) :
  nonEmpty (taggedName m) = false -> processMatch acc m = acc.
Proof. intros H. unfold processMatch. destruct acc. rewrite H. reflexivity. Qed.

(** Before a match of the chain is processed, the working text still ends
    with the part of [text] that starts where the match does. *)
Lemma processed_tail (text : string) (pre : list TagMatch) :
  forall e acc m post,
    chain e (pre ++ m :: post) ->
    Forall (wellPlaced text) (pre ++ m :: post) ->
    tailKept text e (snd acc) ->
    tailKept text (start m) (snd (fold_left processMatch pre acc)).
Proof.
  induction pre as [|p pre IH]; intros e acc m post Hc Hall Hw; simpl.
  - destruct Hc as [He _]. apply (tailKept_later text e); assumption.
  - destruct Hc as [He Hc]. inversion Hall as [|? ? Hp Hall']; subst.
    apply (IH (stop p) _ m post); [exact Hc|exact Hall'|].
    destruct (nonEmpty (taggedName p)) eqn:Hname.
    + rewrite (processMatch_named _ _ Hname). simpl.
      destruct (replace_placed text p e (snd acc) Hp He Hw) as (a & b & _ & -> & Ht).
      exact Ht.
    + rewrite (processMatch_unnamed _ _ Hname).
      destruct Hp as (Hstop & _). apply (tailKept_later text e); [lia|exact Hw].
Qed.

End ExtractFacts.

(* ------------------------------------------------------------------ *)
(** ** The statistics and the attributed lines *)

Module StatsFacts.
Import JSString Patterns JSObject JSObjectFacts TotalityFacts LineFacts.

Lemma linesOf_snoc (k : string) (result : list ParsedLine) (l : ParsedLine) :
  linesOf k (result ++ [l])
  = if vocalist l =? k then (linesOf k result + 1)%N else linesOf k result.
Proof.
  unfold linesOf. induction result as [|x r IH]; simpl.
  - destruct (vocalist l =? k); reflexivity.
  - rewrite IH. destruct (vocalist x =? k), (vocalist l =? k); reflexivity.
Qed.

Lemma wordsOf_snoc (k : string) (result : list ParsedLine) (l : ParsedLine) :
  wordsOf k (result ++ [l])
  = if vocalist l =? k then (wordsOf k result + wordCount (line l))%N
    else wordsOf k result.
Proof.
  unfold wordsOf. induction result as [|x r IH]; simpl.
  - destruct (vocalist l =? k); reflexivity.
  - rewrite IH. destruct (vocalist x =? k), (vocalist l =? k); try reflexivity.
    lia.
Qed.

Lemma wordsOf_none (k : string) (result : list ParsedLine) :
  linesOf k result = 0%N -> wordsOf k result = 0%N.
Proof.
  unfold linesOf, wordsOf. induction result as [|x r IH]; simpl; [reflexivity|].
  destruct (vocalist x =? k); [lia|exact IH].
Qed.

Lemma record_consistent (st : Vars.t) (trimmedLine v : string)
  (tag openVocalist : option string) :
  consistent st ->
  exists st',
    record st trimmedLine v tag openVocalist = Return st' /\ consistent st'.
Proof.
  intros Hst.
  destruct (record_returns st trimmedLine v tag openVocalist)
    as (stats & Hrun & Hother & Hv).
  eexists. split; [exact Hrun|].
  intros k. cbn [Vars.vocalistStats Vars.result].
  unfold statisticsOf. rewrite linesOf_snoc, wordsOf_snoc. cbn [vocalist line].
  destruct (String.eqb_spec v k) as [<-|Hk].
  - pose proof (Hst v) as Hinv. unfold statisticsOf in Hinv.
    unfold get in Hv. rewrite Hinv in Hv.
    destruct ((0 <? linesOf v (Vars.result st))%N) eqn:Hpos;
      destruct (inherited v) eqn:Hinh; cbn [andb negb] in Hv, Hinv |- *.
    + subst stats. rewrite Hinv, andb_false_r. reflexivity.
    + rewrite Hv. cbn [lines words].
      replace (0 <? linesOf v (Vars.result st) + 1)%N with true
        by (symmetry; apply N.ltb_lt; lia).
      reflexivity.
    + subst stats. rewrite Hinv, andb_false_r. reflexivity.
    + rewrite Hv. apply N.ltb_ge in Hpos.
      assert (Hzero : linesOf v (Vars.result st) = 0%N) by lia.
      rewrite (wordsOf_none _ _ Hzero), Hzero. reflexivity.
  - rewrite (Hother k) by congruence. apply Hst.
Qed.

Lemma processLine_consistent (st : Vars.t) (l : string) :
  consistent st -> exists st', processLine st l = Return st' /\ consistent st'.
Proof.
  intros Hst. unfold processLine.
  destruct (negb (nonEmpty (trim l))); [eauto|].
  destruct (sectionHeader (trim l)) as [sectionContent|].
  - unfold headerLine. destruct (indexOf ":" sectionContent) as [colonIndex|].
    + destruct (parseVocalists_returns
                  (trim (substringFrom (colonIndex + 1) sectionContent)))
        as (vocalists & ->).
      cbn [bind]. eexists. split; [reflexivity|exact Hst].
    + eexists. split; [reflexivity|exact Hst].
  - unfold lyricLine.
    destruct (0 <? List.length (keys (Vars.currentVocalists st)))%nat; [|eauto].
    destruct (openSpan st) as [[tag openVocalist]|].
    + destruct (includes _ (trim l)); apply record_consistent; exact Hst.
    + destruct (firstMatch openTag (trim l)), (firstMatch closeTag (trim l));
        apply record_consistent; exact Hst.
Qed.

Lemma forOf_consistent (ls : list string) :
  forall st, consistent st ->
             exists st', forOf processLine ls st = Return st' /\ consistent st'.
Proof.
  induction ls as [|l rest IH]; intros st Hst; cbn [forOf].
  - eauto.
  - destruct (processLine_consistent st l Hst) as (st1 & -> & Hst1).
    cbn [bind]. apply IH. exact Hst1.
Qed.

Lemma linesOf_positive (k : string) (result : list ParsedLine) :
  (0 < linesOf k result)%N <-> exists l, In l result /\ vocalist l = k.
Proof.
  unfold linesOf. induction result as [|x r IH]; simpl.
  - split; [lia|intros (l & [] & _)].
  - destruct (String.eqb_spec (vocalist x) k) as [Hx|Hx].
    + split; [intros _; exists x; auto|intros _; lia].
    + rewrite IH. split.
      * intros (l & Hl & Hk). exists l. auto.
      * intros (l & [<-|Hl] & Hk); [contradiction|]. exists l. auto.
Qed.

(** The statistics of a parse are those of its attributed lines, except
    for the names that are inherited properties, which get none. *)
Lemma statistics_of_parse (lyricsText : string) :
  exists r,
    parseLyricsWithVocalists lyricsText = Return r
    /\ forall k, getOwn k (vocalistStats r) = statisticsOf k (parsedLyrics r).
Proof.
  unfold parseLyricsWithVocalists.
  destruct (forOf_consistent (splitBy (literal newline) lyricsText) initial)
    as (st & -> & Hst).
  - intros k. reflexivity.
  - cbn [bind]. eexists. split; [reflexivity|]. exact Hst.
Qed.

End StatsFacts.

(* ------------------------------------------------------------------ *)
(** ** The key [__proto__] names no vocalist *)

Module ProtoFacts.
Import JSString Patterns JSObject JSObjectFacts TotalityFacts LineFacts.

Lemma assign_without_proto (vs : list VocalistSpec) :
  forall o : JSObject.t Format,
    ~ In "__proto__" (keys o) -> ~ In "__proto__" (keys (fold_left assign vs o)).
Proof.
  induction vs as [|v vs IH]; intros o Ho; simpl; [exact Ho|].
  apply IH. unfold assign. rewrite in_keys_set. intros [H|[H1 H2]]; auto.
Qed.

Lemma parseVocalists_without_proto (vocalistsPart : string) (v : JSObject.t Format) :
  parseVocalists vocalistsPart = Return v -> ~ In "__proto__" (keys v).
Proof.
  unfold parseVocalists.
  destruct (extractTaggedVocalists vocalistsPart) as [[tagged rest]| |];
    try discriminate.
  cbn [bind fst snd]. intros H. injection H as <-.
  apply assign_without_proto, assign_without_proto. intros [].
Qed.

Lemma findFormat_in (f : Format) (vocalists : JSObject.t Format) (e : string * Format) :
  findFormat f vocalists = Some e -> In (fst e) (keys vocalists).
Proof.
  unfold findFormat. intros H. apply find_some in H as [H _].
  apply (in_map fst). exact H.
Qed.

Lemma defaultVocalist_in (vocalists : JSObject.t Format) :
  vocalists <> [] -> In (defaultVocalist vocalists) (keys vocalists).
Proof.
  intros Hne. unfold defaultVocalist.
  destruct (findFormat Plain vocalists) as [e|] eqn:He.
  - apply (findFormat_in _ _ _ He).
  - destruct vocalists as [|first r]; [contradiction|]. left. reflexivity.
Qed.

(** The vocalist of a line is one of the active map. *)
Lemma determineVocalist_in (line : string) (vocalists : JSObject.t Format) :
  vocalists <> [] -> In (determineVocalist line vocalists) (keys vocalists).
Proof.
  intros Hne. unfold determineVocalist, entries.
  destruct (startsWithText line); [apply defaultVocalist_in; exact Hne|].
  destruct (startsWith "<b><i>" line || startsWith "<i><b>" line).
  - destruct (findFormat BoldItalic vocalists) as [e|] eqn:He;
      [apply (findFormat_in _ _ _ He)|].
    destruct (startsWith "<b>" line).
    + destruct (findFormat Bold vocalists) as [e|] eqn:Hb;
        [apply (findFormat_in _ _ _ Hb)|].
      destruct (startsWith "<i>" line);
        [destruct (findFormat Italic vocalists) as [e|] eqn:Hi;
         [apply (findFormat_in _ _ _ Hi)|]|];
        apply defaultVocalist_in; exact Hne.
    + destruct (startsWith "<i>" line);
        [destruct (findFormat Italic vocalists) as [e|] eqn:Hi;
         [apply (findFormat_in _ _ _ Hi)|]|];
        apply defaultVocalist_in; exact Hne.
  - destruct (startsWith "<b>" line).
    + destruct (findFormat Bold vocalists) as [e|] eqn:Hb;
        [apply (findFormat_in _ _ _ Hb)|].
      destruct (startsWith "<i>" line);
        [destruct (findFormat Italic vocalists) as [e|] eqn:Hi;
         [apply (findFormat_in _ _ _ Hi)|]|];
        apply defaultVocalist_in; exact Hne.
    + destruct (startsWith "<i>" line);
        [destruct (findFormat Italic vocalists) as [e|] eqn:Hi;
         [apply (findFormat_in _ _ _ Hi)|]|];
        apply defaultVocalist_in; exact Hne.
Qed.

Lemma record_protoFree (st : Vars.t) (trimmedLine v : string)
  (tag openVocalist : option string) :
  protoFree st -> v <> "__proto__" -> openVocalist <> Some "__proto__" ->
  exists st',
    record st trimmedLine v tag openVocalist = Return st' /\ protoFree st'.
Proof.
  intros (Hmap & Hopen & Hres) Hv Ho.
  destruct (record_returns st trimmedLine v tag openVocalist) as (stats & -> & _).
  eexists. split; [reflexivity|]. split; [exact Hmap|]. split; [exact Ho|].
  cbn [Vars.result]. intros l Hl. apply in_app_or in Hl as [Hl|[<-|[]]]; auto.
Qed.

Lemma processLine_protoFree (st : Vars.t) (l : string) :
  protoFree st -> exists st', processLine st l = Return st' /\ protoFree st'.
Proof.
  intros Hst. pose proof Hst as (Hmap & Hopen & Hres). unfold processLine.
  destruct (negb (nonEmpty (trim l))); [eauto|].
  destruct (sectionHeader (trim l)) as [sectionContent|].
  - unfold headerLine. destruct (indexOf ":" sectionContent) as [colonIndex|].
    + destruct (parseVocalists_returns
                  (trim (substringFrom (colonIndex + 1) sectionContent)))
        as (vocalists & Hparse).
      rewrite Hparse. cbn [bind]. eexists. split; [reflexivity|].
      split; [exact (parseVocalists_without_proto _ _ Hparse)|].
      split; [discriminate|exact Hres].
    + eexists. split; [reflexivity|].
      split; [exact Hmap|]. split; [discriminate|exact Hres].
  - unfold lyricLine.
    destruct (0 <? List.length (keys (Vars.currentVocalists st)))%nat eqn:Hkeys;
      [|eauto].
    assert (Hne : Vars.currentVocalists st <> []).
    { intros Heq. rewrite Heq in Hkeys. discriminate. }
    assert (Hdet : determineVocalist (trim l) (Vars.currentVocalists st)
                   <> "__proto__").
    { intros Heq. apply Hmap. rewrite <- Heq. apply determineVocalist_in, Hne. }
    unfold openSpan.
    destruct (Vars.openFormattingTag st) as [tag|] eqn:Htag;
      destruct (Vars.openTagVocalist st) as [openVocalist|] eqn:Hvoc.
    + assert (openVocalist <> "__proto__") by congruence.
      destruct (truthy (Some tag) && truthy (Some openVocalist)).
      * destruct (includes _ (trim l)); apply record_protoFree;
          try assumption; congruence.
      * destruct (firstMatch openTag (trim l)), (firstMatch closeTag (trim l));
          apply record_protoFree; try assumption; congruence.
    + destruct (firstMatch openTag (trim l)), (firstMatch closeTag (trim l));
        apply record_protoFree; try assumption; congruence.
    + assert (openVocalist <> "__proto__") by congruence.
      destruct (firstMatch openTag (trim l)), (firstMatch closeTag (trim l));
        apply record_protoFree; try assumption; congruence.
    + destruct (firstMatch openTag (trim l)), (firstMatch closeTag (trim l));
        apply record_protoFree; try assumption; congruence.
Qed.

(** No line is attributed to ["__proto__"]: the assignments that would
    reach [Object.prototype] itself are never made. *)
Lemma proto_is_no_vocalist (lyricsText : string) :
  exists r,
    parseLyricsWithVocalists lyricsText = Return r
    /\ forall l, In l (parsedLyrics r) -> vocalist l <> "__proto__".
Proof.
  unfold parseLyricsWithVocalists.
  assert (H : forall ls st, protoFree st ->
                exists st', forOf processLine ls st = Return st' /\ protoFree st').
  { induction ls as [|l rest IH]; intros st Hst; cbn [forOf]; [eauto|].
    destruct (processLine_protoFree st l Hst) as (st1 & -> & Hst1).
    cbn [bind]. apply IH. exact Hst1. }
  destruct (H (splitBy (literal newline) lyricsText) initial) as (st & -> & Hst).
  - split; [intros []|]. split; [discriminate|intros l []].
  - cbn [bind]. eexists. split; [reflexivity|]. apply Hst.
Qed.

End ProtoFacts.
(* ------------------------------------------------------------------ *)
(** ** The scanning loops and the characters they keep *)

Module ScanFacts.
Import JSString Patterns StringFacts WordFacts.

Lemma all_drop (p : ascii -> bool) (s : string) :
  forall n, all p s = true -> all p (drop n s) = true.
Proof.
  induction s as [|c r IH]; intros [|n] H; simpl in *; auto.
  apply andb_prop in H as [_ H]. auto.
Qed.

Lemma all_take (p : ascii -> bool) (s : string) :
  forall n, all p s = true -> all p (take n s) = true.
Proof.
  induction s as [|c r IH]; intros [|n] H; simpl in *; auto.
  apply andb_prop in H as [Hc H]. rewrite Hc. simpl. auto.
Qed.

Lemma all_trimEnd (p : ascii -> bool) (s : string) :
  all p s = true -> all p (trimEnd s) = true.
Proof.
  intros H. destruct (trimEnd_split s) as (b & _ & Hs).
  rewrite Hs, all_append in H. apply andb_prop in H as [H _]. exact H.
Qed.

Lemma all_trim (p : ascii -> bool) (s : string) :
  all p s = true -> all p (trim s) = true.
Proof.
  intros H. unfold trim, trimStart. apply all_trimEnd, all_drop, H.
Qed.

Lemma all_and (p q : ascii -> bool) (s : string) :
  all (fun c => p c && q c) s = all p s && all q s.
Proof.
  induction s as [|c r IH]; simpl; [reflexivity|]. rewrite IH.
  destruct (p c), (q c), (all p r), (all q r); reflexivity.
Qed.

(** A replacement keeps what holds of every code unit of the subject and
    of the replacement. *)
Lemma replaceAllFrom_keeps (p : ascii -> bool) (m : Matcher) (repl : string) :
  all p repl = true ->
  forall s skip, all p s = true -> all p (replaceAllFrom m repl skip s) = true.
Proof.
  intros Hrepl. induction s as [|c r IH]; intros skip H; simpl; [reflexivity|].
  simpl in H. apply andb_prop in H as [Hc Hr].
  destruct skip as [|k]; [|auto].
  destruct (m (String c r)) as [[|k]|]; simpl.
  - rewrite Hc. simpl. auto.
  - rewrite all_append, Hrepl. simpl. auto.
  - rewrite Hc. simpl. auto.
Qed.

(** A replacement removes the code units at which the pattern always
    matches. *)
Lemma replaceAllFrom_removes (p : ascii -> bool) (m : Matcher) (repl : string) :
  all p repl = true ->
  (forall c r, p c = false -> exists k, m (String c r) = Some (S k)) ->
  forall s skip, all p (replaceAllFrom m repl skip s) = true.
Proof.
  intros Hrepl Hm. induction s as [|c r IH]; intros skip; simpl; [reflexivity|].
  destruct skip as [|k]; [|auto].
  destruct (p c) eqn:Hc.
  - destruct (m (String c r)) as [[|k]|]; simpl.
    + rewrite Hc. simpl. auto.
    + rewrite all_append, Hrepl. simpl. auto.
    + rewrite Hc. simpl. auto.
  - destruct (Hm c r Hc) as [k ->]. rewrite all_append, Hrepl. simpl. auto.
Qed.

Lemma splitFrom_keeps (p : ascii -> bool) (m : Matcher) :
  forall s skip,
    all p s = true -> Forall (fun piece => all p piece = true) (splitFrom m skip s).
Proof.
  induction s as [|c r IH]; intros skip H; simpl.
  - constructor; [reflexivity|constructor].
  - simpl in H. apply andb_prop in H as [Hc Hr].
    destruct skip as [|k]; [|auto].
    assert (Hkeep : Forall (fun piece => all p piece = true)
                      match splitFrom m 0 r with
                      | piece :: pieces => String c piece :: pieces
                      | [] => [String c ""]
                      end).
    { specialize (IH 0 Hr). destruct (splitFrom m 0 r) as [|piece pieces].
      - constructor; [simpl; rewrite Hc; reflexivity|constructor].
      - inversion IH; subst. constructor; [simpl; rewrite Hc; simpl; assumption|assumption]. }
    destruct (m (String c r)) as [[|k]|]; auto.
Qed.

(** Skipping the rest of a match is dropping it. *)
Lemma replaceAllFrom_skip (m : Matcher) (repl : string) :
  forall s k, replaceAllFrom m repl k s = replaceAllFrom m repl 0 (drop k s).
Proof.
  induction s as [|c r IH]; intros [|k]; simpl; auto.
Qed.

(** A literal pattern at the head of the subject. *)
Lemma replaceAll_literal_here (p repl b : string) :
  nonEmpty p = true ->
  replaceAll (literal p) repl (p ++ b) = (repl ++ replaceAll (literal p) repl b)%string.
Proof.
  destruct p as [|c p']; [discriminate|]. intros _. unfold replaceAll.
  assert (Hs : startsWith (String c p') (String c (p' ++ b)) = true)
    by apply (startsWith_append (String c p') b).
  change ((String c p' ++ b)%string) with (String c (p' ++ b)).
  cbn [replaceAllFrom]. unfold literal at 1. rewrite Hs. cbn [String.length].
  rewrite replaceAllFrom_skip, drop_append. reflexivity.
Qed.

(** Where the pattern matches nowhere, nothing is replaced. *)
Lemma replaceAll_nowhere (m : Matcher) (repl : string) (s : string) :
  (forall k, m (drop k s) = None) -> replaceAll m repl s = s.
Proof.
  unfold replaceAll. induction s as [|c r IH]; intros H; simpl; [reflexivity|].
  pose proof (H 0) as H0. cbn [drop] in H0. rewrite H0.
  f_equal. apply IH. intros k. apply (H (S k)).
Qed.

Lemma replaceAllFrom_nonEmpty (m : Matcher) (repl : string) (s : string) :
  nonEmpty repl = true -> nonEmpty s = true ->
  nonEmpty (replaceAll m repl s) = true.
Proof.
  intros Hrepl Hs. destruct s as [|c r]; [discriminate|].
  unfold replaceAll. simpl.
  destruct (m (String c r)) as [[|k]|]; try reflexivity.
  destruct repl; [discriminate|reflexivity].
Qed.

(** *** [trim] *)

Lemma trimEnd_idempotent (s : string) : trimEnd (trimEnd s) = trimEnd s.
Proof.
  induction s as [|c r IH]; simpl; [reflexivity|].
  destruct (trimEnd r) as [|d r'] eqn:Hr.
  - destruct (isWhiteSpace c) eqn:Hc; simpl; [reflexivity|]. rewrite Hc. reflexivity.
  - simpl in IH. simpl. rewrite IH. reflexivity.
Qed.

Lemma trimEnd_head (s : string) (d : ascii) (r' : string) :
  trimEnd s = String d r' -> exists r, s = String d r.
Proof.
  destruct s as [|c r]; simpl; [discriminate|].
  destruct (trimEnd r); [destruct (isWhiteSpace c)|]; intros H;
    try discriminate; injection H as <- _; eauto.
Qed.

Lemma trimStart_fixed (s : string) :
  match s with
  | "" => True
  | String c _ => isWhiteSpace c = false
  end ->
  trimStart s = s.
Proof.
  destruct s as [|c r]; [reflexivity|]. intros H. rewrite trimStart_cons, H.
  reflexivity.
Qed.

Lemma trim_head (s : string) :
  match trim s with
  | "" => True
  | String c _ => isWhiteSpace c = false
  end.
Proof.
  unfold trim. destruct (trimEnd (trimStart s)) as [|d r'] eqn:H; [exact I|].
  apply trimEnd_head in H as [r H]. unfold trimStart in H.
  pose proof (run_stops isWhiteSpace s) as Hstop. rewrite H in Hstop. exact Hstop.
Qed.

Lemma trim_idempotent (s : string) : trim (trim s) = trim s.
Proof.
  unfold trim at 1. rewrite (trimStart_fixed _ (trim_head s)).
  unfold trim. apply trimEnd_idempotent.
Qed.

(** *** Runs of white space collapsed to one space *)

Lemma singleSpaced_drop (s : string) :
  forall n, singleSpaced s = true -> singleSpaced (drop n s) = true.
Proof.
  induction s as [|c r IH]; intros [|n] H; simpl in *; auto.
  apply andb_prop in H as [_ H]. auto.
Qed.

Lemma singleSpaced_trimEnd (s : string) :
  singleSpaced s = true -> singleSpaced (trimEnd s) = true.
Proof.
  induction s as [|c r IH]; intros H; [reflexivity|].
  cbn [singleSpaced] in H. apply andb_prop in H as [Hc Hr].
  cbn [trimEnd]. destruct (trimEnd r) as [|d r'] eqn:Hend.
  - destruct (isWhiteSpace c) eqn:Hws; [reflexivity|].
    cbn [singleSpaced]. rewrite Hws. reflexivity.
  - destruct (trimEnd_head _ _ _ Hend) as [r0 ->].
    specialize (IH Hr). cbn [singleSpaced] in *. rewrite IH, Hc. reflexivity.
Qed.

Lemma singleSpaced_trim (s : string) :
  singleSpaced s = true -> singleSpaced (trim s) = true.
Proof.
  intros H. unfold trim, trimStart. apply singleSpaced_trimEnd, singleSpaced_drop, H.
Qed.

Lemma collapse_text (c : ascii) (r : string) :
  isWhiteSpace c = false ->
  replaceAll whiteSpaces " " (String c r) = String c (replaceAll whiteSpaces " " r).
Proof.
  intros Hc. unfold replaceAll. cbn [replaceAllFrom].
  unfold whiteSpaces at 1. cbn [run]. rewrite Hc. reflexivity.
Qed.

Lemma collapse_space (c : ascii) (r : string) :
  isWhiteSpace c = true ->
  replaceAll whiteSpaces " " (String c r)
  = String " " (replaceAll whiteSpaces " " (drop (run isWhiteSpace r) r)).
Proof.
  intros Hc. unfold replaceAll. cbn [replaceAllFrom].
  unfold whiteSpaces at 1. cbn [run]. rewrite Hc. cbn [Nat.ltb Nat.leb].
  rewrite replaceAllFrom_skip. reflexivity.
Qed.

Lemma collapse_suffixes (s : string) :
  forall k, singleSpaced (replaceAll whiteSpaces " " (drop k s)) = true.
Proof.
  induction s as [|c r IH]; intros k.
  - rewrite drop_nil. reflexivity.
  - destruct k as [|k]; [|apply IH]. cbn [drop].
    destruct (isWhiteSpace c) eqn:Hc.
    + rewrite (collapse_space _ _ Hc). cbn [singleSpaced].
      rewrite (IH (run isWhiteSpace r)), andb_true_r.
      pose proof (run_stops isWhiteSpace r) as Hstop.
      destruct (drop (run isWhiteSpace r) r) as [|d u]; [reflexivity|].
      rewrite (collapse_text _ _ Hstop), Hstop. reflexivity.
    + rewrite (collapse_text _ _ Hc). cbn [singleSpaced].
      pose proof (IH 0) as IH0. cbn [drop] in IH0. rewrite Hc, IH0. reflexivity.
Qed.

Lemma collapse_singleSpaced (s : string) :
  singleSpaced (replaceAll whiteSpaces " " s) = true.
Proof. apply (collapse_suffixes s 0). Qed.

End ScanFacts.

(* ------------------------------------------------------------------ *)
(** ** The names of the untagged vocalists *)

Module NameFacts.
Import JSString Patterns StringFacts WordFacts ScanFacts.

Lemma spaced_at (x : ascii) (r : string) :
  isWhiteSpace x = false ->
  exists k, spaced (String x "") (String x r) = Some (S k).
Proof.
  intros Hx. unfold spaced. cbn [run]. rewrite Hx. cbn [drop startsWith].
  rewrite Ascii.eqb_refl. cbn. eexists. reflexivity.
Qed.

Lemma isNot_false (x c : ascii) : isNot x c = false -> c = x.
Proof.
  unfold isNot. intros H. apply negb_false_iff in H. apply Ascii.eqb_eq, H.
Qed.

Lemma stripLeadingMarker_keeps (p : ascii -> bool) (s : string) :
  all p s = true -> all p (stripLeadingMarker s) = true.
Proof.
  intros H. unfold stripLeadingMarker.
  destruct (startsWith "|||" s); [apply all_drop|]; exact H.
Qed.

(** After [normalizeDelimiters] the text holds neither a comma nor an
    ampersand. *)
Lemma normalizeDelimiters_free (text : string) :
  all (isNot ",") (normalizeDelimiters text) = true
  /\ all (isNot "&") (normalizeDelimiters text) = true.
Proof.
  unfold normalizeDelimiters.
  set (t1 := replaceAll (spaced "&amp;") "|||" text).
  set (t2 := replaceAll (spaced "&") "|||" t1).
  set (t3 := replaceAll withWord "|||" t2).
  set (t4 := replaceAll (spaced ",") "|||" t3).
  assert (H2 : all (isNot "&") t2 = true).
  { apply replaceAllFrom_removes; [reflexivity|].
    intros c r Hc. apply isNot_false in Hc. subst c. apply spaced_at. reflexivity. }
  assert (H3 : all (isNot "&") t3 = true)
    by (apply replaceAllFrom_keeps; [reflexivity|exact H2]).
  assert (H4 : all (isNot "&") t4 = true)
    by (apply replaceAllFrom_keeps; [reflexivity|exact H3]).
  assert (H4' : all (isNot ",") t4 = true).
  { apply replaceAllFrom_removes; [reflexivity|].
    intros c r Hc. apply isNot_false in Hc. subst c. apply spaced_at. reflexivity. }
  split; apply stripLeadingMarker_keeps, replaceAllFrom_keeps;
    try reflexivity; assumption.
Qed.

Lemma splitIntoSegments_keeps (p : ascii -> bool) (text segment : string) :
  all p text = true ->
  In segment (splitIntoSegments text) ->
  all p segment = true /\ nonEmpty segment = true /\ trim segment = segment.
Proof.
  intros Hall Hin. unfold splitIntoSegments in Hin.
  apply filter_In in Hin as [Hin Hlen]. apply in_map_iff in Hin as (piece & <- & Hin).
  pose proof (splitFrom_keeps p (literal "|||") text 0 Hall) as Hpieces.
  rewrite Forall_forall in Hpieces. split; [|split].
  - apply all_trim, Hpieces, Hin.
  - apply nonEmpty_length, Nat.ltb_lt, Hlen.
  - apply trim_idempotent.
Qed.

Lemma stripParentheses_keeps (p : ascii -> bool) (s : string) :
  all p s = true -> all p (stripParentheses s) = true.
Proof.
  intros H. unfold stripParentheses.
  apply replaceAllFrom_keeps; [reflexivity|].
  destruct s as [|c r]; [exact H|].
  simpl in H. apply andb_prop in H as [Hc Hr].
  destruct c as [[] [] [] [] [] [] [] []]; simpl; try rewrite Hc; auto.
Qed.

Lemma cleanSegment_keeps (p : ascii -> bool) (segment : string) :
  p " "%char = true -> all p segment = true -> all p (cleanSegment segment) = true.
Proof.
  intros Hsp H. unfold cleanSegment.
  apply all_trim, replaceAllFrom_keeps; [simpl; rewrite Hsp; reflexivity|].
  apply stripParentheses_keeps, H.
Qed.

Lemma cleanSegment_normal (segment : string) :
  trim (cleanSegment segment) = cleanSegment segment
  /\ singleSpaced (cleanSegment segment) = true.
Proof.
  unfold cleanSegment. split; [apply trim_idempotent|].
  apply singleSpaced_trim, collapse_singleSpaced.
Qed.

(** A name without ampersand holds no entity to decode. *)
Lemma processVocalistName_plain (name : string) :
  all (isNot "&") name = true -> processVocalistName name = name.
Proof.
  intros H. unfold processVocalistName. apply replaceAll_nowhere. intros k.
  pose proof (all_drop _ _ k H) as Hk. unfold literal.
  destruct (drop k name) as [|c r]; [reflexivity|].
  simpl in Hk. apply andb_prop in Hk as [Hc _]. cbn [startsWith].
  unfold isNot in Hc. apply negb_true_iff in Hc.
  rewrite Ascii.eqb_sym, Hc. reflexivity.
Qed.

(** What [parseUntaggedText] returns for a segment. *)
Lemma parseUntaggedText_in (text : string) (v : VocalistSpec) :
  In v (parseUntaggedText text) ->
  format v = Plain
  /\ nonEmpty (name v) = true
  /\ all (isNot ",") (name v) = true
  /\ all (isNot "&") (name v) = true
  /\ exists segment,
       In segment (splitIntoSegments (normalizeDelimiters text))
       /\ name v = cleanSegment segment.
Proof.
  unfold parseUntaggedText. destruct (nonEmpty text); [|intros []].
  intros Hin. apply in_flat_map in Hin as (segment & Hseg & Hin).
  destruct (nonEmpty (cleanSegment segment)) eqn:Hne; [|destruct Hin].
  destruct Hin as [<-|[]]. cbn [name format].
  destruct (normalizeDelimiters_free text) as [Hcomma Hamp].
  destruct (splitIntoSegments_keeps _ _ _ Hcomma Hseg) as (Hc & _ & _).
  destruct (splitIntoSegments_keeps _ _ _ Hamp Hseg) as (Ha & _ & _).
  apply (cleanSegment_keeps _ _ eq_refl) in Hc, Ha.
  rewrite (processVocalistName_plain _ Ha).
  split; [reflexivity|]. split; [exact Hne|]. split; [exact Hc|].
  split; [exact Ha|]. exists segment. split; [exact Hseg|reflexivity].
Qed.

End NameFacts.

(* ------------------------------------------------------------------ *)
(** ** The matches of the tag patterns *)

Module SpanFacts.
Import JSString Patterns StringFacts WordFacts ScanFacts TotalityFacts ExtractFacts.
Local Open Scope nat_scope.

Lemma tagged_span (text open close : string) (fmt : Format) (i n : nat) (g : string) :
  In (open, close) (tagsOf fmt) ->
  tagged open close (drop i text) = Some (n, g) ->
  spanMatch {| fullMatch := take n (drop i text); content := trim g;
               tagFormat := fmt; start := i; stop := i + n |}.
Proof.
  intros Htags H. apply tagged_some in H as (Hg & Hall & Hn & Hs).
  exists open, close, g. cbn [fullMatch content tagFormat].
  split; [exact Htags|]. split.
  - assert (Hlen : n = String.length (open ++ g ++ close))
      by (rewrite !length_append; lia).
    set (rest := drop n (drop i text)) in Hs. clearbody rest.
    rewrite Hs, Hlen.
    replace (open ++ g ++ close ++ rest)%string
      with ((open ++ g ++ close) ++ rest)%string
      by (rewrite !append_assoc; reflexivity).
    apply take_append.
  - split; [apply nonEmpty_length, Hg|]. split; [exact Hall|reflexivity].
Qed.

Lemma execLoop_forall (P : TagMatch -> Prop)
  (regex : string -> option (nat * string)) (fmt : Format) (text : string) :
  (forall i n g,
     regex (drop i text) = Some (n, g) ->
     P {| fullMatch := take n (drop i text); content := trim g;
          tagFormat := fmt; start := i; stop := i + n |}) ->
  forall fuel lastIndex allMatches r,
    Forall P allMatches ->
    execLoop fuel regex fmt text lastIndex allMatches = Return r ->
    Forall P r.
Proof.
  intros Hregex. induction fuel as [|fuel IH]; intros lastIndex allMatches r Hacc;
    cbn [execLoop]; [discriminate|].
  destruct (exec regex text lastIndex) as [[i [n g]]|] eqn:Hexec.
  - apply exec_some in Hexec as (_ & Hm). apply IH.
    apply Forall_app. split; [exact Hacc|]. constructor; [|constructor]. auto.
  - intros H. injection H as <-. exact Hacc.
Qed.

Lemma collectMatches_span (text : string) (allMatches : list TagMatch) :
  collectMatches text = Return allMatches -> Forall spanMatch allMatches.
Proof.
  unfold collectMatches, patterns. cbn [forOf fst snd].
  destruct (execLoop _ (tagged "<b><i>" "</i></b>") _ _ _ _) as [r1| |] eqn:H1;
    try discriminate.
  cbn [bind].
  destruct (execLoop _ (tagged "<i><b>" "</b></i>") _ _ _ _) as [r2| |] eqn:H2;
    try discriminate.
  cbn [bind].
  destruct (execLoop _ (tagged "<b>" "</b>") _ _ _ _) as [r3| |] eqn:H3;
    try discriminate.
  cbn [bind].
  destruct (execLoop _ (tagged "<i>" "</i>") _ _ _ _) as [r4| |] eqn:H4;
    try discriminate.
  cbn [bind]. intros H. injection H as <-.
  apply (execLoop_forall spanMatch) in H1;
    [|intros; eapply tagged_span; [left; reflexivity|eassumption]|constructor].
  apply (execLoop_forall spanMatch) in H2;
    [|intros; eapply tagged_span; [right; left; reflexivity|eassumption]|exact H1].
  apply (execLoop_forall spanMatch) in H3;
    [|intros; eapply tagged_span; [left; reflexivity|eassumption]|exact H2].
  apply (execLoop_forall spanMatch) in H4;
    [|intros; eapply tagged_span; [left; reflexivity|eassumption]|exact H3].
  exact H4.
Qed.

(** *** Sorting and the removal of overlaps *)

Lemma in_insertByStart (m x : TagMatch) (l : list TagMatch) :
  In x (insertByStart m l) <-> x = m \/ In x l.
Proof.
  induction l as [|y l IH]; simpl.
  - intuition.
  - destruct (start m <=? start y); simpl; [intuition|]. rewrite IH. intuition.
Qed.

Lemma in_sortByStart (x : TagMatch) (l : list TagMatch) :
  In x (sortByStart l) <-> In x l.
Proof.
  induction l as [|y l IH]; simpl; [reflexivity|].
  rewrite in_insertByStart, IH. intuition.
Qed.

Lemma keep_grows (l : list TagMatch) :
  forall acc x, In x acc -> In x (fold_left keepUnlessOverlap l acc).
Proof.
  induction l as [|m l IH]; intros acc x Hx; simpl; [exact Hx|].
  apply IH. unfold keepUnlessOverlap.
  destruct (existsb (overlaps m) acc); [exact Hx|]. apply in_or_app. left; exact Hx.
Qed.

Lemma keep_from (l : list TagMatch) :
  forall acc x, In x (fold_left keepUnlessOverlap l acc) -> In x acc \/ In x l.
Proof.
  induction l as [|m l IH]; intros acc x Hx; simpl in *; [left; exact Hx|].
  apply IH in Hx as [Hx|Hx]; [|right; right; exact Hx].
  unfold keepUnlessOverlap in Hx.
  destruct (existsb (overlaps m) acc); [left; exact Hx|].
  apply in_app_or in Hx as [Hx|[<-|[]]]; [left; exact Hx|right; left; reflexivity].
Qed.

(** A match is dropped only for a kept one that starts no later and
    overlaps it. *)
Lemma keep_complete (l : list TagMatch) :
  forall lo acc,
    sortedFrom lo l ->
    (forall x, In x acc -> start x <= lo) ->
    forall m, In m l ->
      In m (fold_left keepUnlessOverlap l acc)
      \/ exists k, In k (fold_left keepUnlessOverlap l acc)
                   /\ start k <= start m /\ overlaps m k = true.
Proof.
  induction l as [|m0 l IH]; intros lo acc Hsorted Hacc m Hin; [destruct Hin|].
  cbn [sortedFrom] in Hsorted. destruct Hsorted as [Hlo Hsorted].
  cbn [fold_left]. destruct Hin as [<-|Hin].
  - destruct (existsb (overlaps m0) acc) eqn:Hex.
    + right. pose proof Hex as Hex'.
      apply existsb_exists in Hex' as (k & Hk & Hov).
      exists k. split.
      { apply keep_grows. unfold keepUnlessOverlap. rewrite Hex. exact Hk. }
      split; [specialize (Hacc k Hk); lia|exact Hov].
    + left. apply keep_grows. unfold keepUnlessOverlap. rewrite Hex.
      apply in_or_app. right. left. reflexivity.
  - apply (IH (start m0)); [exact Hsorted| |exact Hin].
    intros x Hx. unfold keepUnlessOverlap in Hx.
    destruct (existsb (overlaps m0) acc).
    + specialize (Hacc x Hx). lia.
    + apply in_app_or in Hx as [Hx|[<-|[]]]; [specialize (Hacc x Hx); lia|lia].
Qed.

(** *** The vocalists of the kept matches *)

Lemma taggedName_span (m : TagMatch) :
  spanMatch m -> all (isNot "<") (taggedName m) = true.
Proof.
  intros (open & close & inner & _ & _ & _ & Hall & Hcontent).
  unfold taggedName. rewrite Hcontent.
  destruct (startsWith "with " (toLowerCase (trim inner))).
  - apply all_trim. unfold substringFrom. apply all_drop, all_trim, Hall.
  - apply all_trim, Hall.
Qed.

Lemma processMatch_specs (R : VocalistSpec -> Prop) (Q : TagMatch -> Prop) :
  (forall m, Q m -> nonEmpty (taggedName m) = true ->
             R {| name := processVocalistName (taggedName m); format := tagFormat m |}) ->
  forall kept acc,
    Forall Q kept -> Forall R (fst acc) ->
    Forall R (fst (fold_left processMatch kept acc)).
Proof.
  intros HR. induction kept as [|m kept IH]; intros acc Hkept Hacc; [exact Hacc|].
  inversion Hkept as [|? ? Hm Hkept']; subst. cbn [fold_left]. apply IH; [exact Hkept'|].
  destruct (nonEmpty (taggedName m)) eqn:Hname.
  - rewrite (processMatch_named _ _ Hname). cbn [fst].
    apply Forall_app. split; [exact Hacc|]. constructor; [auto|constructor].
  - rewrite (processMatch_unnamed _ _ Hname). exact Hacc.
Qed.

(** What [extractTaggedVocalists] returns. *)
Lemma extractTaggedVocalists_specs (text : string)
  (vocalists : list VocalistSpec) (remainingText : string) :
  extractTaggedVocalists text = Return (vocalists, remainingText) ->
  Forall (fun v => format v <> Plain
                   /\ nonEmpty (name v) = true
                   /\ all (isNot "<") (name v) = true)
         vocalists
  /\ trim remainingText = remainingText.
Proof.
  destruct (collectMatches_returns text) as (allMatches & Hall & _).
  pose proof (collectMatches_span _ _ Hall) as Hspan.
  unfold extractTaggedVocalists, filteredMatches. rewrite Hall. cbn [bind].
  destruct (fold_left processMatch (removeOverlaps (sortByStart allMatches)) ([], text))
    as [specs workingText] eqn:Hfold.
  intros H. injection H as <- <-. split.
  - change specs with (fst (specs, workingText)). rewrite <- Hfold.
    apply (processMatch_specs _ spanMatch); [| |constructor].
    + intros m Hm Hname. cbn [name format]. split; [|split].
      * destruct Hm as (open & close & inner & Htags & _).
        intros Hplain. rewrite Hplain in Htags. destruct Htags.
      * apply replaceAllFrom_nonEmpty; [reflexivity|exact Hname].
      * apply replaceAllFrom_keeps; [reflexivity|].
        apply taggedName_span, Hm.
    + apply keep_forall; [|constructor]. apply sortByStart_forall, Hspan.
  - unfold cleanUp. apply trim_idempotent.
Qed.

End SpanFacts.

(* ------------------------------------------------------------------ *)
(** ** Objects built by assignments *)

Module DictFacts.
Import JSString JSObject JSObjectFacts.

Lemma dictionary_spec {V : Type} (o : t V) :
  dictionary o = true <-> NoDup (keys o) /\ ~ In "__proto__" (keys o).
Proof.
  induction o as [|[k v] r IH]; cbn [dictionary keys map fst].
  - split; [intros _; split; [constructor|intros []]|reflexivity].
  - rewrite !andb_true_iff, !negb_true_iff, IH. unfold hasOwn.
    pose proof (getOwn_none k r) as Hnone. fold (keys r).
    rewrite NoDup_cons_iff. split.
    + intros [[Hk Hown] [Hnd Hp]]. apply String.eqb_neq in Hk.
      destruct (getOwn k r) eqn:Hget; [discriminate|].
      split; [split; [apply Hnone; reflexivity|exact Hnd]|].
      intros [H|H]; [congruence|contradiction].
    + intros [[Hk Hnd] Hp]. split; [split|split; [exact Hnd|]].
      * apply String.eqb_neq. intros ->. apply Hp. left. reflexivity.
      * apply Hnone in Hk. rewrite Hk. reflexivity.
      * intros H. apply Hp. right. exact H.
Qed.

Lemma insertIndex_split {V : Type} (i : N) (k : string) (o : t V) :
  exists l1 l2,
    o = l1 ++ l2 /\ forall v, insertIndex i k v o = l1 ++ (k, v) :: l2.
Proof.
  induction o as [|e r IH]; cbn [insertIndex].
  - exists [], []. split; reflexivity.
  - destruct (indexBelow i e).
    + destruct IH as (l1 & l2 & -> & IH). exists (e :: l1), l2.
      split; [reflexivity|]. intros v. rewrite IH. reflexivity.
    + exists [], (e :: r). split; reflexivity.
Qed.

Lemma define_split {V : Type} (k : string) (o : t V) :
  exists l1 l2, o = l1 ++ l2 /\ forall v, define k v o = l1 ++ (k, v) :: l2.
Proof.
  unfold define. destruct (arrayIndex k) as [i|]; [apply insertIndex_split|].
  exists o, []. rewrite app_nil_r. split; reflexivity.
Qed.

Lemma NoDup_insert {A : Type} (a : A) (l1 l2 : list A) :
  NoDup (l1 ++ l2) -> ~ In a (l1 ++ l2) -> NoDup (l1 ++ a :: l2).
Proof.
  intros Hnd Hin. apply (NoDup_Add (Add_app a l1 l2)). split; assumption.
Qed.

Lemma set_cases {V : Type} (k : string) (v : V) (o : t V) :
  (k = "__proto__" /\ set k v o = o)
  \/ (k <> "__proto__" /\ In k (keys o) /\ set k v o = update k v o)
  \/ (k <> "__proto__" /\ ~ In k (keys o) /\ set k v o = define k v o).
Proof.
  unfold set. destruct (String.eqb_spec k "__proto__") as [Hk|Hk]; [auto|].
  right. unfold hasOwn. destruct (getOwn k o) as [x|] eqn:Hget.
  - left. split; [exact Hk|]. split; [|reflexivity].
    apply in_keys_getOwn. eauto.
  - right. split; [exact Hk|]. split; [|reflexivity]. apply getOwn_none, Hget.
Qed.

Lemma dictionary_update {V : Type} (k : string) (v : V) (o : t V) :
  dictionary o = true -> dictionary (update k v o) = true.
Proof.
  rewrite !dictionary_spec, keys_update. auto.
Qed.

Lemma dictionary_define {V : Type} (k : string) (v : V) (o : t V) :
  k <> "__proto__" -> ~ In k (keys o) ->
  dictionary o = true -> dictionary (define k v o) = true.
Proof.
  intros Hk Hin. rewrite !dictionary_spec. intros [Hnd Hp].
  destruct (define_split k o) as (l1 & l2 & -> & ->).
  unfold keys in *. rewrite map_app in *. cbn [map fst]. split.
  - apply NoDup_insert; assumption.
  - intros H. apply in_app_or in H as [H|[H|H]].
    + apply Hp, in_or_app. left. exact H.
    + congruence.
    + apply Hp, in_or_app. right. exact H.
Qed.

(** An assignment keeps the keys distinct. *)
Lemma dictionary_set {V : Type} (k : string) (v : V) (o : t V) :
  dictionary o = true -> dictionary (set k v o) = true.
Proof.
  intros H. destruct (set_cases k v o) as [[_ ->]|[(_ & _ & ->)|(Hk & Hin & ->)]].
  - exact H.
  - apply dictionary_update, H.
  - apply dictionary_define; assumption.
Qed.

Lemma update_update {V : Type} (k : string) (a b : V) (o : t V) :
  update k b (update k a o) = update k b o.
Proof.
  unfold update. rewrite map_map. apply map_ext. intros [k' v']. cbn [fst].
  destruct (k' =? k) eqn:H; cbn [fst]; [rewrite String.eqb_refl|rewrite H];
    reflexivity.
Qed.

Lemma update_absent {V : Type} (k : string) (v : V) (o : t V) :
  getOwn k o = None -> update k v o = o.
Proof.
  unfold update. induction o as [|[k' v'] r IH]; cbn [getOwn map fst]; intros H.
  - reflexivity.
  - destruct (k' =? k); [discriminate|]. f_equal. auto.
Qed.

Lemma update_app {V : Type} (k : string) (v : V) (o o' : t V) :
  update k v (o ++ o') = update k v o ++ update k v o'.
Proof. unfold update. apply map_app. Qed.

Lemma update_define {V : Type} (k : string) (a b : V) (o : t V) :
  getOwn k o = None -> update k b (define k a o) = define k b o.
Proof.
  intros Hget. destruct (define_split k o) as (l1 & l2 & -> & Hdefine).
  rewrite !Hdefine. rewrite getOwn_app in Hget.
  destruct (getOwn k l1) eqn:H1; [discriminate|].
  rewrite update_app, (update_absent _ _ _ H1). f_equal.
  unfold update at 1. cbn [map fst]. rewrite String.eqb_refl. f_equal.
  apply update_absent, Hget.
Qed.

(** *** Sums over the values *)

Lemma sumOf_app (field : Stats -> N) (o o' : t Stats) :
  sumOf field (o ++ o') = (sumOf field o + sumOf field o')%N.
Proof.
  unfold sumOf, values. rewrite !map_app, fold_right_app.
  induction (map field (map snd o)) as [|x l IH]; cbn [fold_right]; [reflexivity|].
  rewrite IH. lia.
Qed.

Lemma sumOf_define (field : Stats -> N) (k : string) (v : Stats) (o : t Stats) :
  sumOf field (define k v o) = (sumOf field o + field v)%N.
Proof.
  destruct (define_split k o) as (l1 & l2 & -> & ->).
  change ((k, v) :: l2) with ([(k, v)] ++ l2). rewrite !sumOf_app.
  unfold sumOf at 2. cbn. lia.
Qed.

Lemma sumOf_update (field : Stats -> N) (k : string) (v s : Stats) (o : t Stats) :
  NoDup (keys o) -> getOwn k o = Some s ->
  (sumOf field (update k v o) + field s = sumOf field o + field v)%N.
Proof.
  induction o as [|[k' v'] r IH]; cbn [getOwn keys map fst]; intros Hnd Hget;
    [discriminate|].
  apply NoDup_cons_iff in Hnd as [Hk Hnd].
  change ((k', v') :: r) with ([(k', v')] ++ r). rewrite update_app, !sumOf_app.
  unfold update at 1. cbn [map fst].
  destruct (String.eqb_spec k' k) as [->|Hneq].
  - injection Hget as ->. apply getOwn_none in Hk.
    rewrite (update_absent _ _ _ Hk). unfold sumOf. cbn. lia.
  - specialize (IH Hnd Hget). unfold sumOf in *. cbn in *. lia.
Qed.

End DictFacts.

(* ------------------------------------------------------------------ *)
(** ** The summary as a list, and its top vocalist *)

Module TopFacts.
Import JSString JSObject JSObjectFacts SummaryFacts DictFacts.

Lemma insertIndex_last {V : Type} (i : N) (k : string) (v : V) (o : t V) :
  Forall (fun e => indexBelow i e = true) o ->
  insertIndex i k v o = o ++ [(k, v)].
Proof.
  induction 1 as [|e r He Hr IH]; cbn [insertIndex app]; [reflexivity|].
  rewrite He, IH. reflexivity.
Qed.

Lemma enumerated_before (l1 : list string) (k : string) (l2 : list string) (i : N) :
  enumerated (l1 ++ k :: l2) = true -> arrayIndex k = Some i ->
  forall k', In k' l1 -> exists j, arrayIndex k' = Some j /\ (j < i)%N.
Proof.
  intros Henum Hk. induction l1 as [|x l1 IH]; intros k' Hin; [destruct Hin|].
  cbn [app enumerated] in Henum. apply andb_prop in Henum as [Hx Henum].
  destruct Hin as [<-|Hin]; [|apply IH; assumption].
  assert (Hlater : In k (l1 ++ k :: l2))
    by (apply in_or_app; right; left; reflexivity).
  destruct (arrayIndex x) as [j|].
  - exists j. split; [reflexivity|]. rewrite forallb_forall in Hx.
    specialize (Hx k Hlater). rewrite Hk in Hx. apply N.ltb_lt, Hx.
  - rewrite forallb_forall in Hx.
    specialize (Hx k Hlater). rewrite Hk in Hx. discriminate.
Qed.

(** A property created after all the others of an object that is
    enumerated in creation order comes last. *)
Lemma define_last {V : Type} (k : string) (v : V) (o : t V) (rest : list string) :
  enumerated (keys o ++ k :: rest) = true -> define k v o = o ++ [(k, v)].
Proof.
  intros Henum. unfold define. destruct (arrayIndex k) as [i|] eqn:Hk; [|reflexivity].
  apply insertIndex_last. apply Forall_forall. intros [k' v'] Hin.
  destruct (enumerated_before _ _ _ _ Henum Hk k') as (j & Hj & Hlt).
  { apply (in_map fst) in Hin. exact Hin. }
  unfold indexBelow. cbn [fst]. rewrite Hj. apply N.ltb_lt, Hlt.
Qed.

(** The mapping of the summary, as a list. *)
Lemma summary_entries (tl tw : N) (vs : JSObject.t Stats) :
  forall done,
    dictionary (done ++ vs) = true ->
    enumerated (keys (done ++ vs)) = true ->
    fold_left (summaryStep tl tw) vs
              (map (fun e => (fst e, summaryEntry tl tw (snd e))) done)
    = map (fun e => (fst e, summaryEntry tl tw (snd e))) (done ++ vs).
Proof.
  induction vs as [|[k st] vs IH]; intros done Hdict Henum; cbn [fold_left].
  - rewrite app_nil_r. reflexivity.
  - replace (done ++ (k, st) :: vs) with ((done ++ [(k, st)]) ++ vs) in *
      by (rewrite <- app_assoc; reflexivity).
    rewrite <- IH by assumption. f_equal.
    unfold summaryStep. cbn [fst snd]. rewrite map_app. cbn [map fst snd].
    apply dictionary_spec in Hdict as [Hnd Hproto].
    unfold keys in Hnd, Hproto, Henum. rewrite !map_app in Hnd, Hproto, Henum.
    cbn [map fst] in Hnd, Hproto, Henum. rewrite <- app_assoc in Hnd, Hproto, Henum.
    cbn [app] in Hnd, Hproto, Henum.
    set (g := fun e : string * Stats => (fst e, summaryEntry tl tw (snd e))).
    assert (Hkeys : keys (map g done) = map fst done).
    { unfold keys. rewrite map_map. reflexivity. }
    destruct (set_cases k (summaryEntry tl tw st) (map g done))
      as [[Hk _]|[(_ & Hin & _)|(_ & _ & ->)]].
    + exfalso. apply Hproto, in_or_app. right. left. exact Hk.
    + exfalso. rewrite Hkeys in Hin. apply NoDup_remove_2 in Hnd.
      apply Hnd, in_or_app. left. exact Hin.
    + apply (define_last _ _ _ (map fst vs)). rewrite Hkeys. exact Henum.
Qed.

(** *** The top vocalist *)

Lemma topStep_fold {V : Type} `{WithLines V} (o : JSObject.t V) :
  forall top max,
    let res := fold_left topStep o (top, max) in
    (res = (top, max)
     /\ Forall (fun e => (linesIn (snd e) <= max)%N) o)
    \/ exists pre t s post,
         o = pre ++ (t, s) :: post
         /\ res = (Some t, linesIn s)
         /\ (max < linesIn s)%N
         /\ Forall (fun e => (linesIn (snd e) < linesIn s)%N) pre
         /\ Forall (fun e => (linesIn (snd e) <= linesIn s)%N) post.
Proof.
  induction o as [|[k s] o IH]; intros top max; cbv zeta; cbn [fold_left].
  - left. split; [reflexivity|constructor].
  - assert (Hstep : topStep (top, max) (k, s)
                    = if (max <? linesIn s)%N
                      then (Some k, linesIn s) else (top, max))
      by reflexivity.
    rewrite Hstep. clear Hstep.
    destruct (N.ltb_spec max (linesIn s)) as [Hlt|Hge].
    + right.
      destruct (IH (Some k) (linesIn s))
        as [[Hres Hall]|(pre & t & s' & post & Ho & Hres & Hgt & Hpre & Hpost)];
        cbv zeta in Hres.
      * exists [], k, s, o. cbn [app]. rewrite Hres.
        split; [reflexivity|]. split; [reflexivity|]. split; [exact Hlt|].
        split; [constructor|exact Hall].
      * exists ((k, s) :: pre), t, s', post. rewrite Hres, Ho. cbn [app].
        split; [reflexivity|]. split; [reflexivity|]. split; [lia|].
        split; [constructor; [cbn [snd]; lia|exact Hpre]|exact Hpost].
    + destruct (IH top max)
        as [[Hres Hall]|(pre & t & s' & post & Ho & Hres & Hgt & Hpre & Hpost)];
        cbv zeta in Hres.
      * left. split; [exact Hres|]. constructor; [cbn [snd]; lia|exact Hall].
      * right. exists ((k, s) :: pre), t, s', post. rewrite Hres, Ho. cbn [app].
        split; [reflexivity|]. split; [reflexivity|]. split; [exact Hgt|].
        split; [constructor; [cbn [snd]; lia|exact Hpre]|exact Hpost].
Qed.

End TopFacts.

(* ------------------------------------------------------------------ *)
(** ** The order of enumeration *)

Module EnumFacts.
Import JSString JSObject JSObjectFacts DictFacts.
Local Open Scope N_scope.

Lemma digit_value (c : ascii) :
  isDigit c = true -> N_of_ascii c - 48 < 10 /\ 48 <= N_of_ascii c.
Proof.
  unfold isDigit. intros H. apply andb_prop in H as [H1 H2].
  apply N.leb_le in H1, H2. lia.
Qed.

Lemma digitsValue_acc (s : string) :
  forall acc, digitsValue acc s = acc * 10 ^ len s + digitsValue 0 s.
Proof.
  unfold len. induction s as [|c r IH]; intros acc; cbn [digitsValue String.length].
  - cbn. lia.
  - rewrite (IH (acc * 10 + _)), (IH (0 * 10 + _)).
    rewrite Nat2N.inj_succ, N.pow_succ_r by lia. lia.
Qed.

Lemma digitsValue_cons (c : ascii) (r : string) :
  digitsValue 0 (String c r) = (N_of_ascii c - 48) * 10 ^ len r + digitsValue 0 r.
Proof.
  cbn [digitsValue]. rewrite digitsValue_acc. lia.
Qed.

Lemma digitsValue_bound (s : string) :
  all isDigit s = true -> digitsValue 0 s < 10 ^ len s.
Proof.
  induction s as [|c r IH]; intros H.
  - cbn. lia.
  - cbn [all] in H. apply andb_prop in H as [Hc Hr].
    rewrite digitsValue_cons. specialize (IH Hr).
    destruct (digit_value c Hc) as [Hd _].
    unfold len in *. cbn [String.length]. rewrite Nat2N.inj_succ, N.pow_succ_r by lia.
    nia.
Qed.

Lemma ascii_of_value (c d : ascii) : N_of_ascii c = N_of_ascii d -> c = d.
Proof.
  intros H. rewrite <- (ascii_N_embedding c), <- (ascii_N_embedding d), H.
  reflexivity.
Qed.

Lemma digits_same_length (s1 : string) :
  forall s2,
    all isDigit s1 = true -> all isDigit s2 = true ->
    String.length s1 = String.length s2 ->
    digitsValue 0 s1 = digitsValue 0 s2 -> s1 = s2.
Proof.
  induction s1 as [|c1 r1 IH]; intros [|c2 r2] H1 H2 Hlen Hval;
    try discriminate; [reflexivity|].
  cbn [all] in H1, H2. apply andb_prop in H1 as [Hc1 Hr1].
  apply andb_prop in H2 as [Hc2 Hr2]. injection Hlen as Hlen.
  rewrite !digitsValue_cons in Hval.
  pose proof (digitsValue_bound r1 Hr1) as Hb1.
  pose proof (digitsValue_bound r2 Hr2) as Hb2.
  assert (Hl : len r1 = len r2) by (unfold len; rewrite Hlen; reflexivity).
  rewrite Hl in *.
  destruct (digit_value c1 Hc1) as [_ Hd1]. destruct (digit_value c2 Hc2) as [_ Hd2].
  assert (Hd : N_of_ascii c1 - 48 = N_of_ascii c2 - 48) by nia.
  assert (Hc : c1 = c2) by (apply ascii_of_value; lia).
  subst c2. f_equal. apply IH; try assumption. nia.
Qed.

(** The decimal notation of an array index. *)
Lemma arrayIndex_some (k : string) (i : N) :
  arrayIndex k = Some i ->
  all isDigit k = true /\ digitsValue 0 k = i
  /\ (k = "0"%string
      \/ exists c r, k = String c r /\ N_of_ascii c <> 48).
Proof.
  unfold arrayIndex. destruct k as [|c r]; [discriminate|].
  destruct (all isDigit (String c r)) eqn:Hall; [|discriminate].
  cbn [andb].
  destruct ((String c r =? "0")%string || negb (Ascii.eqb c "0")) eqn:Hcanon;
    [|discriminate].
  cbn [andb]. destruct (String.length (String c r) <=? 10)%nat; [|discriminate].
  cbv zeta. destruct (digitsValue 0 (String c r) <? 4294967295); [|discriminate].
  intros H. injection H as <-. split; [reflexivity|]. split; [reflexivity|].
  apply orb_prop in Hcanon as [Hzero|Hfirst].
  - left. apply String.eqb_eq, Hzero.
  - right. exists c, r. split; [reflexivity|].
    apply negb_true_iff in Hfirst. intros Hc.
    assert (c = "0"%char) by (apply ascii_of_value; exact Hc).
    subst c. discriminate.
Qed.

Lemma leading_digit (c : ascii) (r : string) :
  all isDigit (String c r) = true -> N_of_ascii c <> 48 ->
  10 ^ len r <= digitsValue 0 (String c r).
Proof.
  intros Hall Hc. cbn [all] in Hall. apply andb_prop in Hall as [Hd _].
  destruct (digit_value c Hd) as [_ Hlo]. rewrite digitsValue_cons.
  assert (1 <= N_of_ascii c - 48) by lia. nia.
Qed.

(** Two array indices of the same value are the same key. *)
Lemma arrayIndex_injective (k1 k2 : string) (i : N) :
  arrayIndex k1 = Some i -> arrayIndex k2 = Some i -> k1 = k2.
Proof.
  intros H1 H2.
  apply arrayIndex_some in H1 as (Hd1 & Hv1 & Hc1).
  apply arrayIndex_some in H2 as (Hd2 & Hv2 & Hc2).
  assert (Hpow : forall a b : N, a < b -> 10 ^ a * 10 <= 10 ^ b).
  { intros a b Hab.
    assert (H : 10 ^ N.succ a <= 10 ^ b) by (apply N.pow_le_mono_r; lia).
    rewrite N.pow_succ_r' in H. lia. }
  destruct Hc1 as [->|(c1 & r1 & -> & Hf1)], Hc2 as [->|(c2 & r2 & -> & Hf2)].
  - reflexivity.
  - exfalso. pose proof (leading_digit _ _ Hd2 Hf2) as Hlow.
    rewrite Hv2, <- Hv1 in Hlow. cbn in Hlow.
    assert (0 < 10 ^ len r2) by (apply N.neq_0_lt_0, N.pow_nonzero; lia). lia.
  - exfalso. pose proof (leading_digit _ _ Hd1 Hf1) as Hlow.
    rewrite Hv1, <- Hv2 in Hlow. cbn in Hlow.
    assert (0 < 10 ^ len r1) by (apply N.neq_0_lt_0, N.pow_nonzero; lia). lia.
  - apply digits_same_length; try assumption; [|congruence].
    pose proof (leading_digit _ _ Hd1 Hf1) as Hlow1.
    pose proof (leading_digit _ _ Hd2 Hf2) as Hlow2.
    pose proof (digitsValue_bound _ Hd1) as Hup1.
    pose proof (digitsValue_bound _ Hd2) as Hup2.
    rewrite Hv1 in *. rewrite Hv2 in *.
    unfold len in Hup1, Hup2. cbn [String.length] in *.
    rewrite Nat2N.inj_succ, N.pow_succ_r' in Hup1, Hup2.
    fold (len r1) in Hup1. fold (len r2) in Hup2.
    destruct (N.lt_trichotomy (len r1) (len r2)) as [Hlt|[Heq|Hgt]].
    + specialize (Hpow _ _ Hlt). lia.
    + unfold len in Heq. apply Nat2N.inj in Heq. congruence.
    + specialize (Hpow _ _ Hgt). lia.
Qed.

(** *** Creating a property keeps the order of enumeration *)

Lemma enumerated_cons (k : string) (r : list string) :
  enumerated (k :: r) = forallb (after k) r && enumerated r.
Proof.
  cbn [enumerated]. unfold after. destruct (arrayIndex k); reflexivity.
Qed.

Lemma enumerated_snoc (ks : list string) (k : string) :
  arrayIndex k = None -> enumerated ks = true -> enumerated (ks ++ [k]) = true.
Proof.
  intros Hk. induction ks as [|x ks IH]; intros H.
  - cbn [app]. rewrite enumerated_cons. reflexivity.
  - cbn [app]. rewrite enumerated_cons in *. apply andb_prop in H as [Hx Hks].
    rewrite forallb_app, Hx, (IH Hks). cbn [forallb].
    unfold after. rewrite Hk. destruct (arrayIndex x); reflexivity.
Qed.

Lemma enumerated_insert (i : N) (k : string) (v : Stats) (o : t Stats) :
  arrayIndex k = Some i -> ~ In k (keys o) ->
  enumerated (keys o) = true ->
  enumerated (keys (insertIndex i k v o)) = true.
Proof.
  intros Hk. induction o as [|[k' v'] r IH]; intros Hin Henum.
  - cbn [insertIndex keys map fst]. rewrite enumerated_cons. reflexivity.
  - cbn [insertIndex]. unfold indexBelow. cbn [fst].
    cbn [keys map fst] in Hin, Henum. fold (keys r) in Hin, Henum.
    rewrite enumerated_cons in Henum. apply andb_prop in Henum as [Hall Hr].
    destruct (arrayIndex k') as [j|] eqn:Hk'.
    + destruct (N.ltb_spec j i) as [Hlt|Hge].
      * cbn [keys map fst]. fold (keys (insertIndex i k v r)).
        rewrite enumerated_cons, IH by (try assumption; intros H; apply Hin; right; exact H).
        rewrite andb_true_r. apply forallb_forall. intros x Hx.
        destruct (insertIndex_split i k r) as (l1 & l2 & Hr12 & Hins).
        rewrite Hins in Hx. unfold keys in Hx. rewrite map_app in Hx.
        cbn [map fst] in Hx. rewrite forallb_forall in Hall.
        apply in_app_or in Hx as [Hx|[<-|Hx]].
        -- apply Hall. rewrite Hr12. unfold keys. rewrite map_app.
           apply in_or_app. left. exact Hx.
        -- unfold after. rewrite Hk', Hk. apply N.ltb_lt, Hlt.
        -- apply Hall. rewrite Hr12. unfold keys. rewrite map_app.
           apply in_or_app. right. exact Hx.
      * cbn [keys map fst]. fold (keys r).
        rewrite !enumerated_cons, Hall, Hr. cbn [forallb].
        rewrite !andb_true_r.
        assert (Hij : i < j).
        { destruct (N.eq_dec i j) as [->|]; [|lia]. exfalso. apply Hin. left.
          apply (arrayIndex_injective _ _ _ Hk' Hk). }
        apply andb_true_intro. split.
        -- unfold after. rewrite Hk, Hk'. apply N.ltb_lt, Hij.
        -- apply forallb_forall. intros x Hx. rewrite forallb_forall in Hall.
           specialize (Hall x Hx). unfold after in *. rewrite Hk' in Hall.
           rewrite Hk. destruct (arrayIndex x) as [jx|]; [|reflexivity].
           apply N.ltb_lt in Hall. apply N.ltb_lt. lia.
    + cbn [keys map fst]. fold (keys r).
      rewrite !enumerated_cons, Hall, Hr. cbn [forallb].
      rewrite !andb_true_r. apply andb_true_intro. split.
      * unfold after. rewrite Hk, Hk'. reflexivity.
      * apply forallb_forall. intros x Hx. rewrite forallb_forall in Hall.
        specialize (Hall x Hx). unfold after in *. rewrite Hk' in Hall.
        rewrite Hk. destruct (arrayIndex x); [discriminate|reflexivity].
Qed.

Lemma enumerated_define (k : string) (v : Stats) (o : t Stats) :
  ~ In k (keys o) -> enumerated (keys o) = true ->
  enumerated (keys (define k v o)) = true.
Proof.
  intros Hin Henum. unfold define. destruct (arrayIndex k) as [i|] eqn:Hk.
  - apply (enumerated_insert i); assumption.
  - unfold keys. rewrite map_app. apply enumerated_snoc; assumption.
Qed.

End EnumFacts.

(* ------------------------------------------------------------------ *)
(** ** The steps of the loop over the lines *)

Module LoopFacts.
Import JSString Patterns JSObject JSObjectFacts StringFacts TotalityFacts LineFacts.
Import DictFacts.

Lemma forOf_invariant {S X : Type} (body : S -> X -> Outcome S)
  (I : list X -> S -> Prop) (xs : list X) :
  (forall st x, exists st', body st x = Return st') ->
  (forall seen st x st',
     In x xs -> I seen st -> body st x = Return st' -> I (seen ++ [x]) st') ->
  forall st, I [] st -> exists st', forOf body xs st = Return st' /\ I xs st'.
Proof.
  intros Hreturns Hstep.
  assert (H : forall rest seen st,
             (forall x, In x rest -> In x xs) -> I seen st ->
             exists st', forOf body rest st = Return st' /\ I (seen ++ rest) st').
  { induction rest as [|x rest IH]; intros seen st Hin Hst; cbn [forOf].
    - rewrite app_nil_r. eauto.
    - destruct (Hreturns st x) as [st1 Hrun]. rewrite Hrun. cbn [bind].
      destruct (IH (seen ++ [x]) st1) as (st' & Hrest & Hst').
      + intros y Hy. apply Hin. right. exact Hy.
      + apply (Hstep seen st x st1); [apply Hin; left; reflexivity|exact Hst|exact Hrun].
      + rewrite <- app_assoc in Hst'. eauto. }
  intros st Hst. apply (H xs [] st); auto.
Qed.

(** The statistics after one more line of [vocalist], as the list of the
    own properties. *)
Lemma record_stats (st : Vars.t) (trimmedLine vocalist : string)
  (tag openVocalist : option string) :
  exists stats,
    record st trimmedLine vocalist tag openVocalist
    = Return {| Vars.result :=
                  Vars.result st
                  ++ [ {| vocalist := vocalist; line := trimmedLine |} ];
                Vars.vocalistStats := stats;
                Vars.currentVocalists := Vars.currentVocalists st;
                Vars.openFormattingTag := tag;
                Vars.openTagVocalist := openVocalist |}
    /\ match get vocalist (Vars.vocalistStats st) with
       | Own s =>
           stats = update vocalist
                     {| lines := lines s + 1;
                        words := words s + wordCount trimmedLine |}
                     (Vars.vocalistStats st)
       | Inherited => stats = Vars.vocalistStats st
       | Undefined =>
           stats = define vocalist
                     {| lines := 0 + 1; words := 0 + wordCount trimmedLine |}
                     (Vars.vocalistStats st)
       end.
Proof.
  set (stats0 := Vars.vocalistStats st).
  assert (Hupdated : forall (s : Stats) (o : t Stats) (x : Stats),
             getOwn vocalist o = Some x ->
             get vocalist (update vocalist s o) = Own s).
  { intros s o x Ho. unfold get.
    rewrite getOwn_update, String.eqb_refl, Ho. reflexivity. }
  assert (Hdefined : forall (s : Stats),
             getOwn vocalist stats0 = None ->
             get vocalist (define vocalist s stats0) = Own s).
  { intros s Ho. unfold get.
    rewrite (getOwn_define _ _ _ _ Ho), String.eqb_refl. reflexivity. }
  unfold record, ensureStats. fold stats0.
  destruct (getOwn vocalist stats0) as [s|] eqn:Hown.
  - assert (Hget : get vocalist stats0 = Own s)
      by (unfold get; rewrite Hown; reflexivity).
    rewrite Hget. unfold addTo at 1. rewrite Hget. cbn [bind].
    unfold addTo. rewrite (Hupdated _ _ _ Hown). cbn [bind lines words].
    eexists. split; [reflexivity|]. apply update_update.
  - destruct (inherited vocalist) eqn:Hinh.
    + assert (Hget : get vocalist stats0 = Inherited)
        by (unfold get; rewrite Hown, Hinh; reflexivity).
      rewrite Hget. unfold addTo. rewrite Hget. cbn [bind]. rewrite Hget.
      cbn [bind]. eexists. split; reflexivity.
    + assert (Hget : get vocalist stats0 = Undefined)
        by (unfold get; rewrite Hown, Hinh; reflexivity).
      rewrite Hget.
      pose proof (inherited_proto _ Hinh) as Hproto.
      apply String.eqb_neq in Hproto.
      assert (Hset : forall v : Stats, set vocalist v stats0 = define vocalist v stats0).
      { intros v. unfold set, hasOwn. rewrite Hproto, Hown. reflexivity. }
      rewrite Hset. unfold addTo at 1. rewrite (Hdefined _ eq_refl). cbn [bind].
      rewrite (update_define _ _ _ _ Hown).
      unfold addTo. rewrite (Hdefined _ eq_refl). cbn [bind lines words].
      rewrite (update_define _ _ _ _ Hown).
      eexists. split; reflexivity.
Qed.

Lemma processLine_cases (st : Vars.t) (l : string) (st' : Vars.t) :
  processLine st l = Return st' ->
  (nonEmpty (trim l) = false /\ st' = st)
  \/ (isLyric l = false
      /\ exists sectionContent,
           sectionHeader (trim l) = Some sectionContent
           /\ headerLine st sectionContent = Return st')
  \/ (isLyric l = true /\ lyricLine st (trim l) = Return st').
Proof.
  unfold processLine, isLyric. destruct (nonEmpty (trim l)); cbn [negb andb].
  - destruct (sectionHeader (trim l)) as [c|]; intros H.
    + right. left. split; [reflexivity|]. eauto.
    + right. right. auto.
  - intros H. injection H as <-. auto.
Qed.

Lemma headerLine_cases (st : Vars.t) (sectionContent : string) (st' : Vars.t) :
  headerLine st sectionContent = Return st' ->
  Vars.result st' = Vars.result st
  /\ Vars.vocalistStats st' = Vars.vocalistStats st
  /\ Vars.openFormattingTag st' = None
  /\ Vars.openTagVocalist st' = None
  /\ match indexOf ":" sectionContent with
     | Some colonIndex =>
         parseVocalists (trim (substringFrom (colonIndex + 1) sectionContent))
         = Return (Vars.currentVocalists st')
     | None => Vars.currentVocalists st' = Vars.currentVocalists st
     end.
Proof.
  unfold headerLine. destruct (indexOf ":" sectionContent) as [colonIndex|].
  - destruct (parseVocalists _) as [vocalists| |]; cbn [bind]; try discriminate.
    intros H. injection H as <-. repeat split.
  - intros H. injection H as <-. repeat split.
Qed.

Lemma lyricLine_cases (st : Vars.t) (trimmedLine : string) (st' : Vars.t) :
  lyricLine st trimmedLine = Return st' ->
  (keys (Vars.currentVocalists st) = [] /\ st' = st)
  \/ (keys (Vars.currentVocalists st) <> []
      /\ exists v,
           (Vars.openTagVocalist st = Some v
            \/ v = determineVocalist trimmedLine (Vars.currentVocalists st))
           /\ Vars.result st'
              = Vars.result st ++ [ {| vocalist := v; line := trimmedLine |} ]
           /\ Vars.currentVocalists st' = Vars.currentVocalists st
           /\ (Vars.openTagVocalist st' = None
               \/ Vars.openTagVocalist st' = Vars.openTagVocalist st
               \/ Vars.openTagVocalist st' = Some v)
           /\ match get v (Vars.vocalistStats st) with
              | Own s =>
                  Vars.vocalistStats st'
                  = update v {| lines := lines s + 1;
                                words := words s + wordCount trimmedLine |}
                           (Vars.vocalistStats st)
              | Inherited => Vars.vocalistStats st' = Vars.vocalistStats st
              | Undefined =>
                  Vars.vocalistStats st'
                  = define v {| lines := 0 + 1;
                                words := 0 + wordCount trimmedLine |}
                           (Vars.vocalistStats st)
              end).
Proof.
  unfold lyricLine.
  destruct (keys (Vars.currentVocalists st)) as [|k ks] eqn:Hkeys; cbn [List.length Nat.ltb Nat.leb].
  { intros H. injection H as <-. left. auto. }
  intros H. right. split; [discriminate|].
  assert (Hrecord : forall v tag ov,
             record st trimmedLine v tag ov = Return st' ->
             (Vars.openTagVocalist st = Some v
              \/ v = determineVocalist trimmedLine (Vars.currentVocalists st)) ->
             (ov = None \/ ov = Vars.openTagVocalist st \/ ov = Some v) ->
             exists v,
               (Vars.openTagVocalist st = Some v
                \/ v = determineVocalist trimmedLine (Vars.currentVocalists st))
               /\ Vars.result st'
                  = Vars.result st ++ [ {| vocalist := v; line := trimmedLine |} ]
               /\ Vars.currentVocalists st' = Vars.currentVocalists st
               /\ (Vars.openTagVocalist st' = None
                   \/ Vars.openTagVocalist st' = Vars.openTagVocalist st
                   \/ Vars.openTagVocalist st' = Some v)
               /\ match get v (Vars.vocalistStats st) with
                  | Own s =>
                      Vars.vocalistStats st'
                      = update v {| lines := lines s + 1;
                                    words := words s + wordCount trimmedLine |}
                               (Vars.vocalistStats st)
                  | Inherited => Vars.vocalistStats st' = Vars.vocalistStats st
                  | Undefined =>
                      Vars.vocalistStats st'
                      = define v {| lines := 0 + 1;
                                    words := 0 + wordCount trimmedLine |}
                               (Vars.vocalistStats st)
                  end).
  { intros v tag ov Hrun Hv Hov.
    destruct (record_stats st trimmedLine v tag ov) as (stats & Hrun' & Hstats).
    rewrite Hrun' in Hrun. injection Hrun as <-. exists v.
    cbn [Vars.result Vars.currentVocalists Vars.openTagVocalist Vars.vocalistStats].
    auto. }
  destruct (openSpan st) as [[tag openVocalist]|] eqn:Hopen.
  - assert (Hv : Vars.openTagVocalist st = Some openVocalist).
    { unfold openSpan in Hopen.
      destruct (Vars.openFormattingTag st), (Vars.openTagVocalist st);
        try discriminate.
      destruct (truthy (Some s) && truthy (Some s0)); [|discriminate].
      injection Hopen as _ <-. reflexivity. }
    destruct (includes _ trimmedLine); eapply Hrecord; eauto.
  - destruct (firstMatch openTag trimmedLine), (firstMatch closeTag trimmedLine);
      eapply Hrecord; eauto.
Qed.

End LoopFacts.

(* ------------------------------------------------------------------ *)
(** ** Invariants of the loop over the lines *)

Module ParseFacts.
Import JSString Patterns JSObject JSObjectFacts StringFacts TotalityFacts LineFacts.
Import ScanFacts DictFacts LoopFacts.

Lemma indexOf_none (c : ascii) (s : string) :
  all (isNot c) s = true -> indexOf c s = None.
Proof.
  induction s as [|d r IH]; cbn [all indexOf]; [reflexivity|].
  intros H. apply andb_prop in H as [Hd Hr]. unfold isNot in Hd.
  apply negb_true_iff in Hd. rewrite Hd, (IH Hr). reflexivity.
Qed.

Lemma sectionHeader_keeps (p : ascii -> bool) (t c : string) :
  sectionHeader t = Some c -> all p t = true -> all p c = true.
Proof.
  intros H Hall. apply sectionHeader_spec in H as (-> & _ & _).
  change ("[" ++ c ++ "]")%string with (String "[" (c ++ "]")) in Hall.
  cbn [all] in Hall. apply andb_prop in Hall as [_ Hall].
  rewrite WordFacts.all_append in Hall. apply andb_prop in Hall as [Hall _].
  exact Hall.
Qed.

(** *** Subsequences *)

Lemma subsequence_snoc_keep {A : Type} (x : A) (l1 l2 : list A) :
  subsequence l1 l2 -> subsequence (l1 ++ [x]) (l2 ++ [x]).
Proof.
  induction 1; cbn [app].
  - apply subsequence_keep, subsequence_nil.
  - apply subsequence_keep. assumption.
  - apply subsequence_skip. assumption.
Qed.

Lemma subsequence_snoc_skip {A : Type} (x : A) (l1 l2 : list A) :
  subsequence l1 l2 -> subsequence l1 (l2 ++ [x]).
Proof.
  induction 1; cbn [app].
  - apply subsequence_skip, subsequence_nil.
  - apply subsequence_keep. assumption.
  - apply subsequence_skip. assumption.
Qed.

Lemma subsequence_length {A : Type} (l1 l2 : list A) :
  subsequence l1 l2 -> List.length l1 <= List.length l2.
Proof. induction 1; cbn [List.length]; lia. Qed.

Lemma subsequence_in {A : Type} (l1 l2 : list A) :
  subsequence l1 l2 -> forall x, In x l1 -> In x l2.
Proof.
  induction 1; intros y Hy; [destruct Hy| |right; auto].
  destruct Hy as [<-|Hy]; [left; reflexivity|right; auto].
Qed.

(** *** The lines that are counted *)

Lemma countedLines_snoc (result : list ParsedLine) (l : ParsedLine) :
  countedLines (result ++ [l])
  = (countedLines result + if counted l then 1 else 0)%N.
Proof.
  unfold countedLines. rewrite filter_app, length_app. cbn [filter].
  destruct (counted l); cbn [List.length]; lia.
Qed.

Lemma countedWords_snoc (result : list ParsedLine) (l : ParsedLine) :
  countedWords (result ++ [l])
  = (countedWords result + if counted l then wordCount (line l) else 0)%N.
Proof.
  unfold countedWords. rewrite filter_app. cbn [filter].
  induction (filter counted result) as [|x r IH]; cbn [app fold_right].
  - destruct (counted l); cbn [fold_right]; lia.
  - rewrite IH. lia.
Qed.

Lemma processLine_tallied (st : Vars.t) (l : string) (st' : Vars.t) :
  tallied st -> processLine st l = Return st' -> tallied st'.
Proof.
  intros Hst Hrun.
  apply processLine_cases in Hrun as [[_ ->]|[(_ & c & _ & Hrun)|[_ Hrun]]];
    [exact Hst| |].
  - apply headerLine_cases in Hrun as (Hr & Hs & _). unfold tallied.
    rewrite Hr, Hs. exact Hst.
  - apply lyricLine_cases in Hrun as [[_ ->]|(_ & v & _ & Hr & _ & _ & Hs)];
      [exact Hst|].
    destruct Hst as (Hdict & Hkeys & Hlines & Hwords). unfold tallied.
    rewrite Hr, countedLines_snoc, countedWords_snoc. unfold counted.
    cbn [vocalist line]. unfold get in Hs.
    destruct (getOwn v (Vars.vocalistStats st)) as [s|] eqn:Hown.
    + assert (Hin : In v (keys (Vars.vocalistStats st)))
        by (apply in_keys_getOwn; eauto).
      rewrite (Hkeys v Hin). cbn [negb]. rewrite Hs.
      apply dictionary_spec in Hdict as Hnd. destruct Hnd as [Hnd _].
      pose proof (sumOf_update lines v
                    {| lines := lines s + 1; words := words s + wordCount (trim l) |}
                    s _ Hnd Hown) as Hl.
      pose proof (sumOf_update words v
                    {| lines := lines s + 1; words := words s + wordCount (trim l) |}
                    s _ Hnd Hown) as Hw.
      cbn [lines words] in Hl, Hw.
      split; [apply dictionary_update, Hdict|].
      split; [rewrite keys_update; exact Hkeys|]. split; lia.
    + destruct (inherited v) eqn:Hinh.
      * rewrite Hs. cbn [negb]. rewrite !N.add_0_r. auto.
      * rewrite Hs. cbn [negb]. rewrite !sumOf_define. cbn [lines words].
        split.
        { apply dictionary_define; [apply inherited_proto, Hinh| |exact Hdict].
          apply getOwn_none, Hown. }
        split; [|split; lia].
        intros k Hk. destruct (define_split v (Vars.vocalistStats st))
          as (l1 & l2 & Ho & Hd).
        rewrite Hd in Hk. rewrite Ho in Hkeys. unfold keys in *.
        rewrite map_app in *. cbn [map fst] in Hk.
        apply in_app_or in Hk as [Hk|[<-|Hk]];
          [apply Hkeys, in_or_app; left; exact Hk|exact Hinh
          |apply Hkeys, in_or_app; right; exact Hk].
Qed.

Lemma parse_tallied (lyricsText : string) :
  exists st,
    forOf processLine (splitBy (literal newline) lyricsText) initial = Return st
    /\ tallied st.
Proof.
  apply (forOf_invariant processLine (fun _ => tallied));
    [apply processLine_returns| |].
  - intros seen st l st' _. apply processLine_tallied.
  - unfold tallied. cbn. repeat split. intros k [].
Qed.

(** *** Where the vocalists come from *)

Lemma listedIn_more (seen : list string) (l v : string) :
  listedIn seen v -> listedIn (seen ++ [l]) v.
Proof.
  intros (h & Hh & Hv). exists h. split; [apply in_or_app; left; exact Hh|exact Hv].
Qed.

Lemma processLine_sourced (seen : list string) (st : Vars.t) (l : string)
  (st' : Vars.t) :
  sourced seen st -> processLine st l = Return st' -> sourced (seen ++ [l]) st'.
Proof.
  intros (Hmap & Hopen & Hres) Hrun.
  assert (Hold : sourced (seen ++ [l]) st).
  { split; [|split]; intros; apply listedIn_more; auto. }
  pose proof Hrun as Hcases.
  apply processLine_cases in Hcases as [[_ ->]|[(_ & c & Hc & Hh)|[_ Hlyric]]];
    [exact Hold| |].
  - apply headerLine_cases in Hh as (Hr & _ & _ & Ho & Hm).
    split; [|split].
    + intros k Hk. destruct (indexOf ":" c) as [i|] eqn:Hi.
      * exists l. split; [apply in_or_app; right; left; reflexivity|].
        unfold headerVocalists. rewrite Hc, Hi, Hm. exact Hk.
      * rewrite Hm in Hk. apply listedIn_more, Hmap, Hk.
    + intros v Hv. rewrite Ho in Hv. discriminate.
    + intros x Hx. rewrite Hr in Hx. apply listedIn_more, Hres, Hx.
  - apply lyricLine_cases in Hlyric
      as [[_ ->]|(Hne & v & Hv & Hr & Hm & Ho & _)]; [exact Hold|].
    assert (Hlisted : listedIn (seen ++ [l]) v).
    { apply listedIn_more. destruct Hv as [Hv| ->]; [apply Hopen, Hv|].
      apply Hmap, ProtoFacts.determineVocalist_in.
      intros Hnil. apply Hne. rewrite Hnil. reflexivity. }
    split; [|split].
    + intros k Hk. rewrite Hm in Hk. apply listedIn_more, Hmap, Hk.
    + intros w Hw. destruct Ho as [Ho|[Ho|Ho]]; rewrite Ho in Hw.
      * discriminate.
      * apply listedIn_more, Hopen, Hw.
      * injection Hw as <-. exact Hlisted.
    + intros x Hx. rewrite Hr in Hx.
      apply in_app_or in Hx as [Hx|[<-|[]]];
        [apply listedIn_more, Hres, Hx|exact Hlisted].
Qed.

(** *** The attributed lines are lines of the text *)

Lemma processLine_lines (seen : list string) (st : Vars.t) (l : string)
  (st' : Vars.t) :
  subsequence (map line (Vars.result st)) (map trim (filter isLyric seen)) ->
  processLine st l = Return st' ->
  subsequence (map line (Vars.result st'))
              (map trim (filter isLyric (seen ++ [l]))).
Proof.
  intros Hst Hrun. rewrite filter_app. cbn [filter].
  apply processLine_cases in Hrun as [[Hblank ->]|[(Hl & c & _ & Hrun)|[Hl Hrun]]].
  - unfold isLyric. rewrite Hblank. cbn [andb]. rewrite app_nil_r. exact Hst.
  - rewrite Hl, app_nil_r. apply headerLine_cases in Hrun as (-> & _). exact Hst.
  - rewrite Hl, map_app. cbn [map].
    apply lyricLine_cases in Hrun as [[_ ->]|(_ & v & _ & -> & _)].
    + apply subsequence_snoc_skip, Hst.
    + rewrite map_app. cbn [map line]. apply subsequence_snoc_keep, Hst.
Qed.

(** *** The map of a header *)

Lemma assign_dictionary (vs : list VocalistSpec) :
  forall o : JSObject.t Format,
    dictionary o = true -> dictionary (fold_left assign vs o) = true.
Proof.
  induction vs as [|v vs IH]; intros o Ho; cbn [fold_left]; [exact Ho|].
  apply IH. unfold assign. apply dictionary_set, Ho.
Qed.

Lemma assign_entries (vs : list VocalistSpec) :
  forall (o : JSObject.t Format) k f,
    In (k, f) (fold_left assign vs o) ->
    In (k, f) o \/ exists v, In v vs /\ name v = k /\ format v = f.
Proof.
  induction vs as [|v vs IH]; intros o k f Hin; cbn [fold_left] in Hin;
    [left; exact Hin|].
  apply IH in Hin as [Hin|(w & Hw & Hn & Hf)].
  - unfold assign in Hin. apply in_set in Hin as [Hin|Hin]; [|left; exact Hin].
    injection Hin as -> ->. right. exists v. split; [left; reflexivity|auto].
  - right. exists w. split; [right; exact Hw|auto].
Qed.

Lemma assign_untouched (vs : list VocalistSpec) (k : string) :
  forall o : JSObject.t Format,
    (forall v, In v vs -> name v <> k) ->
    getOwn k (fold_left assign vs o) = getOwn k o.
Proof.
  induction vs as [|v vs IH]; intros o Hvs; cbn [fold_left]; [reflexivity|].
  rewrite IH by (intros w Hw; apply Hvs; right; exact Hw).
  unfold assign. rewrite getOwn_set.
  destruct (name v =? "__proto__"); [reflexivity|].
  destruct (String.eqb_spec (name v) k) as [Hk|_]; [|reflexivity].
  exfalso. apply (Hvs v); [left; reflexivity|exact Hk].
Qed.

(** The format of a listed name is the one of its last mention. *)
Lemma assign_last (vs : list VocalistSpec) (k : string) :
  k <> "__proto__" ->
  forall o : JSObject.t Format,
    (exists v, In v vs /\ name v = k) ->
    exists v, In v vs /\ name v = k
              /\ getOwn k (fold_left assign vs o) = Some (format v).
Proof.
  intros Hk. induction vs as [|v vs IH]; intros o (w & Hw & Hname);
    [destruct Hw|].
  cbn [fold_left].
  destruct (in_dec string_dec k (map name vs)) as [Hin|Hout].
  - apply in_map_iff in Hin as (x & Hx & Hxin).
    destruct (IH (assign o v)) as (y & Hy & Hyk & Hget); [eauto|].
    exists y. split; [right; exact Hy|auto].
  - destruct Hw as [->|Hw].
    + exists w. split; [left; reflexivity|]. split; [exact Hname|].
      rewrite assign_untouched.
      * unfold assign. rewrite getOwn_set, Hname.
        apply String.eqb_neq in Hk. rewrite Hk, String.eqb_refl. reflexivity.
      * intros x Hx Hxk. apply Hout. apply in_map_iff. eauto.
    + exfalso. apply Hout. apply in_map_iff. eauto.
Qed.

(** *** The statistics are enumerated in the order of the language *)

Lemma processLine_enumerated (st : Vars.t) (l : string) (st' : Vars.t) :
  enumerated (keys (Vars.vocalistStats st)) = true ->
  processLine st l = Return st' ->
  enumerated (keys (Vars.vocalistStats st')) = true.
Proof.
  intros Hst Hrun.
  apply processLine_cases in Hrun as [[_ ->]|[(_ & c & _ & Hrun)|[_ Hrun]]];
    [exact Hst| |].
  - apply headerLine_cases in Hrun as (_ & -> & _). exact Hst.
  - apply lyricLine_cases in Hrun as [[_ ->]|(_ & v & _ & _ & _ & _ & Hs)];
      [exact Hst|].
    unfold get in Hs. destruct (getOwn v (Vars.vocalistStats st)) eqn:Hown.
    + rewrite Hs, keys_update. exact Hst.
    + destruct (inherited v); rewrite Hs; [exact Hst|].
      apply EnumFacts.enumerated_define; [apply getOwn_none, Hown|exact Hst].
Qed.

End ParseFacts.

(* ------------------------------------------------------------------ *)
(** ** Words, lines and texts *)

Module TextFacts.
Import JSString Patterns StringFacts WordFacts ScanFacts TotalityFacts LineFacts.
Import StatsFacts.

(** *** The pieces between the runs of white space *)

Lemma splitFrom_skip (m : Matcher) :
  forall s k, splitFrom m k s = splitFrom m 0 (drop k s).
Proof.
  induction s as [|c r IH]; intros [|k]; cbn [splitFrom drop]; auto.
Qed.

Lemma splitFrom_cons (m : Matcher) (s : string) (k : nat) :
  exists piece pieces, splitFrom m k s = piece :: pieces.
Proof.
  revert k. induction s as [|c r IH]; intros k; cbn [splitFrom]; [eauto|].
  destruct k as [|k]; [|apply IH].
  destruct (m (String c r)) as [[|j]|]; eauto;
    destruct (IH 0) as (piece & pieces & ->); eauto.
Qed.

Lemma split_text (c : ascii) (r : string) :
  isWhiteSpace c = false ->
  exists piece pieces,
    splitBy whiteSpaces r = piece :: pieces
    /\ splitBy whiteSpaces (String c r) = String c piece :: pieces.
Proof.
  intros Hc. unfold splitBy.
  destruct (splitFrom_cons whiteSpaces r 0) as (piece & pieces & Hr).
  exists piece, pieces. split; [exact Hr|].
  cbn [splitFrom]. unfold whiteSpaces at 1. cbn [run]. rewrite Hc, Hr. reflexivity.
Qed.

Lemma split_space (c : ascii) (r : string) :
  isWhiteSpace c = true ->
  splitBy whiteSpaces (String c r)
  = "" :: splitBy whiteSpaces (drop (run isWhiteSpace r) r).
Proof.
  intros Hc. unfold splitBy. cbn [splitFrom]. unfold whiteSpaces at 1.
  cbn [run]. rewrite Hc. cbn [Nat.ltb Nat.leb]. rewrite splitFrom_skip. reflexivity.
Qed.

Lemma countWords_skip (r : string) :
  countWords false (drop (run isWhiteSpace r) r) = countWords false r.
Proof.
  induction r as [|c r IH]; [reflexivity|]. cbn [run].
  destruct (isWhiteSpace c) eqn:Hc; cbn [drop countWords].
  - rewrite Hc. exact IH.
  - reflexivity.
Qed.

Lemma wordsIn_cons (piece : string) (pieces : list string) :
  wordsIn (piece :: pieces)
  = ((if nonEmpty piece then 1 else 0) + wordsIn pieces)%N.
Proof.
  unfold wordsIn. cbn [filter]. destruct piece; cbn [String.length nonEmpty];
    cbn [Nat.ltb Nat.leb List.length]; lia.
Qed.

Lemma split_counts (s : string) :
  forall k,
    match splitBy whiteSpaces (drop k s) with
    | piece :: pieces =>
        wordsIn (piece :: pieces) = countWords false (drop k s)
        /\ wordsIn pieces = countWords true (drop k s)
    | [] => False
    end.
Proof.
  induction s as [|c r IH]; intros k.
  - rewrite drop_nil. cbn. auto.
  - destruct k as [|k]; [|apply IH]. cbn [drop].
    destruct (isWhiteSpace c) eqn:Hc.
    + rewrite (split_space _ _ Hc). cbn [countWords]. rewrite Hc.
      specialize (IH (run isWhiteSpace r)).
      destruct (splitBy whiteSpaces (drop (run isWhiteSpace r) r))
        as [|piece pieces]; [destruct IH|].
      destruct IH as [IH _]. rewrite countWords_skip in IH.
      rewrite (wordsIn_cons ""). cbn [nonEmpty]. rewrite IH. split; lia.
    + destruct (split_text c r Hc) as (piece & pieces & Hr & ->).
      specialize (IH 0). cbn [drop] in IH. rewrite Hr in IH.
      destruct IH as [_ IH]. cbn [countWords]. rewrite Hc.
      rewrite wordsIn_cons. cbn [nonEmpty]. rewrite IH. split; lia.
Qed.

(** *** The lines of a text *)

Lemma split_line (a rest : string) :
  all (isNot "010") a = true ->
  splitBy (literal newline) (a ++ newline ++ rest)
  = a :: splitBy (literal newline) rest.
Proof.
  intros Ha. unfold splitBy. induction a as [|c a IH].
  - reflexivity.
  - cbn [all] in Ha. apply andb_prop in Ha as [Hc Ha].
    change ((String c a ++ newline ++ rest)%string)
      with (String c (a ++ newline ++ rest)).
    cbn [splitFrom]. unfold literal at 1. unfold newline at 1. cbn [startsWith].
    unfold isNot in Hc. apply negb_true_iff in Hc.
    rewrite Ascii.eqb_sym, Hc. cbn [andb]. rewrite (IH Ha). reflexivity.
Qed.

Lemma split_last (a : string) :
  all (isNot "010") a = true -> splitBy (literal newline) a = [a].
Proof.
  intros Ha. unfold splitBy. induction a as [|c a IH]; [reflexivity|].
  cbn [all] in Ha. apply andb_prop in Ha as [Hc Ha].
  cbn [splitFrom]. unfold literal at 1. unfold newline at 1. cbn [startsWith].
  unfold isNot in Hc. apply negb_true_iff in Hc.
  rewrite Ascii.eqb_sym, Hc. cbn [andb]. rewrite (IH Ha). reflexivity.
Qed.

(** The lines of the text made of the lines [ls]. *)
Lemma split_textOf (ls : list string) :
  Forall (fun l => all (isNot "010") l = true) ls ->
  splitBy (literal newline) (textOf ls)
  = match ls with [] => [""] | _ => ls end.
Proof.
  unfold textOf. induction 1 as [|l ls Hl Hls IH]; [reflexivity|].
  cbn [String.concat]. destruct ls as [|l' ls'].
  - apply split_last, Hl.
  - rewrite (split_line _ _ Hl), IH. reflexivity.
Qed.

Lemma processLine_blank (st : Vars.t) (l : string) :
  notBlank l = false -> processLine st l = Return st.
Proof.
  unfold notBlank, processLine. intros ->. reflexivity.
Qed.

Lemma processLine_trim (st : Vars.t) (l : string) :
  processLine st (trim l) = processLine st l.
Proof.
  unfold processLine. rewrite trim_idempotent. reflexivity.
Qed.

Lemma forOf_trimmed (ls : list string) :
  forall st,
    forOf processLine (map trim (filter notBlank ls)) st
    = forOf processLine ls st.
Proof.
  induction ls as [|l ls IH]; intros st; [reflexivity|].
  cbn [filter forOf]. destruct (notBlank l) eqn:Hl.
  - cbn [map forOf]. rewrite processLine_trim.
    destruct (processLine st l); cbn [bind]; auto.
  - rewrite (processLine_blank _ _ Hl). cbn [bind]. apply IH.
Qed.

Lemma forOf_app {S X : Type} (body : S -> X -> Outcome S) (xs ys : list X) :
  forall st,
    forOf body (xs ++ ys) st = bind (forOf body xs st) (forOf body ys).
Proof.
  induction xs as [|x xs IH]; intros st; cbn [app forOf bind]; [reflexivity|].
  destruct (body st x); cbn [bind]; auto.
Qed.

Lemma forOf_grows (ls : list string) :
  forall st st',
    forOf processLine ls st = Return st' ->
    exists more, Vars.result st' = Vars.result st ++ more.
Proof.
  induction ls as [|l ls IH]; intros st st' Hrun; cbn [forOf] in Hrun.
  - injection Hrun as <-. exists []. rewrite app_nil_r. reflexivity.
  - destruct (processLine st l) as [st1| |] eqn:Hl; try discriminate.
    cbn [bind] in Hrun. destruct (IH _ _ Hrun) as (more & ->).
    apply LoopFacts.processLine_cases in Hl
      as [[_ ->]|[(_ & c & _ & Hl)|[_ Hl]]]; [eauto| |].
    + apply LoopFacts.headerLine_cases in Hl as (-> & _). eauto.
    + apply LoopFacts.lyricLine_cases in Hl as [[_ ->]|(_ & v & _ & -> & _)];
        [eauto|].
      rewrite <- app_assoc. eauto.
Qed.

(** *** A vocalist list without markup *)

Lemma searchFrom_nowhere {A : Type} (m : string -> option A) (s : string) :
  (forall k, m (drop k s) = None) -> forall p, searchFrom m p s = None.
Proof.
  induction s as [|c r IH]; intros H p; cbn [searchFrom].
  - pose proof (H 0) as H0. cbn [drop] in H0. rewrite H0. reflexivity.
  - pose proof (H 0) as H0. cbn [drop] in H0. rewrite H0.
    apply IH. intros k. apply (H (S k)).
Qed.

Lemma tagged_nowhere (open close text : string) :
  startsWith "<" open = true ->
  all (isNot "<") text = true ->
  forall k, tagged open close (drop k text) = None.
Proof.
  intros Hopen Hall k. pose proof (all_drop _ _ k Hall) as Hk.
  unfold tagged. destruct (startsWith open (drop k text)) eqn:Hs; [|reflexivity].
  exfalso. destruct open as [|o open']; [discriminate|].
  destruct (drop k text) as [|c r]; [discriminate|].
  cbn [startsWith] in Hopen, Hs. cbn [all] in Hk.
  apply andb_prop in Hopen as [Ho _]. apply andb_prop in Hs as [Hc _].
  apply andb_prop in Hk as [Hk _].
  apply Ascii.eqb_eq in Ho, Hc. subst. discriminate.
Qed.

Lemma collectMatches_plain (text : string) :
  all (isNot "<") text = true -> collectMatches text = Return [].
Proof.
  intros Hall.
  assert (Hloop : forall open close fmt acc,
             startsWith "<" open = true ->
             execLoop (S (String.length text)) (tagged open close) fmt text 0 acc
             = Return acc).
  { intros open close fmt acc Hopen. cbn [execLoop]. unfold exec.
    cbn [Nat.ltb Nat.leb drop].
    rewrite (searchFrom_nowhere _ _ (tagged_nowhere open close text Hopen Hall)).
    reflexivity. }
  unfold collectMatches, patterns. cbn [forOf fst snd].
  repeat (rewrite Hloop by reflexivity; cbn [bind]). reflexivity.
Qed.

Lemma linesOf_app (k : string) (result more : list ParsedLine) :
  (linesOf k result <= linesOf k (result ++ more))%N.
Proof.
  unfold linesOf. induction result as [|l r IH]; cbn [app fold_right]; [lia|].
  destruct (vocalist l =? k); lia.
Qed.

Lemma wordsOf_app (k : string) (result more : list ParsedLine) :
  (wordsOf k result <= wordsOf k (result ++ more))%N.
Proof.
  unfold wordsOf. induction result as [|l r IH]; cbn [app fold_right]; [lia|].
  destruct (vocalist l =? k); lia.
Qed.

End TextFacts.

(* ------------------------------------------------------------------ *)
(** ** Sizes: the counts of a parse are bounded by the length of the text *)

Module SizeFacts.
Import JSString Patterns JSObject JSObjectFacts StringFacts WordFacts ScanFacts.
Import TotalityFacts LineFacts ParseFacts TextFacts.

Lemma splitFrom_sizes (m : Matcher) :
  forall s skip, sizes (splitFrom m skip s) <= String.length s.
Proof.
  induction s as [|c r IH]; intros skip; cbn [splitFrom String.length].
  - unfold sizes. cbn [fold_right String.length]. lia.
  - destruct skip as [|k]; [|specialize (IH k); lia].
    assert (Hkeep : sizes match splitFrom m 0 r with
                          | piece :: pieces => String c piece :: pieces
                          | [] => [String c ""]
                          end <= S (String.length r)).
    { specialize (IH 0). destruct (splitFrom m 0 r) as [|piece pieces];
        unfold sizes in *; cbn [fold_right String.length] in *; lia. }
    destruct (m (String c r)) as [[|k]|]; try exact Hkeep.
    specialize (IH k). unfold sizes in *. cbn [fold_right String.length] in *. lia.
Qed.

Lemma replaceAllFrom_shorter (m : Matcher) :
  forall s skip,
    String.length (replaceAllFrom m "" skip s) <= String.length s.
Proof.
  induction s as [|c r IH]; intros skip; cbn [replaceAllFrom String.length]; [lia|].
  destruct skip as [|k]; [|specialize (IH k); lia].
  destruct (m (String c r)) as [[|k]|]; cbn [append String.length].
  - specialize (IH 0). lia.
  - specialize (IH k). lia.
  - specialize (IH 0). lia.
Qed.

Lemma trim_shorter (s : string) : String.length (trim s) <= String.length s.
Proof.
  destruct (trim_split s) as (a & b & _ & _ & Hs).
  apply (f_equal String.length) in Hs. rewrite !length_append in Hs. lia.
Qed.

Lemma countWords_length (s : string) :
  forall inWord, (countWords inWord s <= N.of_nat (String.length s))%N.
Proof.
  induction s as [|c r IH]; intros inWord; cbn [countWords String.length]; [lia|].
  destruct (isWhiteSpace c).
  - specialize (IH false). lia.
  - specialize (IH true). destruct inWord; lia.
Qed.

Lemma wordCount_length (t : string) :
  (wordCount t <= N.of_nat (String.length t))%N.
Proof.
  unfold wordCount.
  pose proof (split_counts (cleanText t) 0) as H. cbn [drop] in H.
  destruct (splitBy whiteSpaces (cleanText t)) as [|piece pieces]; [destruct H|].
  destruct H as [H _]. unfold wordsIn in H. rewrite H.
  pose proof (countWords_length (cleanText t) false) as Hc.
  assert (Hl : String.length (cleanText t) <= String.length t).
  { unfold cleanText. pose proof (trim_shorter (replaceAll anyTag "" t)).
    pose proof (replaceAllFrom_shorter anyTag t 0). unfold replaceAll in *. lia. }
  lia.
Qed.

Lemma subsequence_sizes (l1 l2 : list string) :
  subsequence l1 l2 -> sizes l1 <= sizes l2.
Proof. unfold sizes. induction 1; cbn [fold_right] in *; lia. Qed.

Lemma lengthOf_sizes (result : list ParsedLine) :
  lengthOf result = sizes (map line result).
Proof.
  unfold lengthOf, sizes.
  induction result as [|l r IH]; cbn [fold_right map]; [reflexivity|].
  rewrite IH. reflexivity.
Qed.

Lemma trimmed_sizes (ls : list string) :
  sizes (map trim (filter isLyric ls)) <= sizes ls.
Proof.
  unfold sizes.
  induction ls as [|l ls IH]; cbn [filter fold_right map]; [lia|].
  destruct (isLyric l); cbn [map fold_right] in *.
  - pose proof (trim_shorter l). lia.
  - lia.
Qed.

Lemma countedLines_length (result : list ParsedLine) :
  Forall (fun l => nonEmpty (line l) = true) result ->
  (countedLines result <= N.of_nat (lengthOf result))%N.
Proof.
  unfold countedLines. induction 1 as [|l r Hl Hr IH]; cbn [filter lengthOf fold_right].
  - cbn. lia.
  - apply nonEmpty_length in Hl. fold (lengthOf r).
    destruct (counted l); cbn [List.length]; lia.
Qed.

Lemma countedWords_length (result : list ParsedLine) :
  (countedWords result <= N.of_nat (lengthOf result))%N.
Proof.
  unfold countedWords.
  induction result as [|l r IH]; cbn [filter lengthOf fold_right]; [cbn; lia|].
  fold (lengthOf r). pose proof (wordCount_length (line l)).
  destruct (counted l); cbn [fold_right]; lia.
Qed.

End SizeFacts.


(* ------------------------------------------------------------------ *)
(** ** The claims about the statistics summary *)

(** C4.  For every VocalistStats mapping given to [generateStatsSummary]
    (counts within the range of the integers that a Number holds
    exactly): [totalLines] and [totalWords] are the sums of the [lines]
    and [words] fields, [vocalistCount] is the number of vocalist names,
    and every vocalist has its counts together with the two percentages.
    A percentage is [count / total * 100], computed in binary64 and
    rounded by [toFixed(1)] to one decimal place: the string, with one
    decimal, of the tenth nearest to that value, half way cases going up;
    it is 0 when its total is zero.  The empty mapping gives zero totals,
    a zero count and an empty mapping. *)
Theorem generateStatsSummary_totals_and_percentages
  (vocalistStats : JSObject.t Stats) :
  dictionary vocalistStats = true ->
  (sumOf lines vocalistStats < 2 ^ 53)%N ->
  (sumOf words vocalistStats < 2 ^ 53)%N ->
  let summary := generateStatsSummary vocalistStats in
  totalLines summary = sumOf lines vocalistStats
  /\ totalWords summary = sumOf words vocalistStats
  /\ vocalistCount summary = List.length (JSObject.keys vocalistStats)
  /\ (forall vocalist,
        JSObject.getOwn vocalist (vocalistPercentages summary)
        = option_map (summaryEntry (totalLines summary) (totalWords summary))
                     (JSObject.getOwn vocalist vocalistStats))
  /\ (forall vocalist stats,
        JSObject.getOwn vocalist vocalistStats = Some stats ->
        roundedPercentage (lines stats) (totalLines summary)
          (percentage (lines stats) (totalLines summary))
        /\ roundedPercentage (words stats) (totalWords summary)
             (percentage (words stats) (totalWords summary)))
  /\ generateStatsSummary []
     = {| totalLines := 0; totalWords := 0; vocalistCount := 0;
          vocalistPercentages := [] |}.
Proof.
  intros Hdict Hlines Hwords summary.
  assert (Htl : totalLines summary = sumOf lines vocalistStats).
  { unfold summary, generateStatsSummary, sumOf. simpl.
    rewrite SummaryFacts.sum_fold. lia. }
  assert (Htw : totalWords summary = sumOf words vocalistStats).
  { unfold summary, generateStatsSummary, sumOf. simpl.
    rewrite SummaryFacts.sum_fold. lia. }
  split; [exact Htl|]. split; [exact Htw|]. split; [reflexivity|].
  split.
  { intros vocalist. unfold summary.
    rewrite SummaryFacts.generateStatsSummary_unfold.
    rewrite (SummaryFacts.fold_getOwn _ _ _ Hdict). simpl.
    destruct (JSObject.getOwn vocalist vocalistStats); reflexivity. }
  split; [|reflexivity].
  intros vocalist stats Hget. apply JSObjectFacts.getOwn_in in Hget.
  rewrite Htl, Htw. split; apply SummaryFacts.percentage_rounded;
    try assumption; apply (SummaryFacts.count_le_sum _ vocalist); exact Hget.
Qed.

Lemma generateStatsSummary_totals_and_percentages_witness :
  let summary :=
    generateStatsSummary
      [ ("Nick Carter", {| lines := 4; words := 16 |});
        ("Brian Littrell", {| lines := 2; words := 12 |});
        ("AJ McLean", {| lines := 2; words := 8 |}) ] in
  totalLines summary = 8%N
  /\ totalWords summary = 36%N
  /\ JSObject.getOwn "AJ McLean" (vocalistPercentages summary)
     = Some {| linesPercentage := PercentString (Number.Decimal "25.0");
               wordsPercentage := PercentString (Number.Decimal "22.2");
               counts := {| lines := 2; words := 8 |} |}.
Proof.
  pose proof (generateStatsSummary_totals_and_percentages
                [ ("Nick Carter", {| lines := 4; words := 16 |});
                  ("Brian Littrell", {| lines := 2; words := 12 |});
                  ("AJ McLean", {| lines := 2; words := 8 |}) ]
                eq_refl eq_refl eq_refl) as H.
  cbv zeta in H. destruct H as (Hl & Hw & _ & Hget & _).
  split; [|split].
  - rewrite Hl. reflexivity.
  - rewrite Hw. reflexivity.
  - rewrite Hget. vm_compute. reflexivity.
Defined.

(** C10.  In the result of [generateStatsSummary] the two percentages of a
    vocalist do not have one type: with a positive total the value is the
    string made by [toFixed(1)] (["33.3"] for one line out of three), and
    it is the number 0 only when the total is zero. *)
Theorem percentages_are_strings_unless_total_is_zero
  (vocalistStats : JSObject.t Stats) (vocalist : string) (r : VocalistSummary) :
  In (vocalist, r) (vocalistPercentages (generateStatsSummary vocalistStats)) ->
  let summary := generateStatsSummary vocalistStats in
  ((0 < totalLines summary)%N ->
   exists x, linesPercentage r = PercentString (Number.toFixed1 x))
  /\ (totalLines summary = 0%N -> linesPercentage r = PercentNumber 0)
  /\ ((0 < totalWords summary)%N ->
      exists x, wordsPercentage r = PercentString (Number.toFixed1 x))
  /\ (totalWords summary = 0%N -> wordsPercentage r = PercentNumber 0)
  /\ percentage 1 3 = PercentString (Number.Decimal "33.3").
Proof.
  intros Hin summary.
  rewrite SummaryFacts.generateStatsSummary_unfold in Hin.
  apply SummaryFacts.fold_in in Hin as [[]|[st [_ Hr]]].
  fold summary in Hr. subst r. simpl.
  repeat split.
  - intros H. eexists. apply SummaryFacts.percentage_cases. exact H.
  - intros H. apply SummaryFacts.percentage_cases. exact H.
  - intros H. eexists. apply SummaryFacts.percentage_cases. exact H.
  - intros H. apply SummaryFacts.percentage_cases. exact H.
Qed.

Lemma percentages_are_strings_unless_total_is_zero_witness :
  (exists x,
     PercentString (Number.Decimal "33.3") = PercentString (Number.toFixed1 x))
  /\ percentage 1 3 = PercentString (Number.Decimal "33.3").
Proof.
  pose proof (percentages_are_strings_unless_total_is_zero
                [ ("a", {| lines := 1; words := 2 |});
                  ("b", {| lines := 2; words := 0 |}) ]
                "a"
                {| linesPercentage := PercentString (Number.Decimal "33.3");
                   wordsPercentage := PercentString (Number.Decimal "100.0");
                   counts := {| lines := 1; words := 2 |} |}) as H.
  cbv zeta in H.
  destruct H as (Hl & _ & _ & _ & Hex).
  - vm_compute. left. reflexivity.
  - split; [|exact Hex]. apply Hl. vm_compute. reflexivity.
Defined.

(* ------------------------------------------------------------------ *)
(** ** The claims about the parsing of a vocalist list *)

(** C6.  [parseVocalists] applied to ["AJ, <i>AJ & Brian</i>"] returns the
    map with exactly the two entries ["AJ"], plain, and ["AJ & Brian"],
    italic: the ampersand inside the italic span does not split the duo
    name, the comma of the untagged rest does split. *)
Theorem parseVocalists_keeps_duo_inside_span :
  parseVocalists "AJ, <i>AJ & Brian</i>"
  = Return [ ("AJ & Brian", Italic); ("AJ", Plain) ]
  /\ extractTaggedVocalists "AJ, <i>AJ & Brian</i>"
     = Return ([ {| name := "AJ & Brian"; format := Italic |} ], "AJ")
  /\ parseUntaggedText "AJ" = [ {| name := "AJ"; format := Plain |} ].
Proof. repeat split; vm_compute; reflexivity. Qed.

(** C7.  [parseVocalists] applied to ["Nick <i>with Brian</i>"] returns the
    map with exactly the two entries ["Nick"], plain, and ["Brian"],
    italic: the inner text of a tagged span that begins (once trimmed, as
    [content] is) with the letters of "with " in either case has this
    prefix removed, and what remains, trimmed, is the name. *)
Theorem parseVocalists_strips_with_prefix (m : TagMatch) (w rest : string) :
  content m = (w ++ rest)%string ->
  toLowerCase w = "with " ->
  parseVocalists "Nick <i>with Brian</i>"
  = Return [ ("Brian", Italic); ("Nick", Plain) ]
  /\ taggedName m = trim rest.
Proof.
  intros Hcontent Hw. split; [vm_compute; reflexivity|].
  unfold taggedName. rewrite Hcontent.
  destruct w as [|c1 [|c2 [|c3 [|c4 [|c5 [|c6 w]]]]]]; try discriminate.
  simpl in Hw. injection Hw as H1 H2 H3 H4 H5.
  unfold substringFrom. simpl. rewrite H1, H2, H3, H4, H5. reflexivity.
Qed.

Lemma parseVocalists_strips_with_prefix_witness :
  parseVocalists "Nick <i>with Brian</i>"
  = Return [ ("Brian", Italic); ("Nick", Plain) ]
  /\ taggedName {| fullMatch := "<i>With  Kevin</i>"; content := "With  Kevin";
                   tagFormat := Italic; start := 6; stop := 24 |}
     = "Kevin".
Proof.
  exact (parseVocalists_strips_with_prefix
           {| fullMatch := "<i>With  Kevin</i>"; content := "With  Kevin";
              tagFormat := Italic; start := 6; stop := 24 |}
           "With " " Kevin" eq_refl eq_refl).
Defined.

(* ------------------------------------------------------------------ *)
(** ** The claims about the line loop *)

(** C5.  For every input string [parseLyricsWithVocalists] ends and
    returns a [{ parsedLyrics, vocalistStats }] result: no input makes it
    raise, and the loops of [exec] stay within their bound.  Three inputs
    of the shapes the specification lists are run as well: an unmatched
    tag, an empty vocalist list after the colon, a header without colon. *)
Theorem parseLyricsWithVocalists_always_returns (lyricsText : string) :
  (exists r, parseLyricsWithVocalists lyricsText = Return r)
  /\ parseLyricsWithVocalists
       (textOf [ "[Verse: <b>Nick, </i>Brian]"; "<b>unclosed"; "</i>stray" ])
     = Return
         {| parsedLyrics :=
              [ {| vocalist := "<b>Nick"; line := "<b>unclosed" |};
                {| vocalist := "<b>Nick"; line := "</i>stray" |} ];
            vocalistStats := [ ("<b>Nick", {| lines := 2; words := 2 |}) ] |}
  /\ parseLyricsWithVocalists (textOf [ "[Verse: ]"; "la la" ])
     = Return {| parsedLyrics := []; vocalistStats := [] |}
  /\ parseLyricsWithVocalists (textOf [ "[Chorus]"; "la la" ])
     = Return {| parsedLyrics := []; vocalistStats := [] |}.
Proof.
  split; [|repeat split; vm_compute; reflexivity].
  unfold parseLyricsWithVocalists.
  destruct (TotalityFacts.forOf_returns processLine
              (splitBy (literal newline) lyricsText)
              TotalityFacts.processLine_returns initial) as [st ->].
  simpl. eauto.
Qed.

(** C3.  A header line, that is a line whose trimmed text is a bracketed
    [sectionContent], always sets [openFormattingTag] and
    [openTagVocalist] to null and leaves [result] and [vocalistStats]
    alone.  Without a colon in [sectionContent] the active map stays, and
    a lyric line that follows is attributed with it; with a colon the map
    becomes what [parseVocalists] returns for the trimmed text after the
    first colon. *)
Theorem header_resets_span_and_keeps_map_without_colon
  (st : Vars.t) (line sectionContent : string) :
  trim line = ("[" ++ sectionContent ++ "]")%string ->
  nonEmpty sectionContent = true ->
  all (isNot "]") sectionContent = true ->
  exists st',
    processLine st line = Return st'
    /\ Vars.openFormattingTag st' = None
    /\ Vars.openTagVocalist st' = None
    /\ Vars.result st' = Vars.result st
    /\ Vars.vocalistStats st' = Vars.vocalistStats st
    /\ match indexOf ":" sectionContent with
       | None =>
           Vars.currentVocalists st' = Vars.currentVocalists st
           /\ forall lyric,
                isLyric lyric = true ->
                (0 < List.length (JSObject.keys (Vars.currentVocalists st)))%nat ->
                exists st'',
                  processLine st' lyric = Return st''
                  /\ Vars.result st''
                     = Vars.result st
                       ++ [ attributed
                              (determineVocalist (trim lyric) (Vars.currentVocalists st))
                              lyric ]
       | Some colonIndex =>
           parseVocalists (trim (substringFrom (colonIndex + 1) sectionContent))
           = Return (Vars.currentVocalists st')
       end.
Proof.
  intros Hline Hne Hall.
  assert (Hheader : sectionHeader (trim line) = Some sectionContent)
    by (apply LineFacts.sectionHeader_spec; auto).
  unfold processLine at 1. rewrite Hheader.
  assert (Hblank : nonEmpty (trim line) = true) by (rewrite Hline; reflexivity).
  rewrite Hblank. cbn [negb]. unfold headerLine.
  destruct (indexOf ":" sectionContent) as [colonIndex|].
  - destruct (TotalityFacts.parseVocalists_returns
                (trim (substringFrom (colonIndex + 1) sectionContent)))
      as [vocalists Hparse].
    rewrite Hparse. cbn [bind]. eexists. repeat split.
  - eexists. split; [reflexivity|].
    do 5 (split; [reflexivity|]).
    intros lyric Hlyric Hmap.
    rewrite (LineFacts.processLine_lyric _ _ Hlyric).
    destruct (LineFacts.lyricLine_closed
                {| Vars.result := Vars.result st;
                   Vars.vocalistStats := Vars.vocalistStats st;
                   Vars.currentVocalists := Vars.currentVocalists st;
                   Vars.openFormattingTag := None;
                   Vars.openTagVocalist := None |}
                (trim lyric) eq_refl Hmap) as (stats & Hrun & _).
    rewrite Hrun. eexists. split; reflexivity.
Qed.

Lemma header_resets_span_and_keeps_map_without_colon_witness :
  exists st',
    processLine
      {| Vars.result := [];
         Vars.vocalistStats := [];
         Vars.currentVocalists := [ ("Nick", Plain); ("Brian", Bold) ];
         Vars.openFormattingTag := Some "b";
         Vars.openTagVocalist := Some "Brian" |}
      "  [Chorus]  "
    = Return st'
    /\ Vars.openFormattingTag st' = None
    /\ Vars.openTagVocalist st' = None
    /\ Vars.currentVocalists st' = [ ("Nick", Plain); ("Brian", Bold) ].
Proof.
  destruct (header_resets_span_and_keeps_map_without_colon
              {| Vars.result := [];
                 Vars.vocalistStats := [];
                 Vars.currentVocalists := [ ("Nick", Plain); ("Brian", Bold) ];
                 Vars.openFormattingTag := Some "b";
                 Vars.openTagVocalist := Some "Brian" |}
              "  [Chorus]  " "Chorus" eq_refl eq_refl eq_refl)
    as (st' & Hrun & Htag & Hvocalist & _ & _ & Hmap & _).
  exists st'. repeat split; assumption.
Defined.

(** The claim C1 as it stands fails on a first line whose opening marker
    [<b>] comes after an [<i>]: the span that opens is the italic one, and
    the [</b>] of the third line does not close it. *)
Lemma italic_marker_before_bold_keeps_span_open :
  includes "<b>" "<i><b>Start of section" = true
  /\ includes "</b>" "<i><b>Start of section" = false
  /\ includes "<b>" "This continues" = false
  /\ includes "</b>" "This continues" = false
  /\ includes "<b>" "End of section</b>" = false
  /\ includes "</b>" "End of section</b>" = true
  /\ exists st',
       forOf processLine
         [ "[Verse 1: <b>Test Singer</b>]"; "<i><b>Start of section";
           "This continues"; "End of section</b>" ]
         initial
       = Return st'
       /\ Vars.currentVocalists st' = [ ("Test Singer", Bold) ]
       /\ Vars.openFormattingTag st' = Some "i"
       /\ Vars.openTagVocalist st' = Some "Test Singer".
Proof.
  do 6 (split; [reflexivity|]).
  eexists. split; [vm_compute; reflexivity|]. repeat split.
Qed.

(** C1 (amended).  In a section whose map holds one vocalist, of format
    bold, who has no statistics yet and whose name is not a property that
    objects inherit, take three consecutive lyric lines such that the
    first contains [<b>], no italic marker and no closing marker, the
    second does not contain [</b>], and the third contains [</b>].  The
    three lines are attributed to that vocalist, [vocalistStats] records
    [lines = 3] for it, and no span is open after the third line.  In
    general, while a span of [tag] opened by [openVocalist] is open, a
    lyric line is attributed to [openVocalist], and the two variables
    become null exactly when the line contains the closing marker of
    [tag]; otherwise they stay. *)
Theorem open_span_attributes_lines_until_close
  (st : Vars.t) (singer : string) (l1 l2 l3 : string) :
  Vars.currentVocalists st = [ (singer, Bold) ] ->
  openSpan st = None ->
  JSObject.get singer (Vars.vocalistStats st) = JSObject.Undefined ->
  nonEmpty singer = true ->
  isLyric l1 = true -> isLyric l2 = true -> isLyric l3 = true ->
  includes "<b>" (trim l1) = true ->
  includes "<i>" (trim l1) = false ->
  includes "</b>" (trim l1) = false ->
  includes "</i>" (trim l1) = false ->
  includes "</b>" (trim l2) = false ->
  includes "</b>" (trim l3) = true ->
  (exists st',
     forOf processLine [ l1; l2; l3 ] st = Return st'
     /\ Vars.result st'
        = Vars.result st
          ++ [ attributed singer l1; attributed singer l2; attributed singer l3 ]
     /\ JSObject.getOwn singer (Vars.vocalistStats st')
        = Some {| lines := 3;
                  words := wordCount (trim l1) + wordCount (trim l2)
                           + wordCount (trim l3) |}
     /\ Vars.openFormattingTag st' = None
     /\ Vars.openTagVocalist st' = None)
  /\ (forall (s : Vars.t) (tag openVocalist line : string),
        openSpan s = Some (tag, openVocalist) ->
        (0 < List.length (JSObject.keys (Vars.currentVocalists s)))%nat ->
        isLyric line = true ->
        exists s',
          processLine s line = Return s'
          /\ Vars.result s' = Vars.result s ++ [ attributed openVocalist line ]
          /\ (includes ("</" ++ tag ++ ">") (trim line) = true ->
              Vars.openFormattingTag s' = None /\ Vars.openTagVocalist s' = None)
          /\ (includes ("</" ++ tag ++ ">") (trim line) = false ->
              openSpan s' = Some (tag, openVocalist))).
Proof.
  intros Hmap Hclosed Hfresh Hname Hl1 Hl2 Hl3 Hb1 Hi1 Hcb1 Hci1 Hcb2 Hcb3.
  split.
  - cbn [forOf].
    (* the first line opens the span *)
    rewrite (LineFacts.processLine_lyric _ _ Hl1).
    destruct (LineFacts.lyricLine_closed st (trim l1) Hclosed)
      as (stats1 & Hrun1 & _ & Hstats1).
    { rewrite Hmap. simpl. lia. }
    rewrite Hmap, LineFacts.determineVocalist_single in Hrun1, Hstats1.
    unfold firstMatch in Hrun1.
    rewrite (LineFacts.searchFrom_openTag_bold _ Hb1 Hi1) in Hrun1.
    rewrite (LineFacts.searchFrom_closeTag_none _ Hci1 Hcb1) in Hrun1.
    cbn [option_map] in Hrun1. rewrite Hfresh in Hstats1.
    rewrite Hrun1. cbn [bind].
    (* the second line continues it *)
    rewrite (LineFacts.processLine_lyric _ _ Hl2).
    match goal with
    | |- context [lyricLine ?s (trim l2)] =>
        destruct (LineFacts.lyricLine_open s "b" singer (trim l2))
          as (stats2 & Hrun2 & _ & Hstats2)
    end.
    { unfold openSpan. cbn. rewrite Hname. reflexivity. }
    { simpl. lia. }
    cbn [Vars.vocalistStats Vars.result Vars.currentVocalists
         Vars.openFormattingTag Vars.openTagVocalist] in Hrun2, Hstats2.
    change ("</" ++ "b" ++ ">")%string with "</b>" in Hrun2.
    rewrite Hcb2 in Hrun2.
    unfold JSObject.get in Hstats2. rewrite Hstats1 in Hstats2.
    rewrite Hrun2. cbn [bind].
    (* the third line closes it *)
    rewrite (LineFacts.processLine_lyric _ _ Hl3).
    match goal with
    | |- context [lyricLine ?s (trim l3)] =>
        destruct (LineFacts.lyricLine_open s "b" singer (trim l3))
          as (stats3 & Hrun3 & _ & Hstats3)
    end.
    { unfold openSpan. cbn. rewrite Hname. reflexivity. }
    { simpl. lia. }
    cbn [Vars.vocalistStats Vars.result Vars.currentVocalists
         Vars.openFormattingTag Vars.openTagVocalist] in Hrun3, Hstats3.
    change ("</" ++ "b" ++ ">")%string with "</b>" in Hrun3.
    rewrite Hcb3 in Hrun3.
    unfold JSObject.get in Hstats3. rewrite Hstats2 in Hstats3.
    rewrite Hrun3. cbn [bind].
    eexists. split; [reflexivity|].
    cbn [Vars.vocalistStats Vars.result Vars.currentVocalists
         Vars.openFormattingTag Vars.openTagVocalist].
    split; [|split; [|split; reflexivity]].
    + rewrite <- !app_assoc. reflexivity.
    + rewrite Hstats3. cbn [lines words]. reflexivity.
  - intros s tag openVocalist line Hopen Hkeys Hlyric.
    rewrite (LineFacts.processLine_lyric _ _ Hlyric).
    destruct (LineFacts.lyricLine_open s tag openVocalist (trim line) Hopen Hkeys)
      as (stats & Hrun & _).
    rewrite Hrun. eexists. split; [reflexivity|].
    cbn [Vars.vocalistStats Vars.result Vars.currentVocalists
         Vars.openFormattingTag Vars.openTagVocalist].
    split; [reflexivity|]. split.
    + intros ->. split; reflexivity.
    + intros ->. unfold openSpan in *.
      cbn [Vars.vocalistStats Vars.result Vars.currentVocalists
           Vars.openFormattingTag Vars.openTagVocalist].
      exact Hopen.
Qed.

Lemma open_span_attributes_lines_until_close_witness :
  exists st',
    forOf processLine
      [ "<b>Start of formatted section"; "This continues the formatting";
        "End of section</b>" ]
      {| Vars.result := [];
         Vars.vocalistStats := [];
         Vars.currentVocalists := [ ("Test Singer", Bold) ];
         Vars.openFormattingTag := None;
         Vars.openTagVocalist := None |}
    = Return st'
    /\ Vars.result st'
       = [ attributed "Test Singer" "<b>Start of formatted section";
           attributed "Test Singer" "This continues the formatting";
           attributed "Test Singer" "End of section</b>" ]
    /\ JSObject.getOwn "Test Singer" (Vars.vocalistStats st')
       = Some {| lines := 3; words := 11 |}
    /\ Vars.openFormattingTag st' = None
    /\ Vars.openTagVocalist st' = None.
Proof.
  destruct (open_span_attributes_lines_until_close
              {| Vars.result := [];
                 Vars.vocalistStats := [];
                 Vars.currentVocalists := [ ("Test Singer", Bold) ];
                 Vars.openFormattingTag := None;
                 Vars.openTagVocalist := None |}
              "Test Singer"
              "<b>Start of formatted section" "This continues the formatting"
              "End of section</b>"
              eq_refl eq_refl eq_refl eq_refl eq_refl eq_refl eq_refl
              eq_refl eq_refl eq_refl eq_refl eq_refl eq_refl)
    as ((st' & Hrun & Hresult & Hstats & Htag & Hvocalist) & _).
  exists st'. split; [exact Hrun|]. split; [exact Hresult|].
  split; [exact Hstats|]. split; assumption.
Defined.

(* ------------------------------------------------------------------ *)
(** ** The claims about the tagged spans and the word count *)

(** The claim C2 as it stands fails on a span of white space: the match
    is kept after the overlap resolution, its name is empty, and the
    removal is skipped together with the VocalistSpec, so that the span
    reaches the untagged parsing and becomes a plain vocalist. *)
Lemma kept_match_without_name_is_not_removed :
  filteredMatches "<b> </b>"
  = Return [ {| fullMatch := "<b> </b>"; content := ""; tagFormat := Bold;
                start := 0; stop := 8 |} ]
  /\ extractTaggedVocalists "<b> </b>" = Return ([], "<b> </b>")
  /\ includes "<b> </b>" "<b> </b>" = true
  /\ parseVocalists "<b> </b>" = Return [ ("<b> </b>", Plain) ].
Proof. repeat split; vm_compute; reflexivity. Qed.

(** Nor does the removal of a named match keep its substring out of the
    residual string in every case: here the placeholder stands between
    the two halves of another copy, which the clean-up joins. *)
Lemma removed_match_can_reappear_in_residual :
  extractTaggedVocalists "<i<i>a</i>>a</i>"
  = Return ([ {| name := "a"; format := Italic |} ], "<i>a</i>")
  /\ parseVocalists "<i<i>a</i>>a</i>"
     = Return [ ("a", Italic); ("<i>a</i>", Plain) ].
Proof. split; vm_compute; reflexivity. Qed.

(** C2 (amended).  In [extractTaggedVocalists] the matches kept after the
    overlap resolution are processed in order.  For a kept match whose
    name (its inner text trimmed, and without a leading "with ") is not
    empty, a VocalistSpec of that name and of the format of the match is
    added, and one occurrence of its full matched substring, which the
    working copy still holds at that point, is replaced by the
    placeholder.  A kept match whose name is empty adds no VocalistSpec
    and leaves the working copy as it is. *)
Theorem extractTaggedVocalists_replaces_named_matches (text : string) :
  exists kept,
    filteredMatches text = Return kept
    /\ extractTaggedVocalists text
       = Return (fst (processed text kept), cleanUp (snd (processed text kept)))
    /\ forall pre m post,
         kept = pre ++ m :: post ->
         (nonEmpty (taggedName m) = true ->
          fst (processed text (pre ++ [m]))
          = fst (processed text pre)
            ++ [ {| name := processVocalistName (taggedName m);
                    format := tagFormat m |} ]
          /\ exists before after,
               snd (processed text pre)
               = (before ++ fullMatch m ++ after)%string
               /\ snd (processed text (pre ++ [m]))
                  = (before ++ placeholder ++ after)%string)
         /\ (nonEmpty (taggedName m) = false ->
             processed text (pre ++ [m]) = processed text pre).
Proof.
  destruct (ExtractFacts.filteredMatches_chain text) as (kept & Hkept & Hchain & Hplaced).
  exists kept. split; [exact Hkept|]. split.
  - unfold extractTaggedVocalists, processed. rewrite Hkept. cbn [bind].
    destruct (fold_left processMatch kept ([], text)). reflexivity.
  - intros pre m post Hsplit. unfold processed.
    rewrite fold_left_app. cbn [fold_left]. split.
    + intros Hname. rewrite (ExtractFacts.processMatch_named _ _ Hname).
      cbn [fst snd]. split; [reflexivity|].
      assert (Htail : tailKept text (start m)
                        (snd (fold_left processMatch pre ([], text)))).
      { apply (ExtractFacts.processed_tail text pre 0 ([], text) m post).
        - rewrite <- Hsplit. exact Hchain.
        - rewrite <- Hsplit. exact Hplaced.
        - exists "". reflexivity. }
      assert (Hm : wellPlaced text m).
      { rewrite Forall_forall in Hplaced. apply Hplaced. rewrite Hsplit.
        apply in_or_app. right. left. reflexivity. }
      destruct (ExtractFacts.replace_placed text m (start m) _ Hm (le_n _) Htail)
        as (a & b & Hbefore & Hafter & _).
      exists a, b. split; assumption.
    + intros Hname. apply ExtractFacts.processMatch_unnamed. exact Hname.
Qed.

(** The claim C8 as it stands fails on a text with a [<] that no [>]
    follows: wrapped, the stray [<] reads as a tag up to the [>] of the
    closing marker, and the words behind it are not counted. *)
Lemma unterminated_tag_changes_word_count :
  wordCount (trim "I <3 you") = 3%N
  /\ wrapped "b" "I <3 you" = "<b>I <3 you</b>"
  /\ wordCount (trim (wrapped "b" "I <3 you")) = 1%N
  /\ cleanText "<b>I <3 you</b>" = "I".
Proof. repeat split; vm_compute; reflexivity. Qed.

(** C8 (amended).  For a line text in which every [<] is followed
    somewhere by a [>], the word count of [parseLyricsWithVocalists],
    taken after the removal of the tags on the pieces between runs of
    white space, the empty ones left out, is the same for the text and
    for the text wrapped in [<b>...</b>] or [<i>...</i>]: the two lines
    even leave the same text to count.  Both
    ["<b>This is five words</b>"] and ["This is five words"] count 4. *)
Theorem word_count_invariant_under_wrapping (tag text : string) :
  tag = "b" \/ tag = "i" ->
  tagsClosed text = true ->
  wordCount (trim (wrapped tag text)) = wordCount (trim text)
  /\ cleanText (trim (wrapped tag text)) = cleanText (trim text)
  /\ wordCount "<b>This is five words</b>" = 4%N
  /\ wordCount "This is five words" = 4%N.
Proof.
  intros Htag Hclosed.
  pose proof (WordFacts.cleanText_wrapped tag text Htag Hclosed) as Hclean.
  split; [|split; [exact Hclean|split; vm_compute; reflexivity]].
  unfold wordCount. rewrite Hclean. reflexivity.
Qed.

Lemma word_count_invariant_under_wrapping_witness :
  wordCount (trim (wrapped "i" "  Tell <b>me</b> why "))
  = wordCount (trim "  Tell <b>me</b> why ")
  /\ wordCount (trim "  Tell <b>me</b> why ") = 3%N.
Proof.
  split; [|vm_compute; reflexivity].
  exact (proj1 (word_count_invariant_under_wrapping
                  "i" "  Tell <b>me</b> why " (or_intror eq_refl) eq_refl)).
Defined.

(* ------------------------------------------------------------------ *)
(** ** The claim about the consistency of the two outputs *)

(** C9, where the code departs from it.  A vocalist whose name is a
    property that every object inherits ([constructor], [toString], ...)
    is attributed lines in [parsedLyrics] and gets no key in
    [vocalistStats]: the test [!vocalistStats[vocalist]] reads the
    inherited function, which is truthy, so the record of counts is never
    created and the increments land on that function. *)
Theorem inherited_name_gets_no_statistics :
  parseLyricsWithVocalists (textOf [ "[Verse 1: constructor]"; "la la" ])
  = Return {| parsedLyrics := [ {| vocalist := "constructor"; line := "la la" |} ];
              vocalistStats := [] |}
  /\ JSObject.inherited "constructor" = true
  /\ parseLyricsWithVocalists
       (textOf [ "[Verse 1: toString, <b>Nick</b>]"; "la la"; "<b>la</b>" ])
     = Return {| parsedLyrics := [ {| vocalist := "toString"; line := "la la" |};
                                   {| vocalist := "Nick"; line := "<b>la</b>" |} ];
                 vocalistStats := [ ("Nick", {| lines := 1; words := 1 |}) ] |}.
Proof. repeat split; vm_compute; reflexivity. Qed.

(** Apart from those names the two outputs agree, for every input: the
    keys of [vocalistStats] are the vocalists of [parsedLyrics], and the
    counts of each are the number of its lines and the sum of their word
    counts. *)
Lemma statistics_agree_without_inherited_names (lyricsText : string) :
  exists r,
    parseLyricsWithVocalists lyricsText = Return r
    /\ ((forall l, In l (parsedLyrics r) -> JSObject.inherited (vocalist l) = false) ->
        (forall k, In k (JSObject.keys (vocalistStats r))
                   <-> exists l, In l (parsedLyrics r) /\ vocalist l = k)
        /\ (forall k st,
              JSObject.getOwn k (vocalistStats r) = Some st ->
              lines st = linesOf k (parsedLyrics r)
              /\ words st = wordsOf k (parsedLyrics r))).
Proof.
  destruct (StatsFacts.statistics_of_parse lyricsText) as (r & Hrun & Hstats).
  exists r. split; [exact Hrun|]. intros Hnames. split.
  - intros k. rewrite JSObjectFacts.in_keys_getOwn, Hstats.
    unfold statisticsOf. rewrite <- StatsFacts.linesOf_positive.
    destruct (N.ltb_spec 0 (linesOf k (parsedLyrics r))) as [Hpos|Hzero].
    + apply StatsFacts.linesOf_positive in Hpos as Hl.
      destruct Hl as (l & Hl & <-). rewrite (Hnames l Hl). simpl.
      split; [intros _; exact Hpos|eauto].
    + simpl. split; [intros [st Hst]; discriminate|lia].
  - intros k st Hst. rewrite Hstats in Hst. unfold statisticsOf in Hst.
    destruct ((0 <? linesOf k (parsedLyrics r))%N && negb (JSObject.inherited k));
      [|discriminate].
    injection Hst as <-. split; reflexivity.
Qed.
(* ------------------------------------------------------------------ *)
(** ** Further properties: the vocalist of a line *)

(** X1.  [determineVocalist] answers with a name of the map it is given:
    for a map that is not empty the result is one of its keys, whatever
    the line; the name ["Unknown"] is the answer for the empty map. *)
Theorem determineVocalist_names_a_listed_vocalist
  (line : string) (vocalists : JSObject.t Format) :
  match vocalists with
  | [] => determineVocalist line vocalists = "Unknown"
  | _ :: _ => In (determineVocalist line vocalists) (JSObject.keys vocalists)
  end.
Proof.
  destruct vocalists as [|e r].
  - unfold determineVocalist, JSObject.entries, defaultVocalist, findFormat.
    cbn [find].
    destruct (startsWithText line); [reflexivity|].
    destruct (startsWith "<b><i>" line || startsWith "<i><b>" line),
             (startsWith "<b>" line), (startsWith "<i>" line); reflexivity.
  - apply ProtoFacts.determineVocalist_in. discriminate.
Qed.

(** X2.  The attribution looks at the start of the line only: the first
    six code units decide, so that markup further in the line changes
    nothing. *)
Theorem determineVocalist_reads_the_line_start
  (line : string) (vocalists : JSObject.t Format) :
  determineVocalist line vocalists = determineVocalist (take 6 line) vocalists.
Proof.
  destruct line as [|c1 [|c2 [|c3 [|c4 [|c5 [|c6 r]]]]]]; reflexivity.
Qed.

(** X3.  A line is given to a vocalist of its own format whenever the map
    lists one: a line that starts with text to a plain vocalist, a line
    that starts with [<b>] to a bold one, and so on; the fallback to
    another vocalist is for the formats the section does not list. *)
Theorem determineVocalist_follows_the_markup
  (line : string) (vocalists : JSObject.t Format) (listed : string) :
  In (listed, lineFormat line) vocalists ->
  In (determineVocalist line vocalists, lineFormat line) vocalists.
Proof.
  intros Hin.
  assert (Hfind : forall f, In (listed, f) vocalists ->
                            exists e, findFormat f vocalists = Some e
                                      /\ In (fst e, f) vocalists).
  { intros f Hf. unfold findFormat.
    destruct (find (fun e => Format_eqb (snd e) f) vocalists) as [e|] eqn:He.
    - exists e. split; [reflexivity|]. apply find_some in He as [He1 He2].
      destruct e as [n g]. cbn in *. destruct g, f; try discriminate; exact He1.
    - exfalso. apply (find_none _ _ He) in Hf. cbn in Hf.
      destruct f; discriminate. }
  assert (Hdefault : In (listed, Plain) vocalists ->
                     In (defaultVocalist vocalists, Plain) vocalists).
  { intros Hp. destruct (Hfind _ Hp) as (e & He & Hein).
    unfold defaultVocalist. rewrite He. exact Hein. }
  unfold lineFormat, determineVocalist, JSObject.entries in *.
  destruct (startsWithText line); [auto|].
  destruct (startsWith "<b><i>" line || startsWith "<i><b>" line).
  { destruct (Hfind _ Hin) as (e & -> & Hein). exact Hein. }
  destruct (startsWith "<b>" line).
  { destruct (Hfind _ Hin) as (e & -> & Hein). exact Hein. }
  destruct (startsWith "<i>" line).
  { destruct (Hfind _ Hin) as (e & -> & Hein). exact Hein. }
  auto.
Qed.

Lemma determineVocalist_follows_the_markup_witness :
  In (determineVocalist "<b>Now I can see</b> that we've fallen apart" mockVocalists,
      Bold)
     mockVocalists.
Proof.
  apply (determineVocalist_follows_the_markup
           "<b>Now I can see</b> that we've fallen apart" mockVocalists
           "Brian Littrell").
  cbn. right. left. reflexivity.
Defined.

(* ------------------------------------------------------------------ *)
(** ** Further properties: the names of a vocalist list *)

(** X4.  [processVocalistName] decodes the entity [&amp;] and nothing
    else: a name without the entity comes back as it is, an entity that
    follows a part [a] free of ampersands becomes one ampersand, the rest
    being decoded in turn, and a name that is not empty stays so. *)
Theorem processVocalistName_decodes_entities (a b name : string) :
  (includes "&amp;" name = false -> processVocalistName name = name)
  /\ (all (isNot "&") a = true ->
      processVocalistName (a ++ "&amp;" ++ b)
      = (a ++ "&" ++ processVocalistName b)%string)
  /\ (nonEmpty name = true -> nonEmpty (processVocalistName name) = true).
Proof.
  split; [|split].
  - intros H. unfold processVocalistName. apply ScanFacts.replaceAll_nowhere.
    intros k. unfold literal.
    assert (Hk : includes "&amp;" (drop k name) = false).
    { clear -H. revert k. induction name as [|c r IH]; intros [|k]; try exact H.
      cbn [drop]. apply IH. rewrite LineFacts.includes_cons in H.
      apply orb_false_iff in H as [_ H]. exact H. }
    destruct (drop k name) as [|c r]; [reflexivity|].
    rewrite LineFacts.includes_cons in Hk. apply orb_false_iff in Hk as [-> _].
    reflexivity.
  - intros Ha. unfold processVocalistName.
    induction a as [|c r IH].
    + apply (ScanFacts.replaceAll_literal_here "&amp;" "&" b eq_refl).
    + simpl in Ha. apply andb_prop in Ha as [Hc Hr].
      unfold replaceAll in *.
      change ((String c r ++ "&amp;" ++ b)%string)
        with (String c (r ++ "&amp;" ++ b)).
      cbn [replaceAllFrom]. unfold literal at 1. cbn [startsWith].
      unfold isNot in Hc. apply negb_true_iff in Hc.
      rewrite Ascii.eqb_sym, Hc. cbn [andb]. rewrite (IH Hr). reflexivity.
  - intros H. unfold processVocalistName.
    apply ScanFacts.replaceAllFrom_nonEmpty; [reflexivity|exact H].
Qed.

(** X5.  Every vocalist that [parseUntaggedText] returns is plain, and its
    name is not empty and holds none of the delimiters: no comma and no
    ampersand. *)
Theorem parseUntaggedText_names_hold_no_delimiter (text : string) :
  Forall (fun v => format v = Plain
                   /\ nonEmpty (name v) = true
                   /\ all (isNot ",") (name v) = true
                   /\ all (isNot "&") (name v) = true)
         (parseUntaggedText text).
Proof.
  apply Forall_forall. intros v Hin.
  destruct (NameFacts.parseUntaggedText_in _ _ Hin) as (Hf & Hne & Hc & Ha & _).
  auto.
Qed.

(** X6.  The names of [parseUntaggedText] are normalised in their white
    space: none at either end, and inside a name only single spaces,
    whatever white space the header was written with. *)
Theorem parseUntaggedText_names_are_single_spaced (text : string) :
  Forall (fun v => trim (name v) = name v /\ singleSpaced (name v) = true)
         (parseUntaggedText text).
Proof.
  apply Forall_forall. intros v Hin.
  destruct (NameFacts.parseUntaggedText_in _ _ Hin)
    as (_ & _ & _ & _ & segment & _ & ->).
  apply NameFacts.cleanSegment_normal.
Qed.

(** X7.  The overlap resolution of [extractTaggedVocalists] keeps matches
    that stand in the text in their order, one after the end of the
    other.  Each kept match is one of the collected ones, recorded where
    it stands, and is made of the tags of its format around a text
    without [<].  A collected match is dropped only when a kept match
    that starts no later overlaps it. *)
Theorem filteredMatches_are_disjoint_and_in_order (text : string) :
  exists allMatches kept,
    collectMatches text = Return allMatches
    /\ filteredMatches text = Return kept
    /\ chain 0 kept
    /\ (forall m, In m kept ->
                  In m allMatches /\ wellPlaced text m /\ spanMatch m)
    /\ (forall m, In m allMatches ->
                  In m kept
                  \/ exists k, In k kept /\ (start k <= start m)%nat
                               /\ overlaps m k = true).
Proof.
  destruct (ExtractFacts.filteredMatches_chain text) as (kept & Hkept & Hchain & Hplaced).
  destruct (TotalityFacts.collectMatches_returns text) as (allMatches & Hall & _).
  exists allMatches, kept. split; [exact Hall|]. split; [exact Hkept|].
  split; [exact Hchain|].
  unfold filteredMatches in Hkept. rewrite Hall in Hkept. cbn [bind] in Hkept.
  injection Hkept as <-. unfold removeOverlaps. split.
  - intros m Hm. rewrite Forall_forall in Hplaced.
    assert (Hin : In m allMatches).
    { apply SpanFacts.keep_from in Hm as [[]|Hm].
      apply SpanFacts.in_sortByStart, Hm. }
    split; [exact Hin|]. split; [apply Hplaced, Hm|].
    pose proof (SpanFacts.collectMatches_span _ _ Hall) as Hspan.
    rewrite Forall_forall in Hspan. apply Hspan, Hin.
  - intros m Hm.
    apply (SpanFacts.keep_complete _ 0 []);
      [apply ExtractFacts.sortByStart_sorted|intros x []|].
    apply SpanFacts.in_sortByStart, Hm.
Qed.

(** X8.  Every vocalist that [extractTaggedVocalists] returns has one of
    the formats bold, italic and bold-italic, and a name that is not
    empty and holds no [<]; the text left for the untagged parsing has no
    white space at either end. *)
Theorem extractTaggedVocalists_names_formatted_vocalists (text : string) :
  exists vocalists remainingText,
    extractTaggedVocalists text = Return (vocalists, remainingText)
    /\ Forall (fun v => format v <> Plain
                        /\ nonEmpty (name v) = true
                        /\ all (isNot "<") (name v) = true)
              vocalists
    /\ trim remainingText = remainingText.
Proof.
  destruct (TotalityFacts.extractTaggedVocalists_returns text)
    as (vocalists & remainingText & Hrun).
  exists vocalists, remainingText. split; [exact Hrun|].
  apply (SpanFacts.extractTaggedVocalists_specs text), Hrun.
Qed.

(* ------------------------------------------------------------------ *)
(** ** Further properties: the map of a header and the loop over the lines *)

(** X9.  The map that [parseVocalists] returns holds distinct names, none
    of them empty.  A name of a format other than plain comes from a
    tagged span and holds no [<]; a plain name comes from the untagged
    text and holds neither a comma nor an ampersand. *)
Theorem parseVocalists_lists_distinct_names (vocalistsPart : string) :
  exists vocalists,
    parseVocalists vocalistsPart = Return vocalists
    /\ dictionary vocalists = true
    /\ forall k f,
         In (k, f) vocalists ->
         nonEmpty k = true
         /\ match f with
            | Plain => all (isNot ",") k = true /\ all (isNot "&") k = true
            | _ => all (isNot "<") k = true
            end.
Proof.
  unfold parseVocalists.
  destruct (TotalityFacts.extractTaggedVocalists_returns vocalistsPart)
    as (tagged & rest & Hrun).
  rewrite Hrun. cbn [bind fst snd]. eexists. split; [reflexivity|]. split.
  - apply ParseFacts.assign_dictionary, ParseFacts.assign_dictionary. reflexivity.
  - intros k f Hin.
    apply ParseFacts.assign_entries in Hin as [Hin|(v & Hv & <- & <-)].
    + apply ParseFacts.assign_entries in Hin as [[]|(v & Hv & <- & <-)].
      destruct (SpanFacts.extractTaggedVocalists_specs _ _ _ Hrun) as [Hspecs _].
      rewrite Forall_forall in Hspecs.
      destruct (Hspecs v Hv) as (Hf & Hne & Hlt). split; [exact Hne|].
      destruct (format v); [contradiction| | |]; exact Hlt.
    + destruct (NameFacts.parseUntaggedText_in _ _ Hv) as (-> & Hne & Hc & Ha & _).
      auto.
Qed.

(** X10.  A text without a colon gives no attributed line and no
    statistics: only a section header with a colon names vocalists, and
    the lines that come before any vocalist is named are dropped. *)
Theorem lyrics_without_colon_give_nothing (lyricsText : string) :
  all (isNot ":") lyricsText = true ->
  parseLyricsWithVocalists lyricsText
  = Return {| parsedLyrics := []; vocalistStats := [] |}.
Proof.
  intros Hall. unfold parseLyricsWithVocalists.
  pose proof (ScanFacts.splitFrom_keeps (isNot ":") (literal newline) lyricsText 0 Hall)
    as Hlines.
  rewrite Forall_forall in Hlines. fold (splitBy (literal newline) lyricsText) in Hlines.
  assert (Hstep : forall (seen : list string) st l st',
             In l (splitBy (literal newline) lyricsText) ->
             st = initial -> processLine st l = Return st' -> st' = initial).
  { intros seen st l st' Hl -> Hrun.
    apply LoopFacts.processLine_cases in Hrun
      as [[_ ->]|[(_ & c & Hc & Hrun)|[_ Hrun]]]; [reflexivity| |].
    - apply (ParseFacts.sectionHeader_keeps (isNot ":")) in Hc;
        [|apply ScanFacts.all_trim, Hlines, Hl].
      unfold headerLine in Hrun. rewrite (ParseFacts.indexOf_none _ _ Hc) in Hrun.
      injection Hrun as <-. reflexivity.
    - cbn in Hrun. injection Hrun as <-. reflexivity. }
  destruct (LoopFacts.forOf_invariant processLine (fun _ st => st = initial)
              (splitBy (literal newline) lyricsText)
              TotalityFacts.processLine_returns Hstep initial eq_refl)
    as (st & -> & ->).
  reflexivity.
Qed.

Lemma lyrics_without_colon_give_nothing_witness :
  parseLyricsWithVocalists (textOf [ "[Chorus]"; "Tell me why" ])
  = Return {| parsedLyrics := []; vocalistStats := [] |}.
Proof.
  apply (lyrics_without_colon_give_nothing (textOf [ "[Chorus]"; "Tell me why" ])).
  reflexivity.
Defined.

(** X11.  The attributed lines are lines of the text: [parsedLyrics]
    holds, in the order of the text and trimmed, some of the lines that
    are neither blank nor section headers, and nothing else. *)
Theorem parsedLyrics_are_lyric_lines_in_order (lyricsText : string) :
  exists r,
    parseLyricsWithVocalists lyricsText = Return r
    /\ subsequence (map line (parsedLyrics r))
                   (map trim (filter isLyric (splitBy (literal newline) lyricsText))).
Proof.
  unfold parseLyricsWithVocalists.
  destruct (LoopFacts.forOf_invariant processLine
              (fun seen st =>
                 subsequence (map line (Vars.result st))
                             (map trim (filter isLyric seen)))
              (splitBy (literal newline) lyricsText)
              TotalityFacts.processLine_returns
              (fun seen st l st' _ => ParseFacts.processLine_lines seen st l st')
              initial subsequence_nil) as (st & -> & Hst).
  cbn [bind]. eexists. split; [reflexivity|exact Hst].
Qed.

(** X12.  The totals of the summary of a parse count its attributed
    lines: [totalLines] is the number of the lines of [parsedLyrics] and
    [totalWords] the sum of their word counts, the lines of a vocalist
    whose name is an inherited property (who gets no statistics) left
    out. *)
Theorem summary_totals_count_the_attributed_lines (lyricsText : string) :
  exists r,
    parseLyricsWithVocalists lyricsText = Return r
    /\ dictionary (vocalistStats r) = true
    /\ totalLines (generateStatsSummary (vocalistStats r))
       = countedLines (parsedLyrics r)
    /\ totalWords (generateStatsSummary (vocalistStats r))
       = countedWords (parsedLyrics r)
    /\ ((forall l, In l (parsedLyrics r) -> JSObject.inherited (vocalist l) = false) ->
        totalLines (generateStatsSummary (vocalistStats r))
        = N.of_nat (List.length (parsedLyrics r))).
Proof.
  unfold parseLyricsWithVocalists.
  destruct (ParseFacts.parse_tallied lyricsText)
    as (st & -> & Hdict & _ & Hlines & Hwords).
  cbn [bind]. eexists. split; [reflexivity|]. cbn [parsedLyrics vocalistStats].
  assert (Htl : totalLines (generateStatsSummary (Vars.vocalistStats st))
                = countedLines (Vars.result st)).
  { rewrite <- Hlines. unfold generateStatsSummary, sumOf. cbn [totalLines].
    rewrite SummaryFacts.sum_fold. lia. }
  split; [exact Hdict|]. split; [exact Htl|]. split.
  - rewrite <- Hwords. unfold generateStatsSummary, sumOf. cbn [totalWords].
    rewrite SummaryFacts.sum_fold. lia.
  - intros Hnames. rewrite Htl. unfold countedLines.
    assert (Hall : forall result,
               (forall l, In l result -> JSObject.inherited (vocalist l) = false) ->
               filter counted result = result).
    { induction result as [|x r IH]; intros H; [reflexivity|].
      cbn [filter]. unfold counted at 1. rewrite (H x (or_introl eq_refl)).
      cbn [negb]. f_equal. apply IH. intros l Hl. apply H. right. exact Hl. }
    rewrite (Hall _ Hnames). reflexivity.
Qed.

(** X13.  Every vocalist of the statistics of a parse has at least one
    line, so that in the summary of a parse [linesPercentage] is always a
    string of [toFixed(1)], never the number 0. *)
Theorem parsed_vocalists_have_a_line (lyricsText : string) :
  exists r,
    parseLyricsWithVocalists lyricsText = Return r
    /\ (forall k stats,
          JSObject.getOwn k (vocalistStats r) = Some stats -> (1 <= lines stats)%N)
    /\ (forall k s,
          In (k, s) (vocalistPercentages (generateStatsSummary (vocalistStats r))) ->
          exists x, linesPercentage s = PercentString (Number.toFixed1 x)).
Proof.
  destruct (StatsFacts.statistics_of_parse lyricsText) as (r & Hrun & Hstats).
  exists r. split; [exact Hrun|].
  assert (Hone : forall k stats,
             JSObject.getOwn k (vocalistStats r) = Some stats -> (1 <= lines stats)%N).
  { intros k stats Hget. rewrite Hstats in Hget. unfold statisticsOf in Hget.
    destruct (N.ltb_spec 0 (linesOf k (parsedLyrics r))) as [Hpos|Hzero];
      [|discriminate].
    destruct (negb (JSObject.inherited k)); [|discriminate].
    injection Hget as <-. cbn [lines]. lia. }
  split; [exact Hone|]. intros k s Hin.
  rewrite SummaryFacts.generateStatsSummary_unfold in Hin.
  apply SummaryFacts.fold_in in Hin as [[]|(stats & Hstat & ->)].
  cbn [linesPercentage summaryEntry].
  assert (Hdict : dictionary (vocalistStats r) = true).
  { unfold parseLyricsWithVocalists in Hrun.
    destruct (ParseFacts.parse_tallied lyricsText) as (st & Hst & Hd & _).
    rewrite Hst in Hrun. cbn [bind] in Hrun. injection Hrun as <-. exact Hd. }
  apply DictFacts.dictionary_spec in Hdict as [Hnd _].
  pose proof (JSObjectFacts.in_getOwn _ _ _ Hnd Hstat) as Hget.
  pose proof (Hone _ _ Hget) as Hlines.
  pose proof (SummaryFacts.count_le_sum lines _ _ _ Hstat) as Hle.
  eexists. apply SummaryFacts.percentage_cases.
  unfold generateStatsSummary, sumOf in *. cbn [totalLines].
  rewrite SummaryFacts.sum_fold. lia.
Qed.

(** X14.  A line is attributed only to a vocalist that a section header
    of the text lists: the vocalist of every element of [parsedLyrics] is
    a key of the map that [parseVocalists] returns for the text after the
    colon of some header line. *)
Theorem vocalists_come_from_the_headers (lyricsText : string) :
  exists r,
    parseLyricsWithVocalists lyricsText = Return r
    /\ forall l,
         In l (parsedLyrics r) ->
         exists header,
           In header (splitBy (literal newline) lyricsText)
           /\ In (vocalist l) (headerVocalists header).
Proof.
  unfold parseLyricsWithVocalists.
  assert (Hinit : sourced [] initial).
  { split; [|split]; [intros k []|discriminate|intros l []]. }
  destruct (LoopFacts.forOf_invariant processLine sourced
              (splitBy (literal newline) lyricsText)
              TotalityFacts.processLine_returns
              (fun seen st l st' _ => ParseFacts.processLine_sourced seen st l st')
              initial Hinit) as (st & -> & _ & _ & Hst).
  cbn [bind]. eexists. split; [reflexivity|exact Hst].
Qed.

(* ------------------------------------------------------------------ *)
(** ** Further properties: words, lines and plain headers *)

(** X15.  A vocalist list without markup gives plain vocalists only: for
    a text that holds no [<], [extractTaggedVocalists] finds no vocalist
    and leaves the text, cleaned up, to the untagged parsing, so that
    every entry of the map of [parseVocalists] has the format plain. *)
Theorem parseVocalists_without_markup_lists_plain_vocalists (vocalistsPart : string) :
  all (isNot "<") vocalistsPart = true ->
  extractTaggedVocalists vocalistsPart = Return ([], cleanUp vocalistsPart)
  /\ exists vocalists,
       parseVocalists vocalistsPart = Return vocalists
       /\ Forall (fun e => snd e = Plain) vocalists.
Proof.
  intros Hall.
  assert (Hrun : extractTaggedVocalists vocalistsPart
                 = Return ([], cleanUp vocalistsPart)).
  { unfold extractTaggedVocalists, filteredMatches.
    rewrite (TextFacts.collectMatches_plain _ Hall). reflexivity. }
  split; [exact Hrun|]. unfold parseVocalists. rewrite Hrun. cbn [bind fst snd fold_left].
  eexists. split; [reflexivity|]. apply Forall_forall. intros [k f] Hin.
  apply ParseFacts.assign_entries in Hin as [[]|(v & Hv & _ & <-)].
  apply NameFacts.parseUntaggedText_in in Hv as [Hf _]. exact Hf.
Qed.

Lemma parseVocalists_without_markup_lists_plain_vocalists_witness :
  extractTaggedVocalists "Nick &amp; Brian with AJ"
  = Return ([], "Nick &amp; Brian with AJ")
  /\ exists vocalists,
       parseVocalists "Nick &amp; Brian with AJ" = Return vocalists
       /\ Forall (fun e => snd e = Plain) vocalists.
Proof.
  apply (parseVocalists_without_markup_lists_plain_vocalists
           "Nick &amp; Brian with AJ" eq_refl).
Defined.

(** X16.  The word count of a line is the number of its words: of the
    maximal runs of code units that are not white space, in the text of
    the line without its tags. *)
Theorem wordCount_counts_the_words (trimmedLine : string) :
  wordCount trimmedLine = countWords false (cleanText trimmedLine).
Proof.
  unfold wordCount. pose proof (TextFacts.split_counts (cleanText trimmedLine) 0) as H.
  cbn [drop] in H.
  destruct (splitBy whiteSpaces (cleanText trimmedLine)) as [|piece pieces];
    [destruct H|].
  destruct H as [H _]. exact H.
Qed.

(** X17.  Blank lines and the white space around a line are ignored: the
    parse of a text is the parse of the text made of its lines that are
    not blank, each trimmed (the carriage return of a line that ends in
    CR LF is white space). *)
Theorem blank_lines_and_indentation_are_ignored (lines : list string) :
  Forall (fun l => all (isNot "010") l = true) lines ->
  parseLyricsWithVocalists (textOf (map trim (filter notBlank lines)))
  = parseLyricsWithVocalists (textOf lines).
Proof.
  intros Hlines.
  assert (Htrimmed : Forall (fun l => all (isNot "010") l = true)
                            (map trim (filter notBlank lines))).
  { apply Forall_forall. intros l Hl. apply in_map_iff in Hl as (x & <- & Hx).
    apply filter_In in Hx as [Hx _]. rewrite Forall_forall in Hlines.
    apply ScanFacts.all_trim, Hlines, Hx. }
  assert (Hempty : forall ls st,
             forOf processLine (match ls with [] => [""] | _ => ls end) st
             = forOf processLine ls st).
  { intros [|l ls] st; reflexivity. }
  unfold parseLyricsWithVocalists.
  rewrite (TextFacts.split_textOf _ Hlines), (TextFacts.split_textOf _ Htrimmed).
  rewrite !Hempty, TextFacts.forOf_trimmed. reflexivity.
Qed.

Lemma blank_lines_and_indentation_are_ignored_witness :
  parseLyricsWithVocalists
    (textOf [ "[Verse 1: Nick Carter]"; "You are my fire"; "The one desire" ])
  = parseLyricsWithVocalists
      (textOf [ "  [Verse 1: Nick Carter]"; ""; (String "009" "You are my fire" ++ String "013" "")%string;
                "   "; "The one desire  " ]).
Proof.
  apply (blank_lines_and_indentation_are_ignored
           [ "  [Verse 1: Nick Carter]"; ""; (String "009" "You are my fire" ++ String "013" "")%string;
             "   "; "The one desire  " ]).
  repeat constructor.
Defined.

(* ------------------------------------------------------------------ *)
(** ** Further properties: what a header lists, and the sizes of a parse *)

(** X18.  [parseVocalists] loses no name of the list: every vocalist of
    the untagged text is in the map as a plain one, and every vocalist of
    a tagged span is in the map, with the format of a span unless the
    untagged text names it again, which makes it plain.  (The name
    [__proto__] is the exception: the assignment of a format to it is
    not the creation of a property.) *)
Theorem parseVocalists_loses_no_listed_name (vocalistsPart : string) :
  exists tagged rest vocalists,
    extractTaggedVocalists vocalistsPart = Return (tagged, rest)
    /\ parseVocalists vocalistsPart = Return vocalists
    /\ (forall v,
          In v (parseUntaggedText rest) -> name v <> "__proto__" ->
          JSObject.getOwn (name v) vocalists = Some Plain)
    /\ (forall v,
          In v tagged -> name v <> "__proto__" ->
          exists f,
            JSObject.getOwn (name v) vocalists = Some f
            /\ (f = Plain <-> In (name v) (map name (parseUntaggedText rest)))).
Proof.
  destruct (TotalityFacts.extractTaggedVocalists_returns vocalistsPart)
    as (tagged & rest & Hrun).
  exists tagged, rest. unfold parseVocalists. rewrite Hrun. cbn [bind fst snd].
  eexists. split; [reflexivity|]. split; [reflexivity|].
  assert (Huntagged : forall k,
             k <> "__proto__" -> In k (map name (parseUntaggedText rest)) ->
             forall o, JSObject.getOwn k (fold_left assign (parseUntaggedText rest) o)
                       = Some Plain).
  { intros k Hk Hin o. apply in_map_iff in Hin as (x & Hx & Hxin).
    destruct (ParseFacts.assign_last (parseUntaggedText rest) k Hk o)
      as (y & Hy & _ & ->); [eauto|].
    apply NameFacts.parseUntaggedText_in in Hy as [-> _]. reflexivity. }
  split.
  - intros v Hv Hk. apply Huntagged; [exact Hk|]. apply in_map, Hv.
  - intros v Hv Hk.
    destruct (in_dec string_dec (name v) (map name (parseUntaggedText rest)))
      as [Hin|Hout].
    + exists Plain. split; [apply Huntagged; assumption|]. split; auto.
    + destruct (ParseFacts.assign_last tagged (name v) Hk []) as (y & Hy & _ & Hget);
        [eauto|].
      exists (format y). split.
      * rewrite ParseFacts.assign_untouched; [exact Hget|].
        intros x Hx Hxk. apply Hout. apply in_map_iff. eauto.
      * destruct (SpanFacts.extractTaggedVocalists_specs _ _ _ Hrun) as [Hspecs _].
        rewrite Forall_forall in Hspecs. destruct (Hspecs y Hy) as [Hf _].
        split; [intros Hp; contradiction|intros Hin; contradiction].
Qed.

(** X19.  The counts of a parse are bounded by the length of the text: in
    the summary of the parse of a text, neither total exceeds the number
    of code units of the text, so that every percentage of that summary
    is the number 0 or a string between ["0.0"] and ["100.0"] (a string
    of the language has fewer than 2^53 code units). *)
Theorem percentages_of_a_parse_lie_between_0_and_100 (lyricsText : string) :
  (N.of_nat (String.length lyricsText) < 2 ^ 53)%N ->
  exists r,
    parseLyricsWithVocalists lyricsText = Return r
    /\ (totalLines (generateStatsSummary (vocalistStats r))
        <= N.of_nat (String.length lyricsText))%N
    /\ (totalWords (generateStatsSummary (vocalistStats r))
        <= N.of_nat (String.length lyricsText))%N
    /\ forall k s,
         In (k, s) (vocalistPercentages (generateStatsSummary (vocalistStats r))) ->
         withinHundred (linesPercentage s) /\ withinHundred (wordsPercentage s).
Proof.
  intros Hlen. unfold parseLyricsWithVocalists.
  set (textLines := splitBy (literal newline) lyricsText).
  assert (Hinit : tallied initial
                  /\ subsequence (map line (Vars.result initial))
                                 (map trim (filter isLyric []))).
  { split; [|apply subsequence_nil]. unfold tallied. cbn. repeat split. intros k []. }
  destruct (LoopFacts.forOf_invariant processLine
              (fun seen st =>
                 tallied st
                 /\ subsequence (map line (Vars.result st))
                                (map trim (filter isLyric seen)))
              textLines TotalityFacts.processLine_returns
              (fun seen st l st' _ H Hrun =>
                 conj (ParseFacts.processLine_tallied st l st' (proj1 H) Hrun)
                      (ParseFacts.processLine_lines seen st l st' (proj2 H) Hrun))
              initial Hinit) as (st & -> & (Hdict & _ & Hlines & Hwords) & Hsub).
  cbn [bind]. eexists. split; [reflexivity|]. cbn [vocalistStats].
  set (summary := generateStatsSummary (Vars.vocalistStats st)).
  assert (Htl : totalLines summary = sumOf lines (Vars.vocalistStats st)).
  { unfold summary, generateStatsSummary, sumOf. cbn [totalLines].
    rewrite SummaryFacts.sum_fold. lia. }
  assert (Htw : totalWords summary = sumOf words (Vars.vocalistStats st)).
  { unfold summary, generateStatsSummary, sumOf. cbn [totalWords].
    rewrite SummaryFacts.sum_fold. lia. }
  assert (Hsize : lengthOf (Vars.result st) <= String.length lyricsText).
  { rewrite SizeFacts.lengthOf_sizes.
    pose proof (SizeFacts.subsequence_sizes _ _ Hsub) as H1.
    pose proof (SizeFacts.trimmed_sizes textLines) as H2.
    pose proof (SizeFacts.splitFrom_sizes (literal newline) lyricsText 0) as H3.
    change (splitFrom (literal newline) 0 lyricsText) with textLines in H3. lia. }
  assert (Hne : Forall (fun l => nonEmpty (line l) = true) (Vars.result st)).
  { apply Forall_forall. intros l Hl.
    pose proof (ParseFacts.subsequence_in _ _ Hsub (line l) (in_map line _ _ Hl)) as Hin.
    apply in_map_iff in Hin as (x & <- & Hx). apply filter_In in Hx as [_ Hx].
    unfold isLyric in Hx. apply andb_prop in Hx as [Hx _]. exact Hx. }
  pose proof (SizeFacts.countedLines_length _ Hne) as Hcl.
  pose proof (SizeFacts.countedWords_length (Vars.result st)) as Hcw.
  assert (Hl : (totalLines summary <= N.of_nat (String.length lyricsText))%N) by lia.
  assert (Hw : (totalWords summary <= N.of_nat (String.length lyricsText))%N) by lia.
  split; [exact Hl|]. split; [exact Hw|].
  intros k s Hin. unfold summary in Hin.
  rewrite SummaryFacts.generateStatsSummary_unfold in Hin.
  apply SummaryFacts.fold_in in Hin as [[]|(stats & Hstat & ->)].
  fold summary. cbn [linesPercentage wordsPercentage summaryEntry].
  split; apply PercentFacts.percentage_within; try lia.
  - rewrite Htl. apply (SummaryFacts.count_le_sum _ k), Hstat.
  - rewrite Htw. apply (SummaryFacts.count_le_sum _ k), Hstat.
Qed.

Lemma percentages_of_a_parse_lie_between_0_and_100_witness :
  exists r,
    parseLyricsWithVocalists
      (textOf [ "[Verse 1: Nick, <b>Brian</b>]"; "You are my fire";
                "<b>The one desire</b>"; "Believe when I say" ])
    = Return r
    /\ forall k s,
         In (k, s) (vocalistPercentages (generateStatsSummary (vocalistStats r))) ->
         withinHundred (linesPercentage s) /\ withinHundred (wordsPercentage s).
Proof.
  destruct (percentages_of_a_parse_lie_between_0_and_100
              (textOf [ "[Verse 1: Nick, <b>Brian</b>]"; "You are my fire";
                        "<b>The one desire</b>"; "Believe when I say" ]))
    as (r & Hrun & _ & _ & Hwithin).
  - vm_compute. reflexivity.
  - exists r. split; [exact Hrun|exact Hwithin].
Defined.

(** X20.  A parse grows with its text: when lines are added at the end
    of a text, the attributed lines of the text come first in the
    attributed lines of the longer text, and no vocalist loses its
    statistics or has smaller counts. *)
Theorem parse_of_a_longer_text_extends_the_parse (first more : list string) :
  first <> [] ->
  Forall (fun l => all (isNot "010") l = true) (first ++ more) ->
  exists r1 r2 added,
    parseLyricsWithVocalists (textOf first) = Return r1
    /\ parseLyricsWithVocalists (textOf (first ++ more)) = Return r2
    /\ parsedLyrics r2 = parsedLyrics r1 ++ added
    /\ forall k stats1,
         JSObject.getOwn k (vocalistStats r1) = Some stats1 ->
         exists stats2,
           JSObject.getOwn k (vocalistStats r2) = Some stats2
           /\ (lines stats1 <= lines stats2)%N
           /\ (words stats1 <= words stats2)%N.
Proof.
  intros Hfirst Hlines.
  pose proof Hlines as Hboth. apply Forall_app in Hboth as [Hl1 _].
  unfold parseLyricsWithVocalists.
  rewrite (TextFacts.split_textOf _ Hl1), (TextFacts.split_textOf _ Hlines).
  assert (Hne : first ++ more <> [])
    by (destruct first; [contradiction|discriminate]).
  replace (match first with [] => [""] | _ :: _ => first end) with first
    by (destruct first; [contradiction|reflexivity]).
  replace (match first ++ more with [] => [""] | _ :: _ => first ++ more end)
    with (first ++ more)
    by (destruct (first ++ more); [contradiction|reflexivity]).
  rewrite TextFacts.forOf_app.
  destruct (StatsFacts.forOf_consistent first initial) as (st1 & Hrun1 & Hc1);
    [intros k; reflexivity|].
  rewrite Hrun1. cbn [bind].
  destruct (StatsFacts.forOf_consistent more st1 Hc1) as (st2 & Hrun2 & Hc2).
  rewrite Hrun2. cbn [bind].
  destruct (TextFacts.forOf_grows _ _ _ Hrun2) as (added & Hadded).
  eexists _, _, added. split; [reflexivity|]. split; [reflexivity|].
  cbn [parsedLyrics vocalistStats]. split; [exact Hadded|].
  intros k stats1 Hget. rewrite Hc1 in Hget. rewrite Hc2, Hadded.
  unfold statisticsOf in *.
  pose proof (TextFacts.linesOf_app k (Vars.result st1) added) as Hl.
  pose proof (TextFacts.wordsOf_app k (Vars.result st1) added) as Hw.
  destruct (N.ltb_spec 0 (linesOf k (Vars.result st1))) as [Hpos|]; [|discriminate].
  destruct (negb (JSObject.inherited k)); [|discriminate].
  injection Hget as <-.
  replace (0 <? linesOf k (Vars.result st1 ++ added))%N with true
    by (symmetry; apply N.ltb_lt; lia).
  eexists. split; [reflexivity|]. cbn [lines words]. split; assumption.
Qed.

Lemma parse_of_a_longer_text_extends_the_parse_witness :
  exists r1 r2 added,
    parseLyricsWithVocalists (textOf [ "[Verse 1: Nick]"; "You are my fire" ])
    = Return r1
    /\ parseLyricsWithVocalists
         (textOf [ "[Verse 1: Nick]"; "You are my fire"; "The one desire" ])
       = Return r2
    /\ parsedLyrics r2 = parsedLyrics r1 ++ added.
Proof.
  destruct (parse_of_a_longer_text_extends_the_parse
              [ "[Verse 1: Nick]"; "You are my fire" ] [ "The one desire" ])
    as (r1 & r2 & added & H1 & H2 & H3 & _).
  - discriminate.
  - repeat constructor.
  - exists r1, r2, added. auto.
Defined.

(* ------------------------------------------------------------------ *)
(** ** Further properties: the percentages of the summary *)

(** X21.  Every percentage of the summary lies between 0 and 100: it is
    the number 0 or the string, with one decimal, of a number of tenths
    between 0 and 1000, for counts within the range of the integers that
    a Number holds exactly. *)
Theorem summary_percentages_lie_between_0_and_100
  (vocalistStats : JSObject.t Stats) (k : string) (s : VocalistSummary) :
  (sumOf lines vocalistStats < 2 ^ 53)%N ->
  (sumOf words vocalistStats < 2 ^ 53)%N ->
  In (k, s) (vocalistPercentages (generateStatsSummary vocalistStats)) ->
  withinHundred (linesPercentage s) /\ withinHundred (wordsPercentage s).
Proof.
  intros Hlines Hwords Hin.
  assert (Htl : totalLines (generateStatsSummary vocalistStats)
                = sumOf lines vocalistStats).
  { unfold generateStatsSummary, sumOf. cbn [totalLines].
    rewrite SummaryFacts.sum_fold. lia. }
  assert (Htw : totalWords (generateStatsSummary vocalistStats)
                = sumOf words vocalistStats).
  { unfold generateStatsSummary, sumOf. cbn [totalWords].
    rewrite SummaryFacts.sum_fold. lia. }
  rewrite SummaryFacts.generateStatsSummary_unfold in Hin.
  apply SummaryFacts.fold_in in Hin as [[]|(stats & Hstat & ->)].
  cbn [linesPercentage wordsPercentage summaryEntry]. rewrite Htl, Htw.
  split; apply PercentFacts.percentage_within; try assumption;
    apply (SummaryFacts.count_le_sum _ k), Hstat.
Qed.

Lemma summary_percentages_lie_between_0_and_100_witness :
  let entry := {| linesPercentage := PercentString (Number.Decimal "50.0");
                  wordsPercentage := PercentString (Number.Decimal "44.4");
                  counts := {| lines := 4; words := 16 |} |} in
  In ("Nick Carter", entry)
     (vocalistPercentages
        (generateStatsSummary
           [ ("Nick Carter", {| lines := 4; words := 16 |});
             ("Brian Littrell", {| lines := 2; words := 12 |});
             ("AJ McLean", {| lines := 2; words := 8 |}) ]))
  /\ withinHundred (linesPercentage entry)
  /\ withinHundred (wordsPercentage entry).
Proof.
  cbv zeta. split; [left; reflexivity|].
  apply (summary_percentages_lie_between_0_and_100
           [ ("Nick Carter", {| lines := 4; words := 16 |});
             ("Brian Littrell", {| lines := 2; words := 12 |});
             ("AJ McLean", {| lines := 2; words := 8 |}) ]
           "Nick Carter"
           {| linesPercentage := PercentString (Number.Decimal "50.0");
              wordsPercentage := PercentString (Number.Decimal "44.4");
              counts := {| lines := 4; words := 16 |} |}
           eq_refl eq_refl (or_introl eq_refl)).
Defined.

(** X22.  The two ends of the range: in a summary whose total is
    positive, a vocalist with no word gets the string ["0.0"], and a
    vocalist who has all the lines, or all the words, gets ["100.0"]; so
    the summary of one vocalist with lines and words shows 100.0 twice. *)
Theorem summary_percentages_of_none_and_of_all
  (vocalistStats : JSObject.t Stats) (k : string) (s : VocalistSummary) :
  (sumOf lines vocalistStats < 2 ^ 53)%N ->
  (sumOf words vocalistStats < 2 ^ 53)%N ->
  In (k, s) (vocalistPercentages (generateStatsSummary vocalistStats)) ->
  let summary := generateStatsSummary vocalistStats in
  ((0 < totalWords summary)%N -> words (counts s) = 0%N ->
   wordsPercentage s = PercentString (Number.Decimal "0.0"))
  /\ ((0 < totalWords summary)%N -> words (counts s) = totalWords summary ->
      wordsPercentage s = PercentString (Number.Decimal "100.0"))
  /\ ((0 < totalLines summary)%N -> lines (counts s) = totalLines summary ->
      linesPercentage s = PercentString (Number.Decimal "100.0")).
Proof.
  intros Hlines Hwords Hin summary.
  assert (Htl : totalLines summary = sumOf lines vocalistStats).
  { unfold summary, generateStatsSummary, sumOf. cbn [totalLines].
    rewrite SummaryFacts.sum_fold. lia. }
  assert (Htw : totalWords summary = sumOf words vocalistStats).
  { unfold summary, generateStatsSummary, sumOf. cbn [totalWords].
    rewrite SummaryFacts.sum_fold. lia. }
  rewrite SummaryFacts.generateStatsSummary_unfold in Hin.
  apply SummaryFacts.fold_in in Hin as [[]|(stats & Hstat & ->)].
  fold summary. cbn [linesPercentage wordsPercentage counts summaryEntry].
  split; [|split].
  - intros Hpos ->. apply PercentFacts.percentage_of_none. lia.
  - intros Hpos ->. apply PercentFacts.percentage_of_all. lia.
  - intros Hpos ->. apply PercentFacts.percentage_of_all. lia.
Qed.

Lemma summary_percentages_of_none_and_of_all_witness :
  vocalistPercentages
    (generateStatsSummary [ ("Solo Artist", {| lines := 5; words := 20 |}) ])
  = [ ("Solo Artist",
       {| linesPercentage := PercentString (Number.Decimal "100.0");
          wordsPercentage := PercentString (Number.Decimal "100.0");
          counts := {| lines := 5; words := 20 |} |}) ]
  /\ wordsPercentage
       {| linesPercentage := PercentString (Number.Decimal "100.0");
          wordsPercentage := PercentString (Number.Decimal "100.0");
          counts := {| lines := 5; words := 20 |} |}
     = PercentString (Number.Decimal "100.0").
Proof.
  split; [reflexivity|].
  apply (summary_percentages_of_none_and_of_all
           [ ("Solo Artist", {| lines := 5; words := 20 |}) ]
           "Solo Artist"
           {| linesPercentage := PercentString (Number.Decimal "100.0");
              wordsPercentage := PercentString (Number.Decimal "100.0");
              counts := {| lines := 5; words := 20 |} |}
           eq_refl eq_refl (or_introl eq_refl)); reflexivity.
Defined.

(* ------------------------------------------------------------------ *)
(** ** Further properties: the order of the summary, the top vocalist,
       the file *)

(** X23.  The summary lists the vocalists in the order of the statistics
    it is given: for the own properties of an object, enumerated as the
    language does, its mapping holds the same keys in the same order,
    each with the entry made from its counts. *)
Theorem summary_keeps_the_order_of_the_vocalists (vocalistStats : JSObject.t Stats) :
  dictionary vocalistStats = true ->
  enumerated (JSObject.keys vocalistStats) = true ->
  let summary := generateStatsSummary vocalistStats in
  vocalistPercentages summary
  = map (fun e => (fst e,
                   summaryEntry (totalLines summary) (totalWords summary) (snd e)))
        vocalistStats
  /\ JSObject.keys (vocalistPercentages summary) = JSObject.keys vocalistStats.
Proof.
  intros Hdict Henum summary.
  assert (Hentries : vocalistPercentages summary
                     = map (fun e => (fst e,
                                      summaryEntry (totalLines summary)
                                                   (totalWords summary) (snd e)))
                           vocalistStats).
  { unfold summary. rewrite SummaryFacts.generateStatsSummary_unfold.
    apply (TopFacts.summary_entries _ _ vocalistStats []); assumption. }
  split; [exact Hentries|]. rewrite Hentries. unfold JSObject.keys.
  rewrite map_map. reflexivity.
Qed.

Lemma summary_keeps_the_order_of_the_vocalists_witness :
  JSObject.keys
    (vocalistPercentages
       (generateStatsSummary
          [ ("Nick Carter", {| lines := 4; words := 16 |});
            ("Brian Littrell", {| lines := 2; words := 12 |});
            ("AJ McLean", {| lines := 2; words := 8 |}) ]))
  = [ "Nick Carter"; "Brian Littrell"; "AJ McLean" ].
Proof.
  apply (summary_keeps_the_order_of_the_vocalists
           [ ("Nick Carter", {| lines := 4; words := 16 |});
             ("Brian Littrell", {| lines := 2; words := 12 |});
             ("AJ McLean", {| lines := 2; words := 8 |}) ]
           eq_refl eq_refl).
Defined.

(** X24.  The statistics of a parse are enumerated as the language
    enumerates the properties of an object, and the summary of the parse
    lists the same vocalists in the same order. *)
Theorem summary_of_a_parse_keeps_the_order (lyricsText : string) :
  exists r,
    parseLyricsWithVocalists lyricsText = Return r
    /\ enumerated (JSObject.keys (vocalistStats r)) = true
    /\ JSObject.keys (vocalistPercentages (generateStatsSummary (vocalistStats r)))
       = JSObject.keys (vocalistStats r).
Proof.
  unfold parseLyricsWithVocalists.
  assert (Hinit : tallied initial
                  /\ enumerated (JSObject.keys (Vars.vocalistStats initial)) = true).
  { split; [|reflexivity]. unfold tallied. cbn. repeat split. intros k []. }
  destruct (LoopFacts.forOf_invariant processLine
              (fun _ st =>
                 tallied st
                 /\ enumerated (JSObject.keys (Vars.vocalistStats st)) = true)
              (splitBy (literal newline) lyricsText)
              TotalityFacts.processLine_returns
              (fun seen st l st' _ H Hrun =>
                 conj (ParseFacts.processLine_tallied st l st' (proj1 H) Hrun)
                      (ParseFacts.processLine_enumerated st l st' (proj2 H) Hrun))
              initial Hinit) as (st & -> & (Hdict & _) & Henum).
  cbn [bind]. eexists. split; [reflexivity|]. cbn [vocalistStats].
  split; [exact Henum|].
  rewrite SummaryFacts.generateStatsSummary_unfold.
  rewrite (TopFacts.summary_entries _ _ (Vars.vocalistStats st) []) by assumption.
  unfold JSObject.keys. rewrite map_map. reflexivity.
Qed.

(** X25.  [findTopVocalistInSong] returns the first vocalist, in the
    order of enumeration, whose number of lines is the largest: the
    vocalists before it have fewer lines, those after it no more.  It
    returns null exactly when no vocalist has a line. *)
Theorem findTopVocalistInSong_finds_the_first_maximum
  {V : Type} `{WithLines V} (vocalistStats : JSObject.t V) :
  match findTopVocalistInSong vocalistStats with
  | None => Forall (fun e => linesIn (snd e) = 0%N) vocalistStats
  | Some top =>
      exists pre s post,
        vocalistStats = pre ++ (top, s) :: post
        /\ (0 < linesIn s)%N
        /\ Forall (fun e => (linesIn (snd e) < linesIn s)%N) pre
        /\ Forall (fun e => (linesIn (snd e) <= linesIn s)%N) post
  end.
Proof.
  unfold findTopVocalistInSong, JSObject.entries.
  destruct (TopFacts.topStep_fold vocalistStats None 0)
    as [[Hres Hall]|(pre & t & s & post & Ho & Hres & Hgt & Hpre & Hpost)];
    cbv zeta in Hres; rewrite Hres; cbn [fst].
  - apply Forall_forall. intros e He. rewrite Forall_forall in Hall.
    specialize (Hall e He). lia.
  - exists pre, s, post. auto.
Qed.

(** X26.  The top vocalist of a parsed song is a vocalist with the most
    attributed lines: no vocalist of [parsedLyrics] (whose name is no
    inherited property) has more lines than the one that
    [findTopVocalistInSong] finds in the summary of the parse, and there
    is none only when the parse has no statistics. *)
Theorem top_vocalist_of_a_song_has_the_most_lines (lyricsText : string) :
  exists r,
    parseLyricsWithVocalists lyricsText = Return r
    /\ match findTopVocalistInSong
               (vocalistPercentages (generateStatsSummary (vocalistStats r))) with
       | None => vocalistStats r = []
       | Some top =>
           (0 < linesOf top (parsedLyrics r))%N
           /\ forall l,
                In l (parsedLyrics r) -> counted l = true ->
                (linesOf (vocalist l) (parsedLyrics r)
                 <= linesOf top (parsedLyrics r))%N
       end.
Proof.
  destruct (StatsFacts.statistics_of_parse lyricsText) as (r & Hrun & Hstats).
  exists r. split; [exact Hrun|].
  assert (Hdict : dictionary (vocalistStats r) = true).
  { unfold parseLyricsWithVocalists in Hrun.
    destruct (ParseFacts.parse_tallied lyricsText) as (st & Hst & Hd & _).
    rewrite Hst in Hrun. cbn [bind] in Hrun. injection Hrun as <-. exact Hd. }
  pose proof Hdict as Hnd. apply DictFacts.dictionary_spec in Hnd as [Hnd _].
  set (summary := generateStatsSummary (vocalistStats r)).
  assert (Hfrom : forall k s,
             In (k, s) (vocalistPercentages summary) ->
             linesIn s = linesOf k (parsedLyrics r)
             /\ (0 < linesOf k (parsedLyrics r))%N).
  { intros k s Hin. unfold summary in Hin.
    rewrite SummaryFacts.generateStatsSummary_unfold in Hin.
    apply SummaryFacts.fold_in in Hin as [[]|(st & Hst & ->)].
    unfold linesIn, VocalistSummary_lines. cbn [counts summaryEntry].
    pose proof (JSObjectFacts.in_getOwn _ _ _ Hnd Hst) as Hget.
    rewrite Hstats in Hget. unfold statisticsOf in Hget.
    destruct (N.ltb_spec 0 (linesOf k (parsedLyrics r))); [|discriminate].
    destruct (negb (JSObject.inherited k)); [|discriminate].
    injection Hget as <-. auto. }
  assert (Hto : forall k st,
             JSObject.getOwn k (vocalistStats r) = Some st ->
             In (k, summaryEntry (totalLines summary) (totalWords summary) st)
                (vocalistPercentages summary)).
  { intros k st Hget. apply JSObjectFacts.getOwn_in. unfold summary.
    rewrite SummaryFacts.generateStatsSummary_unfold.
    rewrite (SummaryFacts.fold_getOwn _ _ _ Hdict), Hget. reflexivity. }
  pose proof (TopFacts.topStep_fold (vocalistPercentages summary) None 0) as Htop.
  cbv zeta in Htop. unfold findTopVocalistInSong, JSObject.entries.
  destruct Htop as [[Hres Hall]|(pre & t & s & post & Ho & Hres & Hgt & Hpre & Hpost)];
    rewrite Hres; cbn [fst].
  - destruct (vocalistStats r) as [|[k st] rest] eqn:Hr; [reflexivity|exfalso].
    assert (Hget : JSObject.getOwn k ((k, st) :: rest) = Some st)
      by (cbn; rewrite String.eqb_refl; reflexivity).
    pose proof (Hto _ _ Hget) as Hin. rewrite Forall_forall in Hall.
    pose proof (Hall _ Hin) as Hle. cbn [snd] in Hle.
    destruct (Hfrom _ _ Hin) as [Heq Hpos]. rewrite Heq in Hle. lia.
  - assert (Hin : In (t, s) (vocalistPercentages summary))
      by (rewrite Ho; apply in_or_app; right; left; reflexivity).
    destruct (Hfrom _ _ Hin) as [Heq Hpos]. split; [exact Hpos|].
    intros l Hl Hcounted. rewrite <- Heq. clear Heq.
    assert (Hlines : (0 < linesOf (vocalist l) (parsedLyrics r))%N)
      by (apply StatsFacts.linesOf_positive; eauto).
    assert (Hget : JSObject.getOwn (vocalist l) (vocalistStats r)
                   = Some {| lines := linesOf (vocalist l) (parsedLyrics r);
                             words := wordsOf (vocalist l) (parsedLyrics r) |}).
    { rewrite Hstats. unfold statisticsOf. unfold counted in Hcounted.
      rewrite Hcounted. apply N.ltb_lt in Hlines. rewrite Hlines. reflexivity. }
    apply Hto in Hget. rewrite Ho in Hget.
    rewrite Forall_forall in Hpre, Hpost.
    apply in_app_or in Hget as [Hget|[Hget|Hget]].
    + specialize (Hpre _ Hget). unfold linesIn, VocalistSummary_lines in *.
      cbn [snd counts summaryEntry lines] in Hpre. lia.
    + injection Hget as _ ->. unfold linesIn, VocalistSummary_lines.
      cbn [counts summaryEntry lines]. lia.
    + specialize (Hpost _ Hget). unfold linesIn, VocalistSummary_lines in *.
      cbn [snd counts summaryEntry lines] in Hpost. lia.
Qed.

(** X27.  [parseLyricsFromFile] never throws.  When the file is read, the
    result is the parse of its text and nothing is written to the error
    stream: the parser gives the [catch] nothing to catch.  When the read
    fails, the result is the empty one and the message of the error is
    written, after the words "Error reading file: ". *)
Theorem parseLyricsFromFile_catches_read_errors_only
  (fs : FileSystem) (filePath : string) :
  exists r written,
    parseLyricsFromFile fs filePath = Return (r, written)
    /\ match fs filePath with
       | inl lyricsText =>
           parseLyricsWithVocalists lyricsText = Return r /\ written = []
       | inr message =>
           r = {| parsedLyrics := []; vocalistStats := [] |}
           /\ written = [ ("Error reading file: " ++ message)%string ]
       end.
Proof.
  unfold parseLyricsFromFile. destruct (fs filePath) as [lyricsText|message].
  - destruct (StatsFacts.statistics_of_parse lyricsText) as (r & Hrun & _).
    rewrite Hrun. exists r, []. auto.
  - eexists _, _. split; [reflexivity|]. auto.
Qed.

